(** * expo-color-space-plugin: the [apply] command of [src/cli.ts]

    A shallow embedding of the command-line tool that registers the
    plugin entry in an Expo configuration file, and the properties of
    its detection and patching procedures.

    - JavaScript strings are sequences of UTF-16 code units ([list N]).
    - The working directory holds text files, whose content is the
      text that [readFileSync] decodes from their well-formed UTF-8
      and that [writeFileSync] encodes, and other nodes: directories,
      and files of arbitrary bytes that may lack the permission to be
      read or written. Reading decodes UTF-8 as Node does, a byte
      that is not UTF-8 becoming U+FFFD; reading a directory or a
      file without the permission fails, as does writing one.
    - A value produced by [JSON.parse] is a tree; arrays carry the
      named properties that JavaScript allows to be assigned on them,
      and the properties of an object are kept in the order in which
      JavaScript enumerates them.
    - A number is kept as the text of its literal. Its truth value is
      that of the double nearest to it. [JSON.stringify] is given the
      literal to write, which is what JavaScript writes for an
      integer of at most fifteen digits in its canonical form
      ([plain_number]); the shortest text that JavaScript computes
      for the other doubles is not modelled, and the properties that
      state the text written or the values read back are stated for
      documents whose numbers are plain.
    - The name of an error is modelled, its message is the one of the
      engine: the world holds the messages ([diagnostics]) of the
      failures of [JSON.parse], of the property accesses and of the
      file system.
    - The process is a state-and-exception monad over a world made of
      these files, the lines available on the standard input and the
      trace of observable events. A run ends with a value, an
      exception, a call of [process.exit], or stays at a prompt that
      is never answered. *)

From Stdlib Require Import String Ascii.

From Stdlib Require Import List NArith ZArith Bool Lia.

Import ListNotations.

(* ================================================================= *)
(** ** JavaScript strings *)

Abbreviation jschar := N (only parsing).

Abbreviation jsstring := (list N) (only parsing).

Fixpoint lit (s : string) : jsstring :=
  match s with
  | EmptyString => []
  | String a r => N_of_ascii a :: lit r
  end.

Definition dq : jsstring := [34%N].

Definition nl : jsstring := [10%N].

(** [jsq] reads a text in which the apostrophe stands for the double
    quote, to write JSON and JavaScript fragments legibly. *)
Definition jsq (s : string) : jsstring :=
  map (fun c => if N.eqb c 39 then 34%N else c) (lit s).

Fixpoint str_eqb (a b : jsstring) : bool :=
  match a, b with
  | [], [] => true
  | x :: a', y :: b' => N.eqb x y && str_eqb a' b'
  | _, _ => false
  end.

(** [String.prototype.startsWith] *)
Fixpoint startsWith (s p : jsstring) {struct p} : bool :=
  match p, s with
  | [], _ => true
  | x :: p', y :: s' => N.eqb x y && startsWith s' p'
  | _ :: _, [] => false
  end.

(** [String.prototype.includes] *)
Fixpoint includes (s sub : jsstring) : bool :=
  startsWith s sub ||
  match s with
  | [] => false
  | _ :: s' => includes s' sub
  end.

(** The characters matched by the class [\s] of regular expressions,
    which are also those removed by [String.prototype.trim]: the
    white space and the line terminators of ECMAScript. *)
Definition is_space (c : jschar) : bool :=
  existsb (N.eqb c)
    [9; 10; 11; 12; 13; 32; 160; 5760; 8232; 8233; 8239; 8287; 12288; 65279]%N
  || (N.leb 8192 c && N.leb c 8202).

Fixpoint trimStart (s : jsstring) : jsstring :=
  match s with
  | c :: r => if is_space c then trimStart r else s
  | [] => []
  end.

Definition trim (s : jsstring) : jsstring :=
  rev (trimStart (rev (trimStart s))).

(** [String.prototype.split] with a separator of one character. *)
Fixpoint split (sep : jschar) (s : jsstring) : list jsstring :=
  match s with
  | [] => [[]]
  | c :: r =>
      if N.eqb c sep then [] :: split sep r
      else match split sep r with
           | w :: ws => (c :: w) :: ws
           | [] => [[c]]
           end
  end.

Fixpoint join (sep : jsstring) (l : list jsstring) : jsstring :=
  match l with
  | [] => []
  | [x] => x
  | x :: r => x ++ sep ++ join sep r
  end.

(* ================================================================= *)
(** ** Regular expressions

    The three patterns of the text patcher have the same shape: a run
    of literal characters in which [\s*] may occur, the whole pattern
    being the capture group 1. *)

Inductive atom : Type :=
| Chr (c : jschar)
| SpaceStar.

Definition regex := list atom.

Definition chars (s : string) : regex := map Chr (lit s).

(** [\s*] followed by the rest of the pattern [k]: greedy, giving
    characters back when the rest fails. *)
Fixpoint space_star (k : jsstring -> option (jsstring * jsstring))
    (s : jsstring) : option (jsstring * jsstring) :=
  match s with
  | x :: r =>
      if is_space x then
        match space_star k r with
        | Some (m, rest) => Some (x :: m, rest)
        | None => k s
        end
      else k s
  | [] => k s
  end.

(** Backtracking match of a pattern at the start of a text: the
    matched prefix and the rest. *)
Fixpoint match_here (p : regex) (s : jsstring) : option (jsstring * jsstring) :=
  match p with
  | [] => Some ([], s)
  | Chr c :: p' =>
      match s with
      | x :: r =>
          if N.eqb x c then
            match match_here p' r with
            | Some (m, rest) => Some (x :: m, rest)
            | None => None
            end
          else None
      | [] => None
      end
  | SpaceStar :: p' => space_star (match_here p') s
  end.

(** The leftmost match: the text before it, the match and the text
    after it. *)
Fixpoint search (p : regex) (s : jsstring)
  : option (jsstring * jsstring * jsstring) :=
  match match_here p s with
  | Some (m, rest) => Some ([], m, rest)
  | None =>
      match s with
      | [] => None
      | c :: r =>
          match search p r with
          | Some (b, m, a) => Some (c :: b, m, a)
          | None => None
          end
      end
  end.

(** [RegExp.prototype.test] *)
Definition test (p : regex) (s : jsstring) : bool :=
  match search p s with Some _ => true | None => false end.

(** A replacement text: [$1] and literal text. *)
Inductive piece : Type :=
| Group1
| Text (t : jsstring).

Definition expand (m : jsstring) (tpl : list piece) : jsstring :=
  concat (map (fun p => match p with Group1 => m | Text t => t end) tpl).

(** [String.prototype.replace] with a regular expression without the
    global flag: the first match only. *)
Definition replace (s : jsstring) (p : regex) (tpl : list piece) : jsstring :=
  match search p s with
  | Some (b, m, a) => b ++ expand m tpl ++ a
  | None => s
  end.

(** What a pattern denotes. *)
Inductive matches : regex -> jsstring -> Prop :=
| m_nil : matches [] []
| m_chr c p m : matches p m -> matches (Chr c :: p) (c :: m)
| m_star ws p m :
    forallb is_space ws = true -> matches p m ->
    matches (SpaceStar :: p) (ws ++ m).

(* ================================================================= *)
(** ** JavaScript values read from JSON

    An array is an object too: a property that is not an index may be
    assigned on it ([props]); [JSON.stringify] does not write it. The
    properties of an object are listed in the order in which
    JavaScript enumerates them. A property read that finds nothing
    ([undefined]) is [None]. *)

Local Open Scope N_scope.

#[local] Unset Elimination Schemes.

Inductive value : Type :=
| VNull
| VBool (b : bool)
| VNum (n : jsstring)
| VStr (s : jsstring)
| VArr (elems : list value) (props : list (jsstring * value))
| VObj (props : list (jsstring * value)).

#[local] Set Elimination Schemes.

Definition properties := list (jsstring * value).

Definition is_digit (c : jschar) : bool := N.leb 48 c && N.leb c 57.

Fixpoint digits_value (acc : N) (s : jsstring) : option N :=
  match s with
  | [] => Some acc
  | c :: r =>
      if is_digit c then digits_value (acc * 10 + (c - 48)) r else None
  end.

(** A property name that is an array index: the canonical decimal
    text of an integer below 2^32 - 1. *)
Definition array_index (k : jsstring) : option N :=
  match k with
  | [] => None
  | c :: r =>
      if N.eqb c 48 && negb (match r with [] => true | _ => false end)
      then None
      else match digits_value 0 k with
           | Some n => if N.ltb n 4294967295 then Some n else None
           | None => None
           end
  end.

(** Own properties are enumerated with the array indices first, in
    ascending order, then the other names in the order of creation. *)
Definition goes_before (k k' : jsstring) : bool :=
  match array_index k with
  | Some i =>
      match array_index k' with
      | Some j => N.ltb i j
      | None => true
      end
  | None => false
  end.

Fixpoint obj_get (k : jsstring) (l : properties) : option value :=
  match l with
  | [] => None
  | (k', v) :: t => if str_eqb k k' then Some v else obj_get k t
  end.

(** Definition of the property [k]: an existing property keeps its
    place, a new one takes its place in the enumeration order. *)
Fixpoint obj_define (k : jsstring) (v : value) (l : properties) : properties :=
  match l with
  | [] => [(k, v)]
  | (k', v') :: t =>
      if str_eqb k k' then (k, v) :: t
      else if goes_before k k' then (k, v) :: l
      else (k', v') :: obj_define k v t
  end.

(** The digits at the head of a text, as an integer after [acc], and
    their count. *)
Fixpoint take_digits (acc count : N) (s : jsstring) : N * N * jsstring :=
  match s with
  | c :: r =>
      if is_digit c then take_digits (acc * 10 + (c - 48)) (count + 1) r
      else (acc, count, s)
  | [] => (acc, count, [])
  end.

(** A number literal denotes [m * 10 ^ e]: [m] is made of the digits
    of its integer and fraction parts, [e] is its exponent less the
    number of digits of the fraction. *)
Definition decimal (n : jsstring) : N * Z :=
  let s := match n with
           | c :: r => if N.eqb c 45 then r else n
           | [] => n
           end in
  let '(int, _, s1) := take_digits 0 0 s in
  let '(m, fraction, s2) :=
    match s1 with
    | c :: r => if N.eqb c 46 then take_digits int 0 r else (int, 0, s1)
    | [] => (int, 0, s1)
    end in
  let exponent :=
    match s2 with
    | c :: r =>
        if N.eqb c 101 || N.eqb c 69 then
          match r with
          | sign :: r' =>
              if N.eqb sign 45 then (- Z.of_N (fst (fst (take_digits 0 0 r'))))%Z
              else if N.eqb sign 43 then Z.of_N (fst (fst (take_digits 0 0 r')))
              else Z.of_N (fst (fst (take_digits 0 0 r)))
          | [] => 0%Z
          end
        else 0%Z
    | [] => 0%Z
    end in
  (m, (exponent - Z.of_N fraction)%Z).

(** [ToBoolean] of the number that a literal denotes: the literal is
    read as the nearest double, ties to even, so that the number is
    zero when the digits are, and when the value is at most half the
    least positive double, [2 ^ -1074]. *)
Definition num_is_zero (n : jsstring) : bool :=
  let '(m, e) := decimal n in
  N.eqb m 0
  || match e with
     | Zneg k => N.leb (m * 2 ^ 1075) (10 ^ Npos k)
     | _ => false
     end.


Definition truthy (v : option value) : bool :=
  match v with
  | None => false
  | Some VNull => false
  | Some (VBool b) => b
  | Some (VNum n) => negb (num_is_zero n)
  | Some (VStr s) => match s with [] => false | _ => true end
  | Some (VArr _ _) => true
  | Some (VObj _) => true
  end.

(** [Array.isArray] *)
Definition isArray (v : option value) : bool :=
  match v with
  | Some (VArr _ _) => true
  | _ => false
  end.

(* ================================================================= *)
(** ** [JSON.stringify] *)

Definition hex_digit (n : N) : jschar :=
  if N.ltb n 10 then (48 + n)%N else (87 + n)%N.

Definition unicode_escape (c : jschar) : jsstring :=
  [92; 117; hex_digit (N.modulo (N.div c 4096) 16);
   hex_digit (N.modulo (N.div c 256) 16);
   hex_digit (N.modulo (N.div c 16) 16);
   hex_digit (N.modulo c 16)]%N.

Definition is_high_surrogate (c : jschar) : bool := N.leb 55296 c && N.leb c 56319.

Definition is_low_surrogate (c : jschar) : bool := N.leb 56320 c && N.leb c 57343.

Definition quote_unit (c : jschar) : jsstring :=
  if N.eqb c 8 then [92; 98]
  else if N.eqb c 9 then [92; 116]
  else if N.eqb c 10 then [92; 110]
  else if N.eqb c 12 then [92; 102]
  else if N.eqb c 13 then [92; 114]
  else if N.eqb c 34 then [92; 34]
  else if N.eqb c 92 then [92; 92]
  else if N.ltb c 32 || is_high_surrogate c || is_low_surrogate c
       then unicode_escape c
  else [c].

(** [QuoteJSONString] without the enclosing quotes: a surrogate pair
    is copied, a lone surrogate is escaped. *)
Fixpoint quote_body (s : jsstring) : jsstring :=
  match s with
  | [] => []
  | c :: r =>
      if is_high_surrogate c then
        match r with
        | d :: r' =>
            if is_low_surrogate d then c :: d :: quote_body r'
            else unicode_escape c ++ quote_body r
        | [] => unicode_escape c
        end
      else quote_unit c ++ quote_body r
  end.

Definition quote (s : jsstring) : jsstring := dq ++ quote_body s ++ dq.

Definition wrap (gap stepback indent : jsstring) (open close : jschar)
    (partial : list jsstring) : jsstring :=
  match partial with
  | [] => [open; close]
  | _ =>
      match gap with
      | [] => [open] ++ join (lit ",") partial ++ [close]
      | _ => [open] ++ nl ++ indent
             ++ join (lit "," ++ nl ++ indent) partial
             ++ nl ++ stepback ++ [close]
      end
  end.

Definition colon (gap : jsstring) : jsstring :=
  match gap with [] => lit ":" | _ => lit ": " end.

(** [SerializeJSONProperty] on a value read from JSON. *)
Fixpoint serialize (gap indent : jsstring) (v : value) {struct v} : jsstring :=
  match v with
  | VNull => lit "null"
  | VBool b => if b then lit "true" else lit "false"
  | VNum n => n
  | VStr s => quote s
  | VArr elems _ =>
      wrap gap indent (indent ++ gap) 91 93
        (map (serialize gap (indent ++ gap)) elems)
  | VObj props =>
      wrap gap indent (indent ++ gap) 123 125
        (map (fun kv => let '(k, x) := kv in
                        quote k ++ colon gap ++ serialize gap (indent ++ gap) x)
             props)
  end.

(** [JSON.stringify(v, null, space)] for a number [space]. *)
Definition JSON_stringify (v : value) (space : nat) : jsstring :=
  serialize (repeat 32 (Nat.min space 10%nat)) [] v.

(* ================================================================= *)
(** ** [JSON.parse]

    A one-pass recogniser of the JSON grammar: a control state and a
    stack of the containers that are open. *)

Definition is_json_ws (c : jschar) : bool :=
  N.eqb c 32 || N.eqb c 9 || N.eqb c 10 || N.eqb c 13.

Definition is_num_char (c : jschar) : bool :=
  is_digit c || N.eqb c 45 || N.eqb c 43 || N.eqb c 46
  || N.eqb c 101 || N.eqb c 69.

Fixpoint drop_digits (s : jsstring) : jsstring :=
  match s with
  | c :: r => if is_digit c then drop_digits r else s
  | [] => []
  end.

Definition valid_exp (s : jsstring) : bool :=
  match s with
  | [] => true
  | e :: r =>
      (N.eqb e 101 || N.eqb e 69) &&
      match (match r with
             | c :: t => if N.eqb c 43 || N.eqb c 45 then t else r
             | [] => r
             end) with
      | d :: t => is_digit d && match drop_digits t with [] => true | _ => false end
      | [] => false
      end
  end.

Definition valid_frac (s : jsstring) : bool :=
  match s with
  | c :: r =>
      if N.eqb c 46 then
        match r with
        | d :: t => is_digit d && valid_exp (drop_digits t)
        | [] => false
        end
      else valid_exp s
  | [] => true
  end.

(** The grammar of a JSON number. *)
Definition valid_number (s : jsstring) : bool :=
  match (match s with
         | c :: r => if N.eqb c 45 then r else s
         | [] => s
         end) with
  | d :: r =>
      if N.eqb d 48 then valid_frac r
      else if is_digit d then valid_frac (drop_digits r)
      else false
  | [] => false
  end.

Definition hex_val (c : jschar) : option N :=
  if is_digit c then Some (c - 48)%N
  else if N.leb 97 c && N.leb c 102 then Some (c - 87)%N
  else if N.leb 65 c && N.leb c 70 then Some (c - 55)%N
  else None.

Inductive frame : Type :=
| FArr (done : list value)
| FObj (done : properties) (key : jsstring).

Inductive pstate : Type :=
| PValue
| PArrOpen
| PObjOpen
| PKey
| PColon
| PAfter
| PDone (v : value)
| PStr (forKey : bool) (acc : jsstring)
| PEsc (forKey : bool) (acc : jsstring)
| PUni (forKey : bool) (acc : jsstring) (k : nat) (n : N)
| PNum (acc : jsstring)
| PLit (rest : jsstring) (v : value).

Definition config := (pstate * list frame)%type.

(** A complete value goes to the innermost open container. *)
Definition deliver (v : value) (K : list frame) : config :=
  match K with
  | [] => (PDone v, [])
  | FArr done :: K' => (PAfter, FArr (v :: done) :: K')
  | FObj done k :: K' => (PAfter, FObj (obj_define k v done) k :: K')
  end.

Definition end_string (forKey : bool) (s : jsstring) (K : list frame)
  : option config :=
  if forKey then
    match K with
    | FObj done _ :: K' => Some (PColon, FObj done s :: K')
    | _ => None
    end
  else Some (deliver (VStr s) K).

Definition start_value (c : jschar) (K : list frame) : option config :=
  if N.eqb c 34 then Some (PStr false [], K)
  else if N.eqb c 91 then Some (PArrOpen, FArr [] :: K)
  else if N.eqb c 123 then Some (PObjOpen, FObj [] [] :: K)
  else if N.eqb c 45 || is_digit c then Some (PNum [c], K)
  else if N.eqb c 110 then Some (PLit (lit "ull") VNull, K)
  else if N.eqb c 116 then Some (PLit (lit "rue") (VBool true), K)
  else if N.eqb c 102 then Some (PLit (lit "alse") (VBool false), K)
  else None.

Definition escape_char (c : jschar) : option jschar :=
  if N.eqb c 34 then Some 34%N
  else if N.eqb c 92 then Some 92%N
  else if N.eqb c 47 then Some 47%N
  else if N.eqb c 98 then Some 8%N
  else if N.eqb c 102 then Some 12%N
  else if N.eqb c 110 then Some 10%N
  else if N.eqb c 114 then Some 13%N
  else if N.eqb c 116 then Some 9%N
  else None.

(** One character, in a state other than the middle of a number. *)
Definition step_token (st : pstate) (K : list frame) (c : jschar)
  : option config :=
  match st with
  | PValue => if is_json_ws c then Some (PValue, K) else start_value c K
  | PArrOpen =>
      if is_json_ws c then Some (PArrOpen, K)
      else if N.eqb c 93 then
        match K with
        | FArr _ :: K' => Some (deliver (VArr [] []) K')
        | _ => None
        end
      else start_value c K
  | PObjOpen =>
      if is_json_ws c then Some (PObjOpen, K)
      else if N.eqb c 34 then Some (PStr true [], K)
      else if N.eqb c 125 then
        match K with
        | FObj _ _ :: K' => Some (deliver (VObj []) K')
        | _ => None
        end
      else None
  | PKey =>
      if is_json_ws c then Some (PKey, K)
      else if N.eqb c 34 then Some (PStr true [], K)
      else None
  | PColon =>
      if is_json_ws c then Some (PColon, K)
      else if N.eqb c 58 then Some (PValue, K)
      else None
  | PAfter =>
      if is_json_ws c then Some (PAfter, K)
      else match K with
           | FArr done :: K' =>
               if N.eqb c 44 then Some (PValue, K)
               else if N.eqb c 93 then Some (deliver (VArr (rev done) []) K')
               else None
           | FObj done _ :: K' =>
               if N.eqb c 44 then Some (PKey, K)
               else if N.eqb c 125 then Some (deliver (VObj done) K')
               else None
           | [] => None
           end
  | PDone v => if is_json_ws c then Some (PDone v, K) else None
  | PStr fk acc =>
      if N.eqb c 34 then end_string fk (rev acc) K
      else if N.eqb c 92 then Some (PEsc fk acc, K)
      else if N.ltb c 32 then None
      else Some (PStr fk (c :: acc), K)
  | PEsc fk acc =>
      if N.eqb c 117 then Some (PUni fk acc 3%nat 0, K)
      else match escape_char c with
           | Some x => Some (PStr fk (x :: acc), K)
           | None => None
           end
  | PUni fk acc k n =>
      match hex_val c with
      | Some h =>
          match k with
          | O => Some (PStr fk ((n * 16 + h)%N :: acc), K)
          | S k' => Some (PUni fk acc k' (n * 16 + h)%N, K)
          end
      | None => None
      end
  | PLit rest v =>
      match rest with
      | x :: r =>
          if N.eqb c x then
            match r with
            | [] => Some (deliver v K)
            | _ => Some (PLit r v, K)
            end
          else None
      | [] => None
      end
  | PNum _ => None
  end.

(** One character: a number ends at the first character that cannot
    continue it, which is then read in the state that follows. *)
Definition step (cf : config) (c : jschar) : option config :=
  match cf with
  | (PNum acc, K) =>
      if is_num_char c then Some (PNum (c :: acc), K)
      else if valid_number (rev acc) then
        let '(st, K') := deliver (VNum (rev acc)) K in step_token st K' c
      else None
  | (st, K) => step_token st K c
  end.

Fixpoint run (cf : config) (s : jsstring) : option config :=
  match s with
  | [] => Some cf
  | c :: r =>
      match step cf c with
      | Some cf' => run cf' r
      | None => None
      end
  end.

Definition finish (cf : config) : option value :=
  match cf with
  | (PDone v, []) => Some v
  | (PNum acc, []) =>
      if valid_number (rev acc) then Some (VNum (rev acc)) else None
  | _ => None
  end.

(** [JSON.parse]: [None] stands for the [SyntaxError] it throws. *)
Definition JSON_parse (text : jsstring) : option value :=
  match run (PValue, []) text with
  | Some cf => finish cf
  | None => None
  end.

(* ================================================================= *)
(** ** Well-formed values *)

Section value_induction.
Variable P : value -> Prop.
Hypothesis HNull : P VNull.
Hypothesis HBool : forall b, P (VBool b).
Hypothesis HNum : forall n, P (VNum n).
Hypothesis HStr : forall s, P (VStr s).
Hypothesis HArr : forall elems props,
    Forall P elems -> Forall (fun kv => P (snd kv)) props ->
    P (VArr elems props).
Hypothesis HObj : forall props,
    Forall (fun kv => P (snd kv)) props -> P (VObj props).

Fixpoint value_ind (v : value) : P v :=
  let fix elems_ind (l : list value) : Forall P l :=
    match l with
    | [] => Forall_nil _
    | x :: r => Forall_cons x (value_ind x) (elems_ind r)
    end in
  let fix props_ind (l : properties) : Forall (fun kv => P (snd kv)) l :=
    match l with
    | [] => Forall_nil _
    | (k, x) :: r =>
        @Forall_cons _ (fun kv => P (snd kv)) (k, x) r (value_ind x) (props_ind r)
    end in
  match v with
  | VNull => HNull
  | VBool b => HBool b
  | VNum n => HNum n
  | VStr s => HStr s
  | VArr elems props => HArr elems props (elems_ind elems) (props_ind props)
  | VObj props => HObj props (props_ind props)
  end.
End value_induction.

Definition keys (l : properties) : list jsstring := map fst l.

Definition may_follow (k k' : jsstring) : bool :=
  negb (str_eqb k k') && negb (goes_before k' k).

(** The names of an object: no name twice, and in enumeration order. *)
Fixpoint canonical (ks : list jsstring) : bool :=
  match ks with
  | [] => true
  | k :: t => forallb (may_follow k) t && canonical t
  end.

(** The values that [JSON.parse] builds. *)
Fixpoint wf (v : value) : bool :=
  match v with
  | VNull | VBool _ | VStr _ => true
  | VNum n => valid_number n
  | VArr elems props =>
      forallb wf elems && match props with [] => true | _ => false end
  | VObj props =>
      canonical (map fst props)
      && forallb (fun kv => let '(_, x) := kv in wf x) props
  end.

Definition skips (st : pstate) : bool :=
  match st with
  | PValue | PArrOpen | PObjOpen | PKey | PColon | PAfter | PDone _ => true
  | _ => false
  end.

Definition delimited (rest : jsstring) : bool :=
  match rest with
  | d :: _ => negb (is_num_char d)
  | [] => false
  end.

(** The parser reads the serialization of [v] as [v], in any context. *)
Definition reads_back (gap : jsstring) (v : value) : Prop :=
  forall indent K rest,
    forallb is_json_ws indent = true -> delimited rest = true ->
    run (PValue, K) (serialize gap indent v ++ rest) = run (deliver v K) rest.

(* ================================================================= *)
(** ** What [JSON.parse] returns is well formed *)

Definition wf_frame (f : frame) : bool :=
  match f with
  | FArr done => forallb wf done
  | FObj done _ => wf (VObj done)
  end.

Definition wf_state (st : pstate) : bool :=
  match st with
  | PDone v | PLit _ v => wf v
  | _ => true
  end.

Definition wf_config (cf : config) : bool :=
  wf_state (fst cf) && forallb wf_frame (snd cf).

(* ================================================================= *)
(** ** UTF-8

    [fs.readFileSync(path, 'utf8')] decodes the bytes of the file,
    putting the replacement character U+FFFD in the place of every
    maximal part of a sequence that is not well formed, and keeps a
    byte order mark; [fs.writeFileSync(path, text)] encodes the text,
    a surrogate that is alone being written as U+FFFD. *)

Definition replacement : jschar := 65533.

Definition is_continuation (b : N) : bool := N.leb 128 b && N.leb b 191.

Definition between (low high b : N) : bool := N.leb low b && N.leb b high.

(** The UTF-16 code units of a code point. *)
Definition code_units (cp : N) : jsstring :=
  if N.ltb cp 65536 then [cp]
  else [55296 + (cp - 65536) / 1024; 56320 + (cp - 65536) mod 1024].

Fixpoint utf8_decode (l : list N) : jsstring :=
  match l with
  | [] => []
  | b0 :: r =>
      if N.ltb b0 128 then b0 :: utf8_decode r
      else if between 194 223 b0 then
        match r with
        | b1 :: r1 =>
            if is_continuation b1
            then ((b0 - 192) * 64 + (b1 - 128)) :: utf8_decode r1
            else replacement :: utf8_decode r
        | [] => [replacement]
        end
      else if between 224 239 b0 then
        match r with
        | b1 :: r1 =>
            if between (if N.eqb b0 224 then 160 else 128)
                       (if N.eqb b0 237 then 159 else 191) b1
            then
              match r1 with
              | b2 :: r2 =>
                  if is_continuation b2
                  then ((b0 - 224) * 4096 + (b1 - 128) * 64 + (b2 - 128))
                       :: utf8_decode r2
                  else replacement :: utf8_decode r1
              | [] => [replacement]
              end
            else replacement :: utf8_decode r
        | [] => [replacement]
        end
      else if between 240 244 b0 then
        match r with
        | b1 :: r1 =>
            if between (if N.eqb b0 240 then 144 else 128)
                       (if N.eqb b0 244 then 143 else 191) b1
            then
              match r1 with
              | b2 :: r2 =>
                  if is_continuation b2 then
                    match r2 with
                    | b3 :: r3 =>
                        if is_continuation b3
                        then code_units ((b0 - 240) * 262144 + (b1 - 128) * 4096
                                         + (b2 - 128) * 64 + (b3 - 128))
                             ++ utf8_decode r3
                        else replacement :: utf8_decode r2
                    | [] => [replacement]
                    end
                  else replacement :: utf8_decode r1
              | [] => [replacement]
              end
            else replacement :: utf8_decode r
        | [] => [replacement]
        end
      else replacement :: utf8_decode r
  end.

(** The bytes of a code point. *)
Definition utf8_bytes (cp : N) : list N :=
  if N.ltb cp 128 then [cp]
  else if N.ltb cp 2048 then [192 + cp / 64; 128 + cp mod 64]
  else if N.ltb cp 65536
       then [224 + cp / 4096; 128 + (cp / 64) mod 64; 128 + cp mod 64]
  else [240 + cp / 262144; 128 + (cp / 4096) mod 64; 128 + (cp / 64) mod 64;
        128 + cp mod 64].

Fixpoint utf8_encode (s : jsstring) : list N :=
  match s with
  | [] => []
  | c :: r =>
      if is_high_surrogate c then
        match r with
        | d :: r' =>
            if is_low_surrogate d
            then utf8_bytes (65536 + (c - 55296) * 1024 + (d - 56320))
                 ++ utf8_encode r'
            else utf8_bytes replacement ++ utf8_encode r
        | [] => utf8_bytes replacement
        end
      else if is_low_surrogate c then utf8_bytes replacement ++ utf8_encode r
      else utf8_bytes c ++ utf8_encode r
  end.

(** A text in which every surrogate is in a pair: the texts that
    files hold. *)
Fixpoint well_formed (s : jsstring) : bool :=
  match s with
  | [] => true
  | c :: r =>
      if is_high_surrogate c then
        match r with
        | d :: r' => is_low_surrogate d && well_formed r'
        | [] => false
        end
      else negb (is_low_surrogate c) && N.ltb c 65536 && well_formed r
  end.

(* ================================================================= *)
(** ** The process: files, console, standard input *)

Record path : Type := mkPath { dir : jsstring; base : jsstring }.

Definition path_eqb (p q : path) : bool :=
  str_eqb (dir p) (dir q) && str_eqb (base p) (base q).

(** [path.join(dir, file)] for a file name without separator. *)
Definition path_join (d file : jsstring) : path := mkPath d file.

(** [path.basename] *)
Definition basename (p : path) : jsstring := base p.

Fixpoint last_dot (s : jsstring) : option jsstring :=
  match s with
  | [] => None
  | c :: r =>
      match last_dot r with
      | Some e => Some e
      | None => if N.eqb c 46 then Some s else None
      end
  end.

(** [path.extname]: from the last dot of the base name, a dot in the
    first place not counting. *)
Definition extname (p : path) : jsstring :=
  match base p with
  | [] => []
  | c :: r =>
      if str_eqb (base p) (lit "..") then []
      else match last_dot r with Some e => e | None => [] end
  end.

(** The errors that the operations of the language throw in this
    program. *)
Inductive error : Type :=
| SyntaxError
| TypeError.

Definition error_name (e : error) : jsstring :=
  match e with
  | SyntaxError => lit "SyntaxError"
  | TypeError => lit "TypeError"
  end.

(** An error object: its name and its message. *)
Record exception : Type := mkException { name : jsstring; message : jsstring }.

(** [new Error(message)] *)
Definition Error_ (m : jsstring) : exception := mkException (lit "Error") m.

(** [Error.prototype.toString], which a template literal applies to
    an error. *)
Definition error_to_string (e : exception) : jsstring :=
  match name e, message e with
  | [], m => m
  | n, [] => n
  | n, m => n ++ lit ": " ++ m
  end.

(** What fails: the parsing of a text, an operation on a value of
    the document of a text, the reading or the writing of a file. The
    message of the error is the affair of the engine and of the
    system. *)
Inductive failure : Type :=
| Parsing (text : jsstring)
| Typing (text : jsstring)
| Reading (p : path)
| Writing (p : path).

(** What is at a path besides a text file that can be read and
    written: a directory, or a file given by its bytes and by what
    the process is allowed to do with it. *)
Inductive node : Type :=
| Directory
| Raw (bytes : list N) (readable writable : bool).

Inductive event : Type :=
| Exists (p : path)
| Read (p : path)
| Write (p : path) (content : jsstring)
| Log (line : jsstring)
| LogError (line : jsstring)
| Question (query : jsstring).

(** [files] holds the texts of the files that hold well-formed UTF-8
    and that the process may read and write; [others] holds what else
    is in the file system; a path of [files] is looked for in
    [files] only. [diagnostics] gives the messages of the errors of
    the engine and of the system. *)
Record world : Type := mkWorld {
  cwd : jsstring;
  files : list (path * jsstring);
  others : list (path * node);
  diagnostics : failure -> jsstring;
  stdin : list jsstring;
  trace : list event
}.

(** How a computation ends: with a value, with an exception, with
    [process.exit], or waiting for an input that never comes. *)
Inductive outcome (A : Type) : Type :=
| Ret (a : A)
| Throw (e : exception)
| Exit (code : Z)
| Pending.

Arguments Ret {A} a.

Arguments Throw {A} e.

Arguments Exit {A} code.

Arguments Pending {A}.

Definition M (A : Type) : Type := world -> outcome A * world.

Definition ret {A : Type} (a : A) : M A := fun w => (Ret a, w).

Definition bind {A B : Type} (m : M A) (k : A -> M B) : M B :=
  fun w =>
    match m w with
    | (Ret a, w') => k a w'
    | (Throw e, w') => (Throw e, w')
    | (Exit c, w') => (Exit c, w')
    | (Pending, w') => (Pending, w')
    end.

Notation "x <- m ;; k" := (bind m (fun x => k))
  (at level 61, m at next level, right associativity).

Notation "m ;; k" := (bind m (fun _ => k))
  (at level 61, right associativity).

Definition throw {A : Type} (e : exception) : M A := fun w => (Throw e, w).

(** [try { m } catch (error) { handler }] *)
Definition try_catch {A : Type} (m : M A) (handler : exception -> M A) : M A :=
  fun w =>
    match m w with
    | (Throw e, w') => handler e w'
    | r => r
    end.

(** The error object of a failure of the language on the text
    [subject]. *)
Definition thrown (w : world) (e : error) (subject : jsstring) : exception :=
  mkException (error_name e)
    (diagnostics w (match e with
                    | SyntaxError => Parsing subject
                    | TypeError => Typing subject
                    end)).

Definition lift {A : Type} (subject : jsstring) (r : error + A) : M A :=
  match r with
  | inl e => fun w => (Throw (thrown w e subject), w)
  | inr a => ret a
  end.

Definition emits (evs : list event) (w : world) : world :=
  mkWorld (cwd w) (files w) (others w) (diagnostics w) (stdin w)
          (trace w ++ evs).

Definition emit (e : event) (w : world) : world := emits [e] w.

Fixpoint lookup (p : path) (fs : list (path * jsstring)) : option jsstring :=
  match fs with
  | [] => None
  | (q, c) :: r => if path_eqb p q then Some c else lookup p r
  end.

Fixpoint node_at (p : path) (l : list (path * node)) : option node :=
  match l with
  | [] => None
  | (q, n) :: r => if path_eqb p q then Some n else node_at p r
  end.

Fixpoint store (p : path) (c : jsstring) (fs : list (path * jsstring))
  : list (path * jsstring) :=
  match fs with
  | [] => [(p, c)]
  | (q, d) :: r => if path_eqb p q then (p, c) :: r else (q, d) :: store p c r
  end.

Definition file_exists (fs : list (path * jsstring)) (p : path) : bool :=
  match lookup p fs with Some _ => true | None => false end.

(** There is something at the path. *)
Definition on_disk (w : world) (p : path) : bool :=
  file_exists (files w) p
  || match node_at p (others w) with Some _ => true | None => false end.

(** The error of the system for a file that cannot be read or
    written. *)
Definition system_error (w : world) (f : failure) : exception :=
  mkException (lit "Error") (diagnostics w f).

(** What the reading of a path gives: the text of the file, or the
    error of the system for a path that holds nothing, a directory
    or a file that may not be read. *)
Definition read_result (w : world) (p : path) : exception + jsstring :=
  match lookup p (files w) with
  | Some c => inr c
  | None =>
      match node_at p (others w) with
      | Some (Raw bytes true _) => inr (utf8_decode bytes)
      | _ => inl (system_error w (Reading p))
      end
  end.

(** The path may be written: it holds a file that may be, or nothing
    (the directories of the paths of the program exist and allow the
    creation of a file). *)
Definition can_write (w : world) (p : path) : bool :=
  match lookup p (files w) with
  | Some _ => true
  | None =>
      match node_at p (others w) with
      | Some (Raw _ _ writable) => writable
      | Some Directory => false
      | None => true
      end
  end.

Definition process_cwd : M jsstring := fun w => (Ret (cwd w), w).

Definition existsSync (p : path) : M bool :=
  fun w => (Ret (on_disk w p), emit (Exists p) w).

Definition readFileSync (p : path) : M jsstring :=
  fun w =>
    match read_result w p with
    | inr c => (Ret c, emit (Read p) w)
    | inl e => (Throw e, emit (Read p) w)
    end.

(** The world after the writing of [content] at [p]. *)
Definition written (p : path) (content : jsstring) (w : world) : world :=
  mkWorld (cwd w) (store p content (files w)) (others w) (diagnostics w)
          (stdin w) (trace w ++ [Write p content]).

Definition writeFileSync (p : path) (c : jsstring) : M unit :=
  fun w =>
    if can_write w p then (Ret tt, written p c w)
    else (Throw (system_error w (Writing p)), w).

(** The bytes at a path. *)
Definition bytes_of (w : world) (p : path) : option (list N) :=
  match lookup p (files w) with
  | Some c => Some (utf8_encode c)
  | None =>
      match node_at p (others w) with
      | Some (Raw bytes _ _) => Some bytes
      | _ => None
      end
  end.

(** [console.log] and [console.error] separate their arguments with
    a space. *)
Definition console_log (args : list jsstring) : M unit :=
  fun w => (Ret tt, emit (Log (join (lit " ") args)) w).

Definition console_error (args : list jsstring) : M unit :=
  fun w => (Ret tt, emit (LogError (join (lit " ") args)) w).

(** [readline]'s [question]: the next line of the standard input. *)
Definition question (query : jsstring) : M jsstring :=
  fun w =>
    match stdin w with
    | answer :: rest =>
        (Ret answer,
         mkWorld (cwd w) (files w) (others w) (diagnostics w) rest
                 (trace w ++ [Question query]))
    | [] => (Pending, emit (Question query) w)
    end.

Definition process_exit {A : Type} (code : Z) : M A := fun w => (Exit code, w).

(** The exit code of the process, when it ends. *)
Definition exit_code {A : Type} (o : outcome A) : option Z :=
  match o with
  | Ret _ => Some 0%Z
  | Throw _ => Some 1%Z
  | Exit c => Some c
  | Pending => None
  end.

(* ================================================================= *)
(** ** Property accesses

    [get v k] is [v.k] and [set v k x] is [v.k = x], for a name [k]
    that is neither an array index nor the name of a built-in
    property; the program uses [expo], [plugins] and [push]. Values
    are trees without sharing, so that the assignment inside an object
    held by another is the replacement of the inner object in the
    outer one. *)

Definition get (v : option value) (k : jsstring) : error + option value :=
  match v with
  | None | Some VNull => inl TypeError
  | Some (VObj props) | Some (VArr _ props) => inr (obj_get k props)
  | Some (VBool _) | Some (VNum _) | Some (VStr _) => inr None
  end.

(** In strict mode the assignment of a property on a primitive value
    throws; in sloppy mode it does nothing and the next access of the
    program, on the [undefined] that is still there, throws as well. *)
Definition set (v : option value) (k : jsstring) (x : value) : error + value :=
  match v with
  | Some (VObj props) => inr (VObj (obj_define k x props))
  | Some (VArr elems props) => inr (VArr elems (obj_define k x props))
  | _ => inl TypeError
  end.

(** [v.push(x)]: only arrays have a [push] that is a function. *)
Definition push (v : option value) (x : value) : error + value :=
  match v with
  | Some (VArr elems props) => inr (VArr (elems ++ [x]) props)
  | _ => inl TypeError
  end.

Definition bindE {A B : Type} (r : error + A) (k : A -> error + B) : error + B :=
  match r with
  | inl e => inl e
  | inr a => k a
  end.

(** [config.k1.k2 = x] *)
Definition set2 (config : value) (k1 k2 : jsstring) (x : value) : error + value :=
  bindE (get (Some config) k1) (fun inner =>
  bindE (set inner k2 x) (fun inner' =>
  set (Some config) k1 inner')).

(** [config.k1.k2.push(x)] *)
Definition push2 (config : value) (k1 k2 : jsstring) (x : value) : error + value :=
  bindE (get (Some config) k1) (fun inner =>
  bindE (get inner k2) (fun arr =>
  bindE (push arr x) (fun arr' =>
  bindE (set inner k2 arr') (fun inner' =>
  set (Some config) k1 inner')))).

(* ================================================================= *)
(** ** The program *)

Inductive ColorSpace : Type := displayP3 | SRGB.

Definition text (c : ColorSpace) : jsstring :=
  match c with
  | displayP3 => lit "displayP3"
  | SRGB => lit "SRGB"
  end.

Record ApplyOptions : Type := mkOptions {
  colorSpace : option ColorSpace;
  silent : option bool
}.

Definition plugin_name : jsstring := lit "expo-color-space-plugin".

Definition check_mark : jsstring := [10003].

Definition cross_mark : jsstring := [10060].

Definition warning_sign : jsstring := [9888; 65039].

Definition check_box : jsstring := [9989].

Definition configFiles : list jsstring :=
  [lit "app.json"; lit "app.config.js"; lit "app.config.ts"].

(** The loop of [detectConfigFile] over the candidates. *)
Fixpoint first_existing (d : jsstring) (l : list jsstring) : M (option path) :=
  match l with
  | [] => ret None
  | file :: r =>
      let filePath := path_join d file in
      found <- existsSync filePath ;;
      if found then ret (Some filePath) else first_existing d r
  end.

(** [detectConfigFile] (src/cli.ts, lines 17-28) *)
Definition detectConfigFile : M (option path) :=
  d <- process_cwd ;; first_existing d configFiles.

(** [promptColorSpace] (lines 33-49) *)
Definition promptColorSpace : M ColorSpace :=
  console_log [nl ++ lit "Which color space would you like to use?"] ;;
  console_log [lit "1. displayP3 (default) - Wide color gamut, more vibrant colors"] ;;
  console_log [lit "2. SRGB - Standard color space" ++ nl] ;;
  answer <- question (lit "Enter choice (1 or 2, default: 1): ") ;;
  ret (if str_eqb (trim answer) (lit "2") then SRGB else displayP3).

(** [a === 'expo-color-space-plugin'] *)
Definition is_plugin_name (v : option value) : bool :=
  match v with
  | Some (VStr s) => str_eqb s plugin_name
  | _ => false
  end.

(** [isPluginInConfig] (lines 54-66) *)
Definition isPluginInConfig (plugins : option value) : bool :=
  match plugins with
  | Some (VArr elems _) =>
      existsb (fun plugin =>
                 match plugin with
                 | VStr _ => is_plugin_name (Some plugin)
                 | VArr items _ =>
                     match items with
                     | [] => false
                     | first :: _ => is_plugin_name (Some first)
                     end
                 | _ => false
                 end) elems
  | _ => false
  end.

(** [['expo-color-space-plugin', { colorSpace }]] *)
Definition entry (c : ColorSpace) : value :=
  VArr [VStr plugin_name; VObj [(lit "colorSpace", VStr (text c))]] [].

(** [modifyAppJson] (lines 71-100) *)
Definition modifyAppJson (filePath : path) (c : ColorSpace) : M bool :=
  try_catch
    (content <- readFileSync filePath ;;
     config <- lift content (match JSON_parse content with
                             | Some v => inr v
                             | None => inl SyntaxError
                             end) ;;
     expo <- lift content (get (Some config) (lit "expo")) ;;
     config <- (if negb (truthy expo)
                then lift content (set (Some config) (lit "expo") (VObj []))
                else ret config) ;;
     expo <- lift content (get (Some config) (lit "expo")) ;;
     plugins <- lift content (get expo (lit "plugins")) ;;
     config <- (if negb (truthy plugins)
                then lift content
                       (set2 config (lit "expo") (lit "plugins") (VArr [] []))
                else ret config) ;;
     expo <- lift content (get (Some config) (lit "expo")) ;;
     plugins <- lift content (get expo (lit "plugins")) ;;
     if isPluginInConfig plugins then
       console_log [check_mark ++ lit " Plugin is already configured in app.json"] ;;
       ret false
     else
       config <- lift content
                   (push2 config (lit "expo") (lit "plugins") (entry c)) ;;
       writeFileSync filePath (JSON_stringify config 2 ++ nl) ;;
       ret true)
    (fun e => throw (Error_ (lit "Failed to modify app.json: "
                             ++ error_to_string e))).

(** The template literal [pluginEntry] (line 115) *)
Definition pluginEntry (c : ColorSpace) : jsstring :=
  jsq "['expo-color-space-plugin', { 'colorSpace': '" ++ text c ++ jsq "' }]".

(** [/(plugins:\s*\[)/], [/("plugins":\s*\[)/] and [/(expo:\s*\{)/] *)
Definition pluginsArrayRegex : regex :=
  chars "plugins:" ++ [SpaceStar] ++ chars "[".

Definition pluginsArrayJsonRegex : regex :=
  map Chr (jsq "'plugins':") ++ [SpaceStar] ++ chars "[".

Definition expoObjectRegex : regex :=
  chars "expo:" ++ [SpaceStar] ++ chars "{".

(** [modifyAppConfigJs] (lines 105-159) *)
Definition modifyAppConfigJs (filePath : path) (c : ColorSpace) : M bool :=
  try_catch
    (content <- readFileSync filePath ;;
     if includes content plugin_name then
       console_log [check_mark ++ lit " Plugin is already configured in";
                    basename filePath] ;;
       ret false
     else if test pluginsArrayRegex content then
       let content :=
         replace content pluginsArrayRegex
           [Group1; Text (nl ++ lit "      " ++ pluginEntry c ++ lit ",")] in
       writeFileSync filePath content ;; ret true
     else if test pluginsArrayJsonRegex content then
       let content :=
         replace content pluginsArrayJsonRegex
           [Group1; Text (nl ++ lit "      " ++ pluginEntry c ++ lit ",")] in
       writeFileSync filePath content ;; ret true
     else if test expoObjectRegex content then
       let content :=
         replace content expoObjectRegex
           [Group1; Text (nl ++ lit "    plugins: [" ++ nl ++ lit "      "
                          ++ pluginEntry c ++ nl ++ lit "    ],")] in
       writeFileSync filePath content ;; ret true
     else
       console_log [warning_sign ++ lit "  Could not automatically modify";
                    basename filePath] ;;
       console_log [lit "Please manually add the following to your plugins array:"] ;;
       console_log [lit "  " ++ pluginEntry c] ;;
       ret false)
    (fun e => throw (Error_ (lit "Failed to modify " ++ basename filePath
                             ++ lit ": " ++ error_to_string e))).

(** [apply] (lines 164-201) *)
Definition apply (options : ApplyOptions) : M unit :=
  try_catch
    (configFile <- detectConfigFile ;;
     match configFile with
     | None =>
         console_error [cross_mark ++ lit " No Expo config file found (app.json, app.config.js, or app.config.ts)"] ;;
         console_error [lit "Please run this command from your Expo project root directory."] ;;
         process_exit 1
     | Some configFile =>
         console_log [check_mark ++ lit " Found config file:"; basename configFile] ;;
         c <- match colorSpace options with
              | Some c => ret c
              | None => promptColorSpace
              end ;;
         let ext := extname configFile in
         modified <-
           (if str_eqb ext (lit ".json") then modifyAppJson configFile c
            else if str_eqb ext (lit ".js") || str_eqb ext (lit ".ts")
                 then modifyAppConfigJs configFile c
            else ret false) ;;
         if modified then
           console_log [nl ++ check_box
                        ++ lit " Successfully added expo-color-space-plugin with "
                        ++ text c ++ lit " color space!"] ;;
           console_log [nl ++ lit "Next steps:"] ;;
           console_log [lit "  1. Run: bunx expo prebuild --clean"] ;;
           console_log [lit "  2. Build your iOS app to see the changes" ++ nl]
         else ret tt
     end)
    (fun e => console_error [cross_mark ++ lit " Error:"; message e] ;;
              process_exit 1).

Definition noOptions : ApplyOptions := mkOptions None None.

(** [main] (lines 206-236); [args] is [process.argv.slice(2)]. *)
Definition main (args : list jsstring) : M unit :=
  let command := nth_error args 0 in
  match command with
  | Some cmd =>
      if str_eqb cmd (lit "apply") then
        options <-
          match find (fun arg => startsWith arg (lit "--colorSpace=")) args with
          | Some colorSpaceArg =>
              let value := nth_error (split 61 colorSpaceArg) 1 in
              match value with
              | Some value =>
                  if str_eqb value (lit "displayP3")
                  then ret (mkOptions (Some displayP3) None)
                  else if str_eqb value (lit "SRGB")
                  then ret (mkOptions (Some SRGB) None)
                  else
                    console_error [cross_mark ++ jsq " Invalid colorSpace. Use 'displayP3' or 'SRGB'"] ;;
                    process_exit 1
              | None =>
                  console_error [cross_mark ++ jsq " Invalid colorSpace. Use 'displayP3' or 'SRGB'"] ;;
                  process_exit 1
              end
          | None => ret noOptions
          end ;;
        apply options
      else
        console_log [lit "expo-color-space-plugin CLI" ++ nl] ;;
        console_log [lit "Usage:"] ;;
        console_log [lit "  bunx expo-color-space-plugin apply [options]" ++ nl] ;;
        console_log [lit "Options:"] ;;
        console_log [lit "  --colorSpace=<displayP3|SRGB>  Set color space without prompting" ++ nl] ;;
        console_log [lit "Example:"] ;;
        console_log [lit "  bunx expo-color-space-plugin apply"] ;;
        console_log [lit "  bunx expo-color-space-plugin apply --colorSpace=displayP3"]
  | None =>
      console_log [lit "expo-color-space-plugin CLI" ++ nl] ;;
      console_log [lit "Usage:"] ;;
      console_log [lit "  bunx expo-color-space-plugin apply [options]" ++ nl] ;;
      console_log [lit "Options:"] ;;
      console_log [lit "  --colorSpace=<displayP3|SRGB>  Set color space without prompting" ++ nl] ;;
      console_log [lit "Example:"] ;;
      console_log [lit "  bunx expo-color-space-plugin apply"] ;;
      console_log [lit "  bunx expo-color-space-plugin apply --colorSpace=displayP3"]
  end.

(* ================================================================= *)
(** ** The structured patcher as a function on documents *)

(** The two defaults of [modifyAppJson]: [config.expo] and
    [config.expo.plugins]. *)
Definition defaults (config : value) : error + value :=
  bindE (get (Some config) (lit "expo")) (fun expo =>
  bindE (if negb (truthy expo)
         then set (Some config) (lit "expo") (VObj [])
         else inr config) (fun config =>
  bindE (get (Some config) (lit "expo")) (fun expo =>
  bindE (get expo (lit "plugins")) (fun plugins =>
  if negb (truthy plugins)
  then set2 config (lit "expo") (lit "plugins") (VArr [] [])
  else inr config)))).

(** [config.expo.plugins] *)
Definition plugins_of (config : value) : error + option value :=
  bindE (get (Some config) (lit "expo")) (fun expo =>
  get expo (lit "plugins")).

(** What [modifyAppJson] does to the document: an error, nothing
    when the entry is detected, or the document to write. *)
Definition patch (config : value) (c : ColorSpace) : error + option value :=
  bindE (defaults config) (fun config =>
  bindE (plugins_of config) (fun plugins =>
  if isPluginInConfig plugins then inr None
  else bindE (push2 config (lit "expo") (lit "plugins") (entry c))
             (fun config => inr (Some config)))).

Definition failed_json (e : exception) : exception :=
  Error_ (lit "Failed to modify app.json: " ++ error_to_string e).

Definition already_json : jsstring :=
  check_mark ++ lit " Plugin is already configured in app.json".

(* ================================================================= *)
(** ** The text patcher as a function on texts *)

Definition insertion_list (c : ColorSpace) : jsstring :=
  nl ++ lit "      " ++ pluginEntry c ++ lit ",".

Definition insertion_decl (c : ColorSpace) : jsstring :=
  nl ++ lit "    plugins: [" ++ nl ++ lit "      " ++ pluginEntry c
     ++ nl ++ lit "    ],".

Definition failed_js (p : path) (e : exception) : exception :=
  Error_ (lit "Failed to modify " ++ basename p ++ lit ": "
          ++ error_to_string e).

Definition already_js (p : path) : jsstring :=
  join (lit " ") [check_mark ++ lit " Plugin is already configured in";
                  basename p].

Definition manual_logs (p : path) (c : ColorSpace) : list event :=
  [Log (join (lit " ") [warning_sign ++ lit "  Could not automatically modify";
                        basename p]);
   Log (lit "Please manually add the following to your plugins array:");
   Log (lit "  " ++ pluginEntry c)].

(* ================================================================= *)
(** ** The run of [apply] *)

(** The file that [detectConfigFile] selects and the probes it makes,
    [present] telling what is at a path. *)
Fixpoint probe (d : jsstring) (present : path -> bool)
    (l : list jsstring) : option path * list event :=
  match l with
  | [] => (None, [])
  | file :: r =>
      let p := path_join d file in
      if present p then (Some p, [Exists p])
      else let '(res, evs) := probe d present r in (res, Exists p :: evs)
  end.

Definition config_file (w : world) : option path :=
  fst (probe (cwd w) (on_disk w) configFiles).

Definition probes (w : world) : list event :=
  snd (probe (cwd w) (on_disk w) configFiles).

Definition prompt_text : jsstring := lit "Enter choice (1 or 2, default: 1): ".

Definition prompt_events : list event :=
  [Log (nl ++ lit "Which color space would you like to use?");
   Log (lit "1. displayP3 (default) - Wide color gamut, more vibrant colors");
   Log (lit "2. SRGB - Standard color space" ++ nl);
   Question prompt_text].

Definition choice (answer : jsstring) : ColorSpace :=
  if str_eqb (trim answer) (lit "2") then SRGB else displayP3.

(** The choice of the colour space: the option, or else the prompt. *)
Definition choose (options : ApplyOptions) : M ColorSpace :=
  match colorSpace options with
  | Some c => ret c
  | None => promptColorSpace
  end.

(** The patcher that the extension of the file selects. *)
Definition modify (p : path) (c : ColorSpace) : M bool :=
  if str_eqb (extname p) (lit ".json") then modifyAppJson p c
  else if str_eqb (extname p) (lit ".js") || str_eqb (extname p) (lit ".ts")
       then modifyAppConfigJs p c
  else ret false.

Definition found_log (p : path) : event :=
  Log (join (lit " ") [check_mark ++ lit " Found config file:"; basename p]).

Definition success_logs (c : ColorSpace) : list event :=
  [Log (nl ++ check_box ++ lit " Successfully added expo-color-space-plugin with "
        ++ text c ++ lit " color space!");
   Log (nl ++ lit "Next steps:");
   Log (lit "  1. Run: bunx expo prebuild --clean");
   Log (lit "  2. Build your iOS app to see the changes" ++ nl)].

Definition error_log (e : exception) : event :=
  LogError (join (lit " ") [cross_mark ++ lit " Error:"; message e]).

Definition not_found_logs : list event :=
  [LogError (cross_mark ++ lit " No Expo config file found (app.json, app.config.js, or app.config.ts)");
   LogError (lit "Please run this command from your Expo project root directory.")].

(** The three searches of [modifyAppConfigJs], in their order. *)
Definition patch_text (content : jsstring) (c : ColorSpace) : option jsstring :=
  match search pluginsArrayRegex content with
  | Some (b, m, a) => Some (b ++ m ++ insertion_list c ++ a)
  | None =>
      match search pluginsArrayJsonRegex content with
      | Some (b, m, a) => Some (b ++ m ++ insertion_list c ++ a)
      | None =>
          match search expoObjectRegex content with
          | Some (b, m, a) => Some (b ++ m ++ insertion_decl c ++ a)
          | None => None
          end
      end
  end.

(** The events of a run up to the call of the patcher. *)
Definition before_patch (options : ApplyOptions) (w : world) (p : path)
  : list event :=
  probes w ++ [found_log p]
  ++ match colorSpace options with Some _ => [] | None => prompt_events end.

(** The world in which the patcher is called. *)
Definition after_choice (options : ApplyOptions) (w : world) (p : path) : world :=
  mkWorld (cwd w) (files w) (others w) (diagnostics w)
          (match colorSpace options with
           | Some _ => stdin w
           | None => tl (stdin w)
           end)
          (trace w ++ before_patch options w p).

(* ================================================================= *)
(** ** The vocabulary of the properties *)

(** *** Detection in the structured representation *)

(** The rule as the specification words it: the bare name, or a
    structure of two elements whose first is the name. *)
Definition bare_or_pair (x : value) : Prop :=
  x = VStr plugin_name
  \/ exists options ps, x = VArr [VStr plugin_name; options] ps.

Definition detects_bare_or_pair (l : list value) : Prop :=
  isPluginInConfig (Some (VArr l [])) = true <->
  exists x, In x l /\ bare_or_pair x.

(** What the code matches: the bare name, or an array that is not
    empty and whose first element is the name. *)
Definition bare_or_headed (x : value) : Prop :=
  x = VStr plugin_name
  \/ exists rest ps, x = VArr (VStr plugin_name :: rest) ps.

(** The plugins list of a document, when it has one. *)
Definition plugins_list (config : value) : option (list value) :=
  match plugins_of config with
  | inr (Some (VArr l _)) => Some l
  | _ => None
  end.

(** The text parses to a document whose plugins list holds the entry
    once. *)
Definition holds_entry_once (c : ColorSpace) (written_text : jsstring) : Prop :=
  exists config l a b,
    JSON_parse written_text = Some config
    /\ plugins_list config = Some l
    /\ l = a ++ entry c :: b
    /\ ~ In (entry c) a /\ ~ In (entry c) b.

(** The document of a data-format file is an object whose [expo] is
    not an array. *)
Definition object_shaped (config : value) : bool :=
  match config with
  | VObj props => negb (isArray (obj_get (lit "expo") props))
  | _ => false
  end.

Definition object_shaped_file (w : world) (p : path) : bool :=
  match lookup p (files w) with
  | Some content =>
      match JSON_parse content with
      | Some config => object_shaped config
      | None => false
      end
  | None => false
  end.

(** The documents on which the structured patcher succeeds, among
    those that are objects: [expo] is absent, falsy or an object
    whose [plugins] is absent, falsy or an array without the entry. *)
Definition patchable (props : properties) : bool :=
  match obj_get (lit "expo") props with
  | Some (VObj eprops) =>
      match obj_get (lit "plugins") eprops with
      | Some (VArr l ps) => negb (isPluginInConfig (Some (VArr l ps)))
      | plugins => negb (truthy plugins)
      end
  | expo => negb (truthy expo)
  end.

(** What the patcher of the file treats as the entry being there. *)
Definition entry_present (p : path) (content : jsstring) : bool :=
  if str_eqb (extname p) (lit ".json") then
    match JSON_parse content with
    | Some config =>
        match patch config displayP3 with
        | inr None => true
        | _ => false
        end
    | None => false
    end
  else includes content plugin_name.

(** *** The anchors of the text patcher *)

(** An anchor: a key, white space, an opening bracket. *)
Definition token (key : jsstring) (opening : jschar) (m : jsstring) : Prop :=
  exists ws, forallb is_space ws = true /\ m = key ++ ws ++ [opening].

Definition occurs (P : jsstring -> Prop) (s : jsstring) : Prop :=
  exists b m a, P m /\ s = b ++ m ++ a.

(** [m] is the leftmost occurrence of [P] in [s], between [b] and [a]. *)
Definition first_occurrence (P : jsstring -> Prop) (s b m a : jsstring) : Prop :=
  s = b ++ m ++ a /\ P m /\
  forall b' m' a', P m' -> s = b' ++ m' ++ a' -> (length b <= length b')%nat.

Definition anchor (key : jsstring) (opening : jschar) : regex :=
  map Chr key ++ [SpaceStar] ++ [Chr opening].

Definition plugins_key : jsstring := lit "plugins:".

Definition quoted_plugins_key : jsstring := jsq "'plugins':".

Definition expo_key : jsstring := lit "expo:".

(** The outcome of the text patcher on a text without the name: the
    text to write, or nothing when no anchor occurs. *)
Inductive text_outcome (content : jsstring) (c : ColorSpace)
  : option jsstring -> Prop :=
| at_plugins b m a :
    first_occurrence (token plugins_key 91) content b m a ->
    text_outcome content c
      (Some (b ++ m ++ (nl ++ lit "      " ++ pluginEntry c ++ lit ",") ++ a))
| at_quoted_plugins b m a :
    ~ occurs (token plugins_key 91) content ->
    first_occurrence (token quoted_plugins_key 91) content b m a ->
    text_outcome content c
      (Some (b ++ m ++ (nl ++ lit "      " ++ pluginEntry c ++ lit ",") ++ a))
| at_expo b m a :
    ~ occurs (token plugins_key 91) content ->
    ~ occurs (token quoted_plugins_key 91) content ->
    first_occurrence (token expo_key 123) content b m a ->
    text_outcome content c
      (Some (b ++ m ++ (nl ++ lit "    plugins: [" ++ nl ++ lit "      "
                        ++ pluginEntry c ++ nl ++ lit "    ],") ++ a))
| no_anchor :
    ~ occurs (token plugins_key 91) content ->
    ~ occurs (token quoted_plugins_key 91) content ->
    ~ occurs (token expo_key 123) content ->
    text_outcome content c None.

(** *** Runs *)

Definition is_write (e : event) : bool :=
  match e with
  | Write _ _ => true
  | _ => false
  end.

(** No file is written during these events. *)
Definition no_write (evs : list event) : Prop :=
  forallb (fun e => negb (is_write e)) evs = true.

(** The colour space [c] is given by the option, or by the answer to
    the prompt. *)
Definition chosen (options : ApplyOptions) (w : world) (c : ColorSpace) : Prop :=
  colorSpace options = Some c
  \/ (colorSpace options = None
      /\ exists answer rest, stdin w = answer :: rest /\ c = choice answer).

(** The message of both patchers when the entry is detected. *)
Definition already_log (p : path) : event :=
  Log (check_mark ++ lit " Plugin is already configured in " ++ basename p).

Definition invalid_flag_log : event :=
  LogError (cross_mark ++ jsq " Invalid colorSpace. Use 'displayP3' or 'SRGB'").

(** The files that [detectConfigFile] can select. *)
Definition known_extension (p : path) : Prop :=
  (extname p = lit ".json" /\ basename p = lit "app.json")
  \/ extname p = lit ".js" \/ extname p = lit ".ts".

(** The claim C1 on two runs: when the first one ends normally after
    writing the file, the second one ends normally, changes no file,
    writes nothing and reports that the plugin is configured. *)
Definition second_run_is_silent (w : world) (o1 o2 : ApplyOptions) : Prop :=
  forall p w1 evs1 text1,
    config_file w = Some p ->
    apply o1 w = (Ret tt, w1) ->
    trace w1 = trace w ++ evs1 -> In (Write p text1) evs1 ->
    exists w2 evs2,
      apply o2 w1 = (Ret tt, w2)
      /\ files w2 = files w1
      /\ trace w2 = trace w1 ++ evs2
      /\ no_write evs2
      /\ In (already_log p) evs2.

(** The claim C9 on one run without a colour space: when the entry
    is there, the run reports it and ends normally, and no question
    is asked. *)
Definition prompt_skipped (w : world) : Prop :=
  forall p content,
    config_file w = Some p ->
    lookup p (files w) = Some content ->
    entry_present p content = true ->
    exists w' evs,
      apply noOptions w = (Ret tt, w')
      /\ trace w' = trace w ++ evs
      /\ In (already_log p) evs
      /\ forall query, ~ In (Question query) evs.


(* ================================================================= *)
(** ** Sample projects *)

(** Messages in the manner of Node. *)
Definition sample_diagnostics (f : failure) : jsstring :=
  match f with
  | Parsing _ => lit "Unexpected token in JSON"
  | Typing _ => lit "config.expo.plugins.push is not a function"
  | Reading p => lit "EISDIR: illegal operation on a directory, read"
  | Writing p => lit "EACCES: permission denied, open '" ++ dir p ++ lit "/"
                 ++ base p ++ lit "'"
  end.

(** A working directory with one file, no input and an empty trace. *)
Definition project (name : string) (content : jsstring) : world :=
  mkWorld (lit "/proj") [(mkPath (lit "/proj") (lit name), content)] []
          sample_diagnostics [] [].

(** The same with lines on the standard input. *)
Definition interactive (name : string) (content : jsstring)
    (answers : list jsstring) : world :=
  mkWorld (lit "/proj") [(mkPath (lit "/proj") (lit name), content)] []
          sample_diagnostics answers [].

Definition app_json : path := mkPath (lit "/proj") (lit "app.json").

Definition app_config_js : path := mkPath (lit "/proj") (lit "app.config.js").

Definition scenario_js : jsstring :=
  lit "module.exports = { expo: { plugins: [] } }".

Definition no_anchor_js : jsstring := lit "export default config;".

Definition scenario_json : jsstring := jsq "{'expo':{'name':'X'}}".

Definition scenario_json_written : jsstring :=
  join nl [lit "{";
           jsq "  'expo': {";
           jsq "    'name': 'X',";
           jsq "    'plugins': [";
           jsq "      [";
           jsq "        'expo-color-space-plugin',";
           jsq "        {";
           jsq "          'colorSpace': 'SRGB'";
           jsq "        }";
           jsq "      ]";
           jsq "    ]";
           jsq "  }";
           jsq "}";
           []].

Definition first_run_json : world :=
  snd (apply (mkOptions (Some SRGB) None) (project "app.json" scenario_json)).

Definition broken_json : jsstring := jsq "{'expo': {'name': 'X',}}".



Definition array_expo : jsstring := jsq "{'expo':[]}".

Definition configured_json : jsstring :=
  jsq "{'expo':{'plugins':['expo-color-space-plugin']}}".

(* ================================================================= *)
(** ** The vocabulary of the further properties *)

(** The probe of the candidate [file] in the directory [d]. *)
Definition probe_of (d : jsstring) (file : jsstring) : event :=
  Exists (path_join d file).

Definition is_question (e : event) : bool :=
  match e with
  | Question _ => true
  | _ => false
  end.

Definition is_log (e : event) : bool :=
  match e with
  | Log _ => true
  | _ => false
  end.

(** No question is asked during these events. *)
Definition no_question (evs : list event) : Prop :=
  forallb (fun e => negb (is_question e)) evs = true.

Definition flag_prefix : jsstring := lit "--colorSpace=".

(** What follows the value in the argument of the flag: nothing, or
    an equals sign and anything. *)
Definition cut_at_equals (tail : jsstring) : bool :=
  match tail with
  | [] => true
  | c :: _ => N.eqb c 61
  end.

(** The lines of [main] for a command that is not [apply]. *)
Definition usage_logs : list event :=
  [Log (lit "expo-color-space-plugin CLI" ++ nl);
   Log (lit "Usage:");
   Log (lit "  bunx expo-color-space-plugin apply [options]" ++ nl);
   Log (lit "Options:");
   Log (lit "  --colorSpace=<displayP3|SRGB>  Set color space without prompting" ++ nl);
   Log (lit "Example:");
   Log (lit "  bunx expo-color-space-plugin apply");
   Log (lit "  bunx expo-color-space-plugin apply --colorSpace=displayP3")].

(** What [JSON.stringify] writes of a value: the named properties of
    the arrays are left out. *)
Fixpoint json_view (v : value) : value :=
  match v with
  | VArr elems _ => VArr (map json_view elems) []
  | VObj props =>
      VObj (map (fun kv => let '(k, x) := kv in (k, json_view x)) props)
  | _ => v
  end.

(** The values that the program builds from those of [JSON.parse]: an
    array may hold named properties. *)
Fixpoint wf_tree (v : value) : bool :=
  match v with
  | VNull | VBool _ | VStr _ => true
  | VNum n => valid_number n
  | VArr elems props =>
      forallb wf_tree elems
      && forallb (fun kv => let '(_, x) := kv in wf_tree x) props
  | VObj props =>
      canonical (map fst props)
      && forallb (fun kv => let '(_, x) := kv in wf_tree x) props
  end.

(** The names of an object after the definition of a name that is not
    an array index. *)
Definition add_key (k : jsstring) (ks : list jsstring) : list jsstring :=
  if existsb (str_eqb k) ks then ks else ks ++ [k].

(** [null], a boolean, a number or a string. *)
Definition primitive (v : value) : bool :=
  match v with
  | VArr _ _ | VObj _ => false
  | _ => true
  end.

(** A directory without any file. *)
Definition empty_directory (answers : list jsstring) : world :=
  mkWorld (lit "/proj") [] [] sample_diagnostics answers [].

Definition commented_js : jsstring :=
  lit "// TODO: expo-color-space-plugin
module.exports = { expo: { plugins: [] } }".

Definition app_config_ts : path := mkPath (lit "/proj") (lit "app.config.ts").

(** A project with the three candidate files. *)
Definition three_configs : world :=
  mkWorld (lit "/proj")
          [(app_config_ts, scenario_js); (app_config_js, scenario_js);
           (app_json, scenario_json)] [] sample_diagnostics [] [].

(* ================================================================= *)
(** ** The vocabulary of the amended claims *)


(** What follows the name of an error in its text: nothing when the
    message is empty, else a colon, a space and the message. *)
Definition detail (m : jsstring) : jsstring :=
  match m with
  | [] => []
  | _ => lit ": " ++ m
  end.

(** The line of the manual instructions that holds the entry. *)
Definition guidance (c : ColorSpace) : event :=
  Log (lit "  " ++ jsq "['expo-color-space-plugin', { 'colorSpace': '"
       ++ text c ++ jsq "' }]").

(** No file is read during these events. *)
Definition no_read (evs : list event) : Prop :=
  forall q, ~ In (Read q) evs.

(** The claim C4 on one run of the text patcher: the bytes of the
    file before the run are, in their order, those of the file after
    the run on both sides of one fragment. *)
Definition bytes_kept (before after : list N) : Prop :=
  exists pre inserted post,
    before = pre ++ post /\ after = pre ++ inserted ++ post.

Definition byte_frame (w : world) (p : path) (c : ColorSpace) : Prop :=
  forall w' before,
    bytes_of w p = Some before ->
    modifyAppConfigJs p c w = (Ret true, w') ->
    exists after, bytes_of w' p = Some after /\ bytes_kept before after.

(** The claim C5 on one run: the run ends normally, writes nothing
    and prints the entry. *)
Definition degrades_gracefully (options : ApplyOptions) (w : world) : Prop :=
  exists w' evs c,
    apply options w = (Ret tt, w')
    /\ trace w' = trace w ++ evs
    /\ no_write evs
    /\ In (guidance c) evs.

(** The claim C6 on one run: the run ends with the exit code 1 after
    printing the error that wraps the parse failure, the files
    unchanged. *)
Definition parse_failure_reported (options : ApplyOptions) (w : world) : Prop :=
  exists w' evs m,
    apply options w = (Exit 1, w')
    /\ files w' = files w
    /\ trace w' = trace w ++ evs
    /\ In (LogError (cross_mark
                     ++ lit " Error: Failed to modify app.json: SyntaxError"
                     ++ detail m)) evs.

(** A file in Latin-1: the byte of the letter e with an acute accent
    is not UTF-8. *)
Definition latin1_js : list N := [47; 47; 32; 233; 10] ++ scenario_js.

Definition latin1_project : world :=
  mkWorld (lit "/proj") [] [(app_config_js, Raw latin1_js true true)]
          sample_diagnostics [] [].

(** A directory named as a configuration file. *)
Definition directory_project : world :=
  mkWorld (lit "/proj") [] [(app_config_js, Directory)]
          sample_diagnostics [] [].

Definition primitive_expo : jsstring := jsq "{'expo':'x'}".

(* ================================================================= *)
(** * Properties *)

(* ================================================================= *)
(** ** The embedding on small inputs *)

Example parse_document :
  JSON_parse (jsq "{ 'a': [1, true, null], 'b': { 'c': -2.5e3 } }")
  = Some (VObj [(lit "a", VArr [VNum (lit "1"); VBool true; VNull] []);
                (lit "b", VObj [(lit "c", VNum (lit "-2.5e3"))])]).
Proof. reflexivity. Qed.

Example parse_escapes :
  JSON_parse (jsq "'a\u0041\n\/'") = Some (VStr [97; 65; 10; 47]).
Proof. reflexivity. Qed.

Example parse_duplicate_key :
  JSON_parse (jsq "{'a':1,'b':2,'a':3}")
  = Some (VObj [(lit "a", VNum (lit "3")); (lit "b", VNum (lit "2"))]).
Proof. reflexivity. Qed.

Example parse_index_keys_first :
  JSON_parse (jsq "{'b':1,'10':2,'9':3}")
  = Some (VObj [(lit "9", VNum (lit "3")); (lit "10", VNum (lit "2"));
                (lit "b", VNum (lit "1"))]).
Proof. reflexivity. Qed.

Example parse_rejects :
  map JSON_parse
      [jsq ""; jsq "[1,]"; jsq "{'a':1,}"; jsq "01"; jsq "1."; jsq "nul";
       jsq "{'a' 1}"; jsq "[1 2]"; jsq "'a"; jsq "{} {}"; jsq "{a:1}"]
  = [None; None; None; None; None; None; None; None; None; None; None].
Proof. reflexivity. Qed.

Example stringify_layout :
  JSON_stringify (VObj [(lit "a", VArr [] []); (lit "b", VArr [VNull] [])]) 2
  = join nl [lit "{"; jsq "  'a': [],"; jsq "  'b': ["; lit "    null";
             lit "  ]"; lit "}"].
Proof. reflexivity. Qed.

Example stringify_drops_named_properties :
  JSON_stringify (VArr [] [(lit "expo", VObj [])]) 2 = lit "[]".
Proof. reflexivity. Qed.

Example search_plugins :
  search pluginsArrayRegex (lit "x = { plugins:  [a] }")
  = Some (lit "x = { ", lit "plugins:  [", lit "a] }").
Proof. reflexivity. Qed.

Example search_quoted_plugins :
  search pluginsArrayRegex (jsq "{ 'plugins': [] }") = None
  /\ search pluginsArrayJsonRegex (jsq "{ 'plugins': [] }")
     = Some (lit "{ ", jsq "'plugins': [", lit "] }").
Proof. split; reflexivity. Qed.

Example split_flag :
  split 61 (lit "--colorSpace=SRGB=x")
  = [lit "--colorSpace"; lit "SRGB"; lit "x"].
Proof. reflexivity. Qed.

Example answers :
  choice (lit " 2 ") = SRGB /\ choice (lit "") = displayP3
  /\ choice (lit "SRGB") = displayP3.
Proof. repeat split. Qed.

Example no_config_file :
  apply noOptions (mkWorld (lit "/proj") [] [] sample_diagnostics [] [])
  = (Exit 1,
     mkWorld (lit "/proj") [] [] sample_diagnostics []
       ([Exists (mkPath (lit "/proj") (lit "app.json"));
         Exists (mkPath (lit "/proj") (lit "app.config.js"));
         Exists (mkPath (lit "/proj") (lit "app.config.ts"))]
        ++ not_found_logs)).
Proof. reflexivity. Qed.

Example data_format_first :
  config_file
    (mkWorld (lit "/proj")
       [(mkPath (lit "/proj") (lit "app.config.ts"), []);
        (mkPath (lit "/proj") (lit "app.json"), [])] [] sample_diagnostics
       [] [])
  = Some app_json.
Proof. reflexivity. Qed.

(* ================================================================= *)
(** ** Strings and regular expressions *)

Lemma str_eqb_spec (a b : jsstring) : reflect (a = b) (str_eqb a b).
Proof.
  revert b; induction a as [|x a IH]; intros [|y b]; simpl;
    try (constructor; congruence).
  destruct (N.eqb_spec x y) as [->|Hn]; simpl.
  - destruct (IH b) as [->|Hn]; constructor; congruence.
  - constructor; congruence.
Qed.

Lemma str_eqb_refl (a : jsstring) : str_eqb a a = true.
Proof. destruct (str_eqb_spec a a); congruence. Qed.

Lemma str_eqb_eq (a b : jsstring) : str_eqb a b = true <-> a = b.
Proof. destruct (str_eqb_spec a b); split; congruence. Qed.

Lemma str_eqb_neq (a b : jsstring) : str_eqb a b = false <-> a <> b.
Proof. destruct (str_eqb_spec a b); split; congruence. Qed.

Lemma startsWith_app (s p : jsstring) :
  startsWith s p = true <-> exists r, s = p ++ r.
Proof.
  revert s; induction p as [|x p IH]; intros s; simpl.
  - split; [intros _; now exists s | reflexivity].
  - destruct s as [|y s].
    + split; [discriminate | intros [r Hr]; discriminate].
    + rewrite andb_true_iff, N.eqb_eq, IH. split.
      * intros [-> [r ->]]. now exists r.
      * intros [r Hr]. injection Hr as -> ->. eauto.
Qed.

Lemma includes_app (s sub : jsstring) :
  includes s sub = true <-> exists a b, s = a ++ sub ++ b.
Proof.
  induction s as [|c s IH]; simpl; rewrite orb_true_iff, startsWith_app.
  - split.
    + intros [[r Hr]|H]; [|discriminate]. exists [], r. exact Hr.
    + intros (a & b & H). left.
      destruct a; simpl in H; [eauto|discriminate].
  - rewrite IH. split.
    + intros [[r Hr]|(a & b & ->)].
      * exists [], r. exact Hr.
      * exists (c :: a), b. reflexivity.
    + intros ([|x a] & b & H); simpl in H.
      * left. eauto.
      * right. injection H as _ ->. eauto.
Qed.

Lemma space_star_sound (p : regex) (k : jsstring -> option (jsstring * jsstring)) :
  (forall s m rest, k s = Some (m, rest) -> s = m ++ rest /\ matches p m) ->
  forall s m rest, space_star k s = Some (m, rest) ->
    s = m ++ rest /\ matches (SpaceStar :: p) m.
Proof.
  intros Hk s. induction s as [|x r IHs]; intros m rest H; simpl in H.
  - apply Hk in H as [-> Hm]. split; [reflexivity|]. now apply (m_star []).
  - destruct (is_space x) eqn:Hx.
    + destruct (space_star k r) as [[m' rest']|] eqn:E.
      * injection H as <- <-. destruct (IHs _ _ eq_refl) as [-> Hm].
        split; [reflexivity|].
        inversion Hm as [| |ws p' m0 Hws Hm0]; subst.
        apply (m_star (x :: ws)); [simpl; now rewrite Hx|assumption].
      * apply Hk in H as [-> Hm]. split; [reflexivity|]. now apply (m_star []).
    + apply Hk in H as [-> Hm]. split; [reflexivity|]. now apply (m_star []).
Qed.

Lemma match_here_sound (p : regex) :
  forall s m rest, match_here p s = Some (m, rest) ->
    s = m ++ rest /\ matches p m.
Proof.
  induction p as [|[c|] p IH]; intros s m rest H.
  - simpl in H. injection H as <- <-. split; [reflexivity|constructor].
  - simpl in H. destruct s as [|x r]; [discriminate|].
    destruct (N.eqb_spec x c) as [->|]; [|discriminate].
    destruct (match_here p r) as [[m' rest']|] eqn:E; [|discriminate].
    injection H as <- <-. apply IH in E as [-> Hm].
    split; [reflexivity|now constructor].
  - simpl in H. exact (@space_star_sound p (match_here p) IH _ _ _ H).
Qed.

Lemma space_star_complete (k : jsstring -> option (jsstring * jsstring)) :
  forall ws s, forallb is_space ws = true -> k s <> None ->
    space_star k (ws ++ s) <> None.
Proof.
  induction ws as [|x ws IHw]; intros s Hws Hk; simpl.
  - destruct s as [|y s]; simpl; [exact Hk|].
    destruct (is_space y); [|exact Hk].
    destruct (space_star k s) as [[? ?]|]; [discriminate|exact Hk].
  - simpl in Hws. apply andb_true_iff in Hws as [Hx Hws]. rewrite Hx.
    specialize (IHw s Hws Hk).
    destruct (space_star k (ws ++ s)) as [[? ?]|]; [discriminate|contradiction].
Qed.

Lemma match_here_complete (p : regex) :
  forall m rest, matches p m -> match_here p (m ++ rest) <> None.
Proof.
  induction p as [|[c|] p IH]; intros m rest Hm;
    inversion Hm as [|c' p' m0 Hm0|ws p' m0 Hws Hm0]; subst.
  - discriminate.
  - simpl. rewrite N.eqb_refl.
    specialize (IH _ rest Hm0).
    destruct (match_here p (m0 ++ rest)) as [[? ?]|]; congruence.
  - simpl. rewrite <- app_assoc.
    apply space_star_complete; [assumption|]. now apply IH.
Qed.

Lemma search_sound (p : regex) (s : jsstring) :
  forall b m a, search p s = Some (b, m, a) ->
    s = b ++ m ++ a /\ matches p m.
Proof.
  induction s as [|c s IH]; intros b m a H; simpl in H.
  - destruct (match_here p []) as [[m' r]|] eqn:E; [|discriminate].
    injection H as <- <- <-. now apply match_here_sound in E.
  - destruct (match_here p (c :: s)) as [[m' r]|] eqn:E.
    + injection H as <- <- <-. now apply match_here_sound in E.
    + destruct (search p s) as [[[b' m'] a']|] eqn:E'; [|discriminate].
      injection H as <- <- <-. destruct (IH _ _ _ eq_refl) as [-> Hm]. now split.
Qed.

Lemma search_complete (p : regex) (s : jsstring) :
  search p s = None ->
  forall b m a, matches p m -> s <> b ++ m ++ a.
Proof.
  induction s as [|c s IH]; intros H b m a Hm Heq; simpl in H.
  - destruct (match_here p []) as [[m' r]|] eqn:E; [discriminate|].
    destruct b; [|discriminate]. simpl in Heq.
    apply (@match_here_complete p m a Hm). now rewrite <- Heq.
  - destruct (match_here p (c :: s)) as [[m' r]|] eqn:E; [discriminate|].
    destruct (search p s) as [[[b' m'] a']|] eqn:E'; [discriminate|].
    destruct b as [|x b]; simpl in Heq.
    + apply (@match_here_complete p m a Hm). now rewrite <- Heq.
    + injection Heq as _ Heq. exact (IH eq_refl b m a Hm Heq).
Qed.

(** The match found is the leftmost one: no match starts earlier. *)
Lemma search_leftmost (p : regex) (s : jsstring) :
  forall b m a, search p s = Some (b, m, a) ->
  forall b' m' a', matches p m' -> s = b' ++ m' ++ a' ->
    (length b <= length b')%nat.
Proof.
  induction s as [|c s IH]; intros b m a H b' m' a' Hm' Heq; simpl in H.
  - destruct (match_here p []) as [[m0 r]|] eqn:E; [|discriminate].
    injection H as <- <- <-. simpl. lia.
  - destruct (match_here p (c :: s)) as [[m0 r]|] eqn:E.
    + injection H as <- <- <-. simpl. lia.
    + destruct (search p s) as [[[b0 m0] a0]|] eqn:E'; [|discriminate].
      injection H as <- <- <-.
      destruct b' as [|x b']; simpl in Heq.
      * exfalso. apply (@match_here_complete p m' a' Hm'). now rewrite <- Heq.
      * injection Heq as _ Heq. simpl.
        specialize (IH _ _ _ eq_refl _ _ _ Hm' Heq). lia.
Qed.

(* ================================================================= *)
(** ** Objects in enumeration order *)

Lemma str_eqb_sym (a b : jsstring) : str_eqb a b = str_eqb b a.
Proof.
  destruct (str_eqb_spec a b) as [->|H].
  - now rewrite str_eqb_refl.
  - symmetry. apply str_eqb_neq. congruence.
Qed.

Lemma keys_define_forallb (P : jsstring -> bool) k v l :
  P k = true -> forallb P (keys l) = true ->
  forallb P (keys (obj_define k v l)) = true.
Proof.
  intros Hk. induction l as [|[k' v'] t IH]; simpl; intros H.
  - now rewrite Hk.
  - apply andb_true_iff in H as [H1 H2].
    destruct (str_eqb k k'); simpl.
    + now rewrite Hk, H2.
    + destruct (goes_before k k'); simpl.
      * now rewrite Hk, H1, H2.
      * now rewrite H1, IH.
Qed.

Lemma goes_before_trans_follow k k' x :
  goes_before k k' = true -> may_follow k' x = true -> may_follow k x = true.
Proof.
  unfold may_follow, goes_before.
  intros H1 H2. apply andb_true_iff in H2 as [Hne Hgb].
  apply negb_true_iff in Hne, Hgb.
  destruct (array_index k) as [i|] eqn:Ei; [|discriminate].
  destruct (array_index x) as [m|] eqn:Em.
  - destruct (array_index k') as [j|] eqn:Ej; [|discriminate].
    apply N.ltb_lt in H1. apply N.ltb_ge in Hgb.
    apply andb_true_iff; split; apply negb_true_iff.
    + apply str_eqb_neq. intros ->. rewrite Ei in Em. injection Em as ->. lia.
    + apply N.ltb_ge. lia.
  - apply andb_true_iff; split; apply negb_true_iff; [|reflexivity].
    apply str_eqb_neq. intros ->. congruence.
Qed.

Lemma define_canonical k v l :
  canonical (keys l) = true -> canonical (keys (obj_define k v l)) = true.
Proof.
  induction l as [|[k' v'] t IH]; simpl; intros H; [reflexivity|].
  apply andb_true_iff in H as [H1 H2].
  destruct (str_eqb_spec k k') as [->|Hne]; simpl.
  - now rewrite H1, H2.
  - destruct (goes_before k k') eqn:Hgb; simpl.
    + rewrite H1, H2, !andb_true_r.
      apply andb_true_iff; split.
      * unfold may_follow. apply andb_true_iff; split; apply negb_true_iff.
        -- now apply str_eqb_neq.
        -- unfold goes_before in *.
           destruct (array_index k) as [i|]; [|discriminate].
           destruct (array_index k') as [j|]; [|reflexivity].
           apply N.ltb_lt in Hgb. apply N.ltb_ge. lia.
      * apply forallb_forall. intros x Hx.
        apply (goes_before_trans_follow k k' x Hgb).
        rewrite forallb_forall in H1. now apply H1.
    + rewrite IH by assumption. rewrite andb_true_r.
      apply keys_define_forallb; [|assumption].
      unfold may_follow. rewrite Hgb. simpl. rewrite andb_true_r.
      apply negb_true_iff, str_eqb_neq. congruence.
Qed.

Lemma define_append k v l :
  canonical (keys (l ++ [(k, v)])) = true ->
  obj_define k v l = l ++ [(k, v)].
Proof.
  induction l as [|[k' v'] t IH]; simpl; intros H; [reflexivity|].
  apply andb_true_iff in H as [H1 H2].
  unfold keys in H1. rewrite map_app, forallb_app in H1. simpl in H1.
  apply andb_true_iff in H1 as [_ H1]. rewrite andb_true_r in H1.
  unfold may_follow in H1. apply andb_true_iff in H1 as [Hne Hgb].
  apply negb_true_iff in Hne, Hgb.
  rewrite str_eqb_sym, Hne, Hgb. f_equal. now apply IH.
Qed.

Lemma canonical_app_l (a b : list jsstring) :
  canonical (a ++ b) = true -> canonical a = true.
Proof.
  induction a as [|k a IH]; simpl; [reflexivity|].
  rewrite forallb_app. intros H.
  apply andb_true_iff in H as [H1 H2]. apply andb_true_iff in H1 as [H1 _].
  now rewrite H1, IH.
Qed.

(** Defining the properties one after the other, as the parser does,
    rebuilds an object whose names are in enumeration order. *)
Lemma define_all (l : properties) :
  canonical (keys l) = true ->
  fold_left (fun acc kv => obj_define (fst kv) (snd kv) acc) l [] = l.
Proof.
  induction l as [|[k v] l IH] using rev_ind; intros H; [reflexivity|].
  rewrite fold_left_app. simpl.
  rewrite IH.
  - now apply define_append.
  - unfold keys in *. rewrite map_app in H. now apply canonical_app_l in H.
Qed.

Lemma obj_get_define_same k v l : obj_get k (obj_define k v l) = Some v.
Proof.
  induction l as [|[k' v'] t IH]; simpl.
  - now rewrite str_eqb_refl.
  - destruct (str_eqb k k') eqn:E; simpl.
    + now rewrite str_eqb_refl.
    + destruct (goes_before k k'); simpl.
      * now rewrite str_eqb_refl.
      * now rewrite E.
Qed.

Lemma obj_get_define_other k k0 v l :
  k0 <> k -> obj_get k0 (obj_define k v l) = obj_get k0 l.
Proof.
  intros Hne. apply str_eqb_neq in Hne.
  induction l as [|[k' v'] t IH]; simpl.
  - now rewrite Hne.
  - destruct (str_eqb_spec k k') as [->|Hk]; simpl.
    + now rewrite Hne.
    + destruct (goes_before k k'); simpl.
      * now rewrite Hne.
      * now rewrite IH.
Qed.

(* ================================================================= *)
(** ** Reading back what [JSON.stringify] wrote *)

Lemma run_ws (st : pstate) (K : list frame) (ws r : jsstring) :
  skips st = true -> forallb is_json_ws ws = true ->
  run (st, K) (ws ++ r) = run (st, K) r.
Proof.
  intros Hst. induction ws as [|c ws IH]; intros H; [reflexivity|].
  cbn [forallb] in H. apply andb_true_iff in H as [Hc Hws].
  assert (Hs : step (st, K) c = Some (st, K)).
  { destruct st; try discriminate; simpl; now rewrite Hc. }
  cbn [app run]. rewrite Hs. now apply IH.
Qed.

Lemma step_deliver (v : value) (K : list frame) (c : jschar) :
  step (deliver v K) c =
  let '(st, K') := deliver v K in step_token st K' c.
Proof. destruct K as [|[done|done k] K]; reflexivity. Qed.

(** *** Strings *)

Lemma hex_val_digit (d : N) : d < 16 -> hex_val (hex_digit d) = Some d.
Proof.
  intros H.
  assert (Hd : d = 0 \/ d = 1 \/ d = 2 \/ d = 3 \/ d = 4 \/ d = 5 \/ d = 6
               \/ d = 7 \/ d = 8 \/ d = 9 \/ d = 10 \/ d = 11 \/ d = 12
               \/ d = 13 \/ d = 14 \/ d = 15) by lia.
  repeat (destruct Hd as [->|Hd]; [reflexivity|]). now subst.
Qed.

Lemma hex4_value (c : N) :
  c < 65536 ->
  (((0 * 16 + (c / 4096) mod 16) * 16 + (c / 256) mod 16) * 16
   + (c / 16) mod 16) * 16 + c mod 16 = c.
Proof.
  intros H.
  replace (c / 4096) with (c / 16 / 16 / 16) by (now rewrite !N.Div0.div_div).
  replace (c / 256) with (c / 16 / 16) by (now rewrite !N.Div0.div_div).
  pose proof (N.Div0.div_mod c 16) as E0.
  pose proof (N.Div0.div_mod (c / 16) 16) as E1.
  pose proof (N.Div0.div_mod (c / 16 / 16) 16) as E2.
  pose proof (N.Div0.div_mod (c / 16 / 16 / 16) 16) as E3.
  pose proof (N.mod_lt c 16) as L0.
  pose proof (N.mod_lt (c / 16) 16) as L1.
  pose proof (N.mod_lt (c / 16 / 16) 16) as L2.
  pose proof (N.mod_lt (c / 16 / 16 / 16) 16) as L3.
  generalize dependent (c / 16 / 16 / 16 / 16).
  generalize dependent ((c / 16 / 16 / 16) mod 16).
  generalize dependent (c / 16 / 16 / 16).
  generalize dependent ((c / 16 / 16) mod 16).
  generalize dependent (c / 16 / 16).
  generalize dependent ((c / 16) mod 16).
  generalize dependent (c / 16).
  generalize dependent (c mod 16).
  intros. lia.
Qed.

Lemma run_hex4 (fk : bool) (acc : jsstring) (K : list frame)
    (h3 h2 h1 h0 : jschar) (d3 d2 d1 d0 : N) (r : jsstring) :
  hex_val h3 = Some d3 -> hex_val h2 = Some d2 ->
  hex_val h1 = Some d1 -> hex_val h0 = Some d0 ->
  run (PStr fk acc, K) (92 :: 117 :: h3 :: h2 :: h1 :: h0 :: r) =
  run (PStr fk ((((0 * 16 + d3) * 16 + d2) * 16 + d1) * 16 + d0 :: acc), K) r.
Proof.
  intros E3 E2 E1 E0. cbn [run].
  change (step (PStr fk acc, K) 92) with (Some (PEsc fk acc, K)). cbv iota.
  change (step (PEsc fk acc, K) 117) with (Some (PUni fk acc 3 0, K)). cbv iota.
  cbn [step step_token]. rewrite E3. cbn [step step_token]. rewrite E2.
  cbn [step step_token]. rewrite E1. cbn [step step_token]. now rewrite E0.
Qed.

Lemma run_unicode_escape (fk : bool) (acc : jsstring) (K : list frame)
    (c : jschar) (r : jsstring) :
  c < 65536 ->
  run (PStr fk acc, K) (unicode_escape c ++ r) = run (PStr fk (c :: acc), K) r.
Proof.
  intros H. unfold unicode_escape. cbn [app].
  rewrite (run_hex4 fk acc K _ _ _ _ _ _ _ _ r
             (hex_val_digit _ (N.mod_lt _ 16 ltac:(lia)))
             (hex_val_digit _ (N.mod_lt _ 16 ltac:(lia)))
             (hex_val_digit _ (N.mod_lt _ 16 ltac:(lia)))
             (hex_val_digit _ (N.mod_lt _ 16 ltac:(lia)))).
  now rewrite hex4_value.
Qed.

Lemma run_plain_char (fk : bool) (acc : jsstring) (K : list frame)
    (c : jschar) (r : jsstring) :
  c <> 34 -> c <> 92 -> 32 <= c ->
  run (PStr fk acc, K) (c :: r) = run (PStr fk (c :: acc), K) r.
Proof.
  intros H1 H2 H3. cbn [run step step_token].
  apply N.eqb_neq in H1, H2. rewrite H1, H2.
  now replace (c <? 32) with false by (symmetry; apply N.ltb_ge; lia).
Qed.

Lemma run_quote_unit (fk : bool) (acc : jsstring) (K : list frame)
    (c : jschar) (r : jsstring) :
  run (PStr fk acc, K) (quote_unit c ++ r) = run (PStr fk (c :: acc), K) r.
Proof.
  unfold quote_unit.
  destruct (N.eqb_spec c 8) as [->|H8]; [reflexivity|].
  destruct (N.eqb_spec c 9) as [->|H9]; [reflexivity|].
  destruct (N.eqb_spec c 10) as [->|H10]; [reflexivity|].
  destruct (N.eqb_spec c 12) as [->|H12]; [reflexivity|].
  destruct (N.eqb_spec c 13) as [->|H13]; [reflexivity|].
  destruct (N.eqb_spec c 34) as [->|H34]; [reflexivity|].
  destruct (N.eqb_spec c 92) as [->|H92]; [reflexivity|].
  destruct (N.ltb_spec c 32) as [Hlt|Hge]; simpl orb.
  - apply run_unicode_escape. lia.
  - unfold is_high_surrogate, is_low_surrogate.
    destruct (N.leb_spec 55296 c), (N.leb_spec c 56319),
      (N.leb_spec 56320 c), (N.leb_spec c 57343); simpl;
      try (apply run_unicode_escape; lia);
      try (now apply run_plain_char); lia.
Qed.

Lemma run_quote_body (fk : bool) (K : list frame) (r : jsstring) (n : nat) :
  forall s acc, (length s <= n)%nat ->
    run (PStr fk acc, K) (quote_body s ++ r) = run (PStr fk (rev s ++ acc), K) r.
Proof.
  induction n as [|n IH]; intros s acc Hn.
  - destruct s; [reflexivity|simpl in Hn; lia].
  - destruct s as [|c s]; [reflexivity|]. simpl in Hn.
    cbn [quote_body rev]. rewrite <- app_assoc. cbn [app].
    destruct (is_high_surrogate c) eqn:Hc.
    + unfold is_high_surrogate in Hc. apply andb_true_iff in Hc as [Hc1 Hc2].
      apply N.leb_le in Hc1, Hc2.
      destruct s as [|d s].
      * cbn [rev app]. apply run_unicode_escape. lia.
      * destruct (is_low_surrogate d) eqn:Hd.
        -- unfold is_low_surrogate in Hd. apply andb_true_iff in Hd as [Hd1 Hd2].
           apply N.leb_le in Hd1, Hd2. cbn [app rev].
           rewrite run_plain_char by lia. rewrite run_plain_char by lia.
           rewrite IH by (simpl in Hn; lia).
           now rewrite <- !app_assoc.
        -- rewrite <- app_assoc, run_unicode_escape by lia.
           now rewrite IH by lia.
    + rewrite <- app_assoc, run_quote_unit. now rewrite IH by lia.
Qed.

Lemma run_quote (fk : bool) (K : list frame) (s r : jsstring) :
  run (PStr fk [], K) (quote_body s ++ dq ++ r) =
  match end_string fk s K with Some cf => run cf r | None => None end.
Proof.
  rewrite (run_quote_body fk K (dq ++ r) (length s) s []) by lia.
  rewrite app_nil_r. cbn [dq app run step step_token].
  change (N.eqb 34 34) with true. cbv iota. now rewrite rev_involutive.
Qed.

(** *** Numbers *)

Lemma is_digit_cases (c : jschar) :
  is_digit c = true ->
  c = 48 \/ c = 49 \/ c = 50 \/ c = 51 \/ c = 52 \/ c = 53 \/ c = 54
  \/ c = 55 \/ c = 56 \/ c = 57.
Proof.
  unfold is_digit. intros H. apply andb_true_iff in H as [H1 H2].
  apply N.leb_le in H1, H2. lia.
Qed.

Lemma digit_num_char (c : jschar) : is_digit c = true -> is_num_char c = true.
Proof. intros H. unfold is_num_char. now rewrite H. Qed.

Lemma drop_digits_num_chars (s : jsstring) :
  forallb is_num_char (drop_digits s) = true -> forallb is_num_char s = true.
Proof.
  induction s as [|c s IH]; simpl; [reflexivity|].
  destruct (is_digit c) eqn:Hc; [|exact (fun H => H)].
  intros H. now rewrite (digit_num_char c Hc), IH.
Qed.

Lemma valid_exp_num_chars (s : jsstring) :
  valid_exp s = true -> forallb is_num_char s = true.
Proof.
  destruct s as [|e r]; [reflexivity|]. simpl. intros H.
  apply andb_true_iff in H as [He H].
  assert (Hd : forall t, match t with
                         | d :: t' => is_digit d && match drop_digits t' with
                                                    | [] => true | _ => false end
                         | [] => false
                         end = true -> forallb is_num_char t = true).
  { intros [|d t']; [discriminate|]. intros H'.
    apply andb_true_iff in H' as [H1 H2]. simpl.
    rewrite (digit_num_char d H1). apply drop_digits_num_chars.
    now destruct (drop_digits t'). }
  apply andb_true_iff; split.
  - unfold is_num_char. apply orb_true_iff in He as [->| ->];
      now rewrite ?orb_true_r.
  - destruct r as [|c t]; [discriminate|].
    destruct (N.eqb c 43 || N.eqb c 45) eqn:Hs.
    + simpl. rewrite (Hd _ H), andb_true_r. unfold is_num_char.
      apply orb_true_iff in Hs as [->| ->]; now rewrite ?orb_true_r.
    + now apply Hd.
Qed.

Lemma valid_frac_num_chars (s : jsstring) :
  valid_frac s = true -> forallb is_num_char s = true.
Proof.
  destruct s as [|c r]; [reflexivity|]. unfold valid_frac.
  destruct (N.eqb_spec c 46) as [->|Hc]; [|apply valid_exp_num_chars].
  destruct r as [|d t]; [discriminate|]. intros H.
  apply andb_true_iff in H as [H1 H2]. simpl.
  rewrite (digit_num_char d H1). simpl.
  apply drop_digits_num_chars. now apply valid_exp_num_chars.
Qed.

Lemma valid_number_shape (n : jsstring) :
  valid_number n = true ->
  exists c r, n = c :: r /\ (c = 45 \/ is_digit c = true)
              /\ forallb is_num_char r = true.
Proof.
  assert (Hu : forall d r,
             (if N.eqb d 48 then valid_frac r
              else if is_digit d then valid_frac (drop_digits r) else false) = true ->
             is_digit d = true /\ forallb is_num_char r = true).
  { intros d r H. destruct (N.eqb_spec d 48) as [->|Hd].
    - split; [reflexivity|now apply valid_frac_num_chars].
    - destruct (is_digit d); [|discriminate]. split; [reflexivity|].
      apply drop_digits_num_chars. now apply valid_frac_num_chars. }
  unfold valid_number. destruct n as [|c r]; [discriminate|].
  destruct (N.eqb_spec c 45) as [->|Hc].
  - destruct r as [|d r]; [discriminate|]. intros H.
    apply Hu in H as [H1 H2]. exists 45, (d :: r). split; [reflexivity|].
    split; [now left|]. simpl. now rewrite (digit_num_char d H1), H2.
  - intros H. apply Hu in H as [H1 H2]. exists c, r. auto.
Qed.

Lemma run_num_chars (K : list frame) (m r : jsstring) :
  forallb is_num_char m = true ->
  forall acc, run (PNum acc, K) (m ++ r) = run (PNum (rev m ++ acc), K) r.
Proof.
  induction m as [|c m IH]; simpl; intros H acc; [reflexivity|].
  apply andb_true_iff in H as [Hc Hm]. rewrite Hc, IH by assumption.
  now rewrite <- app_assoc.
Qed.

Lemma start_number (K : list frame) (c : jschar) :
  c = 45 \/ is_digit c = true -> step (PValue, K) c = Some (PNum [c], K).
Proof.
  intros [->|H]; [reflexivity|].
  apply is_digit_cases in H.
  repeat (destruct H as [->|H]; [reflexivity|]). now subst.
Qed.

Lemma run_number (K : list frame) (n rest : jsstring) :
  valid_number n = true -> delimited rest = true ->
  run (PValue, K) (n ++ rest) = run (deliver (VNum n) K) rest.
Proof.
  intros Hv Hd. destruct (valid_number_shape n Hv) as (c & r & -> & Hc & Hr).
  cbn [app run]. rewrite (start_number K c Hc).
  rewrite run_num_chars by assumption.
  destruct rest as [|d rest]; [discriminate|]. simpl in Hd.
  apply negb_true_iff in Hd.
  cbn [run step]. rewrite Hd.
  rewrite rev_app_distr, rev_involutive. cbn [rev app].
  rewrite Hv. now rewrite step_deliver.
Qed.

(** *** Values *)

Lemma run_arr_open (gap indent : jsstring) (v : value) (K : list frame)
    (rest : jsstring) :
  wf v = true ->
  run (PArrOpen, K) (serialize gap indent v ++ rest) =
  run (PValue, K) (serialize gap indent v ++ rest).
Proof.
  intros Hwf. destruct v as [|[|]|n|s|elems props|props]; try reflexivity.
  - simpl in Hwf. destruct (valid_number_shape n Hwf) as (c & r & -> & [->|Hc] & _);
      [reflexivity|].
    apply is_digit_cases in Hc. simpl serialize.
    repeat (destruct Hc as [->|Hc]; [reflexivity|]). now subst.
  - simpl serialize. unfold wrap.
    destruct (map (serialize gap (indent ++ gap)) elems); [reflexivity|].
    destruct gap; reflexivity.
  - simpl serialize. unfold wrap.
    match goal with |- context [match ?l with [] => _ | _ :: _ => _ end] =>
      destruct l end; [reflexivity|].
    destruct gap; reflexivity.
Qed.

Lemma join_cons2 (sep x y : jsstring) (r : list jsstring) :
  join sep (x :: y :: r) = x ++ sep ++ join sep (y :: r).
Proof. reflexivity. Qed.

Lemma run_comma_arr (done : list value) (K : list frame) (s : jsstring) :
  run (PAfter, FArr done :: K) (lit "," ++ s) = run (PValue, FArr done :: K) s.
Proof. reflexivity. Qed.

Lemma run_comma_obj (done : properties) (k : jsstring) (K : list frame)
    (s : jsstring) :
  run (PAfter, FObj done k :: K) (lit "," ++ s) = run (PKey, FObj done k :: K) s.
Proof. reflexivity. Qed.

Lemma run_close_arr (done : list value) (K : list frame) (s : jsstring) :
  run (PAfter, FArr done :: K) (93 :: s) = run (deliver (VArr (rev done) []) K) s.
Proof. reflexivity. Qed.

Lemma run_close_obj (done : properties) (k : jsstring) (K : list frame)
    (s : jsstring) :
  run (PAfter, FObj done k :: K) (125 :: s) = run (deliver (VObj done) K) s.
Proof. reflexivity. Qed.

Lemma run_open_quote (st : pstate) (K : list frame) (s : jsstring) :
  st = PObjOpen \/ st = PKey ->
  run (st, K) (dq ++ s) = run (PStr true [], K) s.
Proof. intros [->| ->]; reflexivity. Qed.

Section read_back.
Variables (g : jschar) (gap' : jsstring).
Let gap : jsstring := g :: gap'.
Hypothesis gap_ws : forallb is_json_ws gap = true.

Lemma run_indent (st : pstate) (K : list frame) (indent s : jsstring) :
  skips st = true -> forallb is_json_ws indent = true ->
  run (st, K) (nl ++ indent ++ gap ++ s) = run (st, K) s.
Proof.
  intros Hst H.
  rewrite (app_assoc indent), (app_assoc nl).
  apply run_ws; [assumption|].
  rewrite !forallb_app, H, gap_ws. reflexivity.
Qed.

Lemma run_stepback (st : pstate) (K : list frame) (indent s : jsstring) :
  skips st = true -> forallb is_json_ws indent = true ->
  run (st, K) (nl ++ indent ++ s) = run (st, K) s.
Proof.
  intros Hst H. rewrite (app_assoc nl).
  apply run_ws; [assumption|]. rewrite forallb_app, H. reflexivity.
Qed.

Lemma wrap_cons (stepback indent : jsstring) (open close : jschar)
    (p : jsstring) (ps : list jsstring) (rest : jsstring) :
  wrap gap stepback indent open close (p :: ps) ++ rest =
  open :: nl ++ indent
    ++ join (lit "," ++ nl ++ indent) (p :: ps)
    ++ nl ++ stepback ++ close :: rest.
Proof.
  unfold wrap, gap. rewrite <- !app_assoc. reflexivity.
Qed.

Lemma run_colon (K : list frame) (s : jsstring) :
  run (PColon, K) (colon gap ++ s) = run (PValue, K) s.
Proof. reflexivity. Qed.

Lemma elems_read_back (indent : jsstring) (K : list frame) (rest : jsstring)
    (elems : list value) :
  Forall (fun x => wf x = true -> reads_back gap x) elems ->
  forallb wf elems = true -> elems <> [] ->
  forallb is_json_ws indent = true ->
  forall done,
    run (PValue, FArr done :: K)
        (join (lit "," ++ nl ++ indent ++ gap)
              (map (serialize gap (indent ++ gap)) elems)
         ++ nl ++ indent ++ 93 :: rest)
    = run (deliver (VArr (rev done ++ elems) []) K) rest.
Proof.
  intros HF Hwf Hne Hind.
  assert (Hind' : forallb is_json_ws (indent ++ gap) = true)
    by (rewrite forallb_app, Hind; exact gap_ws).
  induction elems as [|x elems IH]; [contradiction|]. intros done.
  inversion HF as [|? ? Hx HF']; subst.
  cbn [forallb] in Hwf. apply andb_true_iff in Hwf as [Hwx Hwf].
  specialize (Hx Hwx).
  destruct elems as [|y elems].
  - cbn [map join].
    rewrite Hx by (assumption || reflexivity).
    cbn [deliver].
    rewrite run_stepback by (assumption || reflexivity).
    rewrite run_close_arr. reflexivity.
  - cbn [map]. rewrite join_cons2, <- !app_assoc.
    rewrite Hx by (assumption || reflexivity).
    cbn [deliver]. rewrite run_comma_arr.
    rewrite run_indent by (assumption || reflexivity).
    specialize (IH HF' Hwf ltac:(discriminate) (x :: done)).
    cbn [map] in IH. rewrite IH. cbn [rev]. now rewrite <- app_assoc.
Qed.

Lemma member_read_back (indent : jsstring) (K : list frame) (rest : jsstring)
    (st : pstate) (done : properties) (k0 k : jsstring) (x : value) :
  st = PObjOpen \/ st = PKey ->
  reads_back gap x -> forallb is_json_ws indent = true -> delimited rest = true ->
  run (st, FObj done k0 :: K)
      (quote k ++ colon gap ++ serialize gap indent x ++ rest)
  = run (PAfter, FObj (obj_define k x done) k :: K) rest.
Proof.
  intros Hst Hx Hind Hd. unfold quote. rewrite <- !app_assoc.
  rewrite run_open_quote by assumption.
  rewrite run_quote. cbn [end_string].
  rewrite run_colon. now rewrite Hx.
Qed.

Lemma members_read_back (indent : jsstring) (K : list frame) (rest : jsstring)
    (props : properties) :
  Forall (fun kv => wf (snd kv) = true -> reads_back gap (snd kv)) props ->
  forallb (fun kv => let '(_, x) := kv in wf x) props = true ->
  props <> [] -> forallb is_json_ws indent = true ->
  forall st done k0, st = PObjOpen \/ st = PKey ->
    run (st, FObj done k0 :: K)
        (join (lit "," ++ nl ++ indent ++ gap)
              (map (fun kv => let '(k, x) := kv in
                              quote k ++ colon gap
                              ++ serialize gap (indent ++ gap) x) props)
         ++ nl ++ indent ++ 125 :: rest)
    = run (deliver
             (VObj (fold_left (fun acc kv => obj_define (fst kv) (snd kv) acc)
                              props done)) K) rest.
Proof.
  intros HF Hwf Hne Hind.
  assert (Hind' : forallb is_json_ws (indent ++ gap) = true)
    by (rewrite forallb_app, Hind; exact gap_ws).
  induction props as [|[k x] props IH]; [contradiction|].
  intros st done k0 Hst.
  inversion HF as [|? ? Hx HF']; subst.
  cbn [forallb] in Hwf. apply andb_true_iff in Hwf as [Hwx Hwf].
  cbn [snd] in Hx. specialize (Hx Hwx).
  destruct props as [|[k' y] props].
  - cbn [map join fold_left fst snd]. rewrite <- !app_assoc.
    rewrite member_read_back by (assumption || reflexivity).
    rewrite run_stepback by (assumption || reflexivity).
    rewrite run_close_obj. reflexivity.
  - cbn [map]. rewrite join_cons2, <- !app_assoc.
    rewrite member_read_back by (assumption || reflexivity).
    rewrite run_comma_obj.
    rewrite run_indent by (assumption || reflexivity).
    specialize (IH HF' Hwf ltac:(discriminate) PKey (obj_define k x done) k
                   (or_intror eq_refl)).
    cbn [map] in IH. rewrite IH. reflexivity.
Qed.

Lemma read_back (v : value) : wf v = true -> reads_back gap v.
Proof.
  induction v as [|b|n|s|elems props HFe _|props HFp] using value_ind;
    intros Hwf indent K rest Hind Hd.
  - reflexivity.
  - destruct b; reflexivity.
  - now apply run_number.
  - cbn [serialize]. unfold quote. rewrite <- !app_assoc.
    change (run (PValue, K) (dq ++ ?t)) with (run (PStr false [], K) t).
    now rewrite run_quote.
  - cbn [wf] in Hwf. apply andb_true_iff in Hwf as [Hwe Hp].
    destruct props; [|discriminate].
    cbn [serialize]. destruct elems as [|x elems]; [reflexivity|].
    cbn [map]. rewrite wrap_cons, <- !app_assoc.
    change (run (PValue, K) (91 :: ?t)) with (run (PArrOpen, FArr [] :: K) t).
    rewrite run_indent by (assumption || reflexivity).
    pose proof (elems_read_back indent K rest (x :: elems) HFe Hwe
                  ltac:(discriminate) Hind []) as E.
    cbn [map rev app] in E. rewrite <- E.
    cbn [forallb] in Hwe. apply andb_true_iff in Hwe as [Hwx _].
    destruct elems as [|y elems].
    + cbn [map join]. now apply run_arr_open.
    + cbn [map]. rewrite join_cons2, <- !app_assoc. now apply run_arr_open.
  - cbn [wf] in Hwf. apply andb_true_iff in Hwf as [Hc Hwp].
    cbn [serialize]. destruct props as [|[k x] props]; [reflexivity|].
    cbn [map]. rewrite wrap_cons, <- !app_assoc.
    change (run (PValue, K) (123 :: ?t))
      with (run (PObjOpen, FObj [] [] :: K) t).
    rewrite run_indent by (assumption || reflexivity).
    pose proof (members_read_back indent K rest ((k, x) :: props) HFp Hwp
                  ltac:(discriminate) Hind PObjOpen [] []
                  (or_introl eq_refl)) as E.
    cbn [map] in E. rewrite E. now rewrite define_all.
Qed.
End read_back.

(** A well-formed value written by [JSON.stringify(v, null, 2)] and
    followed by a line feed is read back by [JSON.parse] as itself. *)
Theorem parse_stringify (v : value) :
  wf v = true -> JSON_parse (JSON_stringify v 2 ++ nl) = Some v.
Proof.
  intros Hwf. unfold JSON_parse, JSON_stringify.
  change (repeat 32 (Nat.min 2 10)) with (32 :: [32]).
  rewrite (read_back 32 [32] eq_refl v Hwf [] [] nl eq_refl eq_refl).
  reflexivity.
Qed.

(* ================================================================= *)
(** ** What [JSON.parse] returns is well formed *)

Lemma define_forallb (P : jsstring * value -> bool) k v l :
  P (k, v) = true -> forallb P l = true -> forallb P (obj_define k v l) = true.
Proof.
  intros Hk. induction l as [|[k' v'] t IH]; simpl; intros H.
  - now rewrite Hk.
  - apply andb_true_iff in H as [H1 H2].
    destruct (str_eqb k k'); simpl.
    + now rewrite Hk, H2.
    + destruct (goes_before k k'); simpl.
      * now rewrite Hk, H1, H2.
      * now rewrite H1, IH.
Qed.

Lemma wf_define k v l :
  wf v = true -> wf (VObj l) = true -> wf (VObj (obj_define k v l)) = true.
Proof.
  cbn [wf]. intros Hv H. apply andb_true_iff in H as [H1 H2].
  apply andb_true_iff; split.
  - now apply define_canonical.
  - now apply define_forallb.
Qed.

Lemma wf_deliver (v : value) (K : list frame) :
  wf v = true -> forallb wf_frame K = true -> wf_config (deliver v K) = true.
Proof.
  intros Hv HK. destruct K as [|[done|done k] K]; unfold wf_config;
    cbn [deliver fst snd wf_state forallb wf_frame].
  - now rewrite Hv.
  - cbn [forallb wf_frame] in HK. apply andb_true_iff in HK as [H1 H2].
    now rewrite Hv, H1, H2.
  - cbn [forallb wf_frame] in HK. apply andb_true_iff in HK as [H1 H2].
    now rewrite (wf_define k v done Hv H1), H2.
Qed.

Lemma wf_start_value (c : jschar) (K : list frame) (cf : config) :
  forallb wf_frame K = true -> start_value c K = Some cf -> wf_config cf = true.
Proof.
  intros HK. unfold start_value.
  repeat match goal with
         | |- (if ?b then _ else _) = _ -> _ => destruct b
         end; intros H; try discriminate; injection H as <-;
    unfold wf_config; cbn; assumption.
Qed.

Lemma wf_step_token (st : pstate) (K : list frame) (c : jschar) (cf : config) :
  wf_config (st, K) = true -> step_token st K c = Some cf ->
  wf_config cf = true.
Proof.
  unfold wf_config. cbn [fst snd]. intros H. apply andb_true_iff in H as [Hst HK].
  assert (Hsame : forall st', wf_state st' = true ->
                              wf_state st' && forallb wf_frame K = true)
    by (intros st' ->; exact HK).
  destruct st; cbn [step_token].
  - destruct (is_json_ws c); [intros [= <-]; now apply Hsame|].
    now apply wf_start_value.
  - destruct (is_json_ws c); [intros [= <-]; now apply Hsame|].
    destruct (N.eqb c 93); [|now apply wf_start_value].
    destruct K as [|[done|done k] K]; try discriminate.
    cbn in HK. apply andb_true_iff in HK as [_ HK].
    intros [= <-]. now apply wf_deliver.
  - destruct (is_json_ws c); [intros [= <-]; now apply Hsame|].
    destruct (N.eqb c 34); [intros [= <-]; now apply Hsame|].
    destruct (N.eqb c 125); [|discriminate].
    destruct K as [|[done|done k] K]; try discriminate.
    cbn [forallb] in HK. apply andb_true_iff in HK as [_ HK].
    intros [= <-]. now apply wf_deliver.
  - destruct (is_json_ws c); [intros [= <-]; now apply Hsame|].
    destruct (N.eqb c 34); [intros [= <-]; now apply Hsame|discriminate].
  - destruct (is_json_ws c); [intros [= <-]; now apply Hsame|].
    destruct (N.eqb c 58); [intros [= <-]; now apply Hsame|discriminate].
  - destruct (is_json_ws c); [intros [= <-]; now apply Hsame|].
    destruct K as [|[done|done k] K]; try discriminate;
      cbn [forallb wf_frame] in HK; apply andb_true_iff in HK as [H1 H2].
    + destruct (N.eqb c 44); [intros [= <-]; cbn; now rewrite H1, H2|].
      destruct (N.eqb c 93); [|discriminate].
      intros [= <-]. apply wf_deliver; [|assumption].
      cbn [wf]. rewrite andb_true_r. rewrite forallb_forall in *.
      intros x Hx. apply H1. now apply in_rev.
    + destruct (N.eqb c 44);
        [intros [= <-]; cbn [fst snd wf_state forallb wf_frame]; now rewrite H1, H2|].
      destruct (N.eqb c 125); [|discriminate].
      intros [= <-]. now apply wf_deliver.
  - destruct (is_json_ws c); [intros [= <-]; cbn [fst snd]; now rewrite Hst|discriminate].
  - destruct (N.eqb c 34).
    + unfold end_string. destruct forKey.
      * destruct K as [|[done|done k] K]; try discriminate.
        intros [= <-]. exact HK.
      * intros [= <-]. now apply wf_deliver.
    + destruct (N.eqb c 92); [intros [= <-]; now apply Hsame|].
      destruct (N.ltb c 32); [discriminate|intros [= <-]; now apply Hsame].
  - destruct (N.eqb c 117); [intros [= <-]; now apply Hsame|].
    destruct (escape_char c); [intros [= <-]; now apply Hsame|discriminate].
  - destruct (hex_val c); [|discriminate].
    destruct k; intros [= <-]; now apply Hsame.
  - discriminate.
  - destruct rest as [|x r]; [discriminate|].
    destruct (N.eqb c x); [|discriminate].
    destruct r; intros [= <-]; [now apply wf_deliver|].
    cbn [fst snd wf_state]. cbn [wf_state] in Hst. now rewrite Hst.
Qed.

Lemma wf_step (cf cf' : config) (c : jschar) :
  wf_config cf = true -> step cf c = Some cf' -> wf_config cf' = true.
Proof.
  destruct cf as [st K]. intros Hwf.
  destruct st; try (apply wf_step_token; assumption).
  cbn [step]. destruct (is_num_char c).
  - intros [= <-]. exact Hwf.
  - destruct (valid_number (rev acc)) eqn:Hv; [|discriminate].
    unfold wf_config in Hwf. cbn [fst snd wf_state] in Hwf.
    pose proof (wf_deliver (VNum (rev acc)) K Hv Hwf) as Hd.
    destruct (deliver (VNum (rev acc)) K) as [st' K'].
    now apply wf_step_token.
Qed.

Lemma wf_run (s : jsstring) :
  forall cf cf', wf_config cf = true -> run cf s = Some cf' ->
                 wf_config cf' = true.
Proof.
  induction s as [|c s IH]; intros cf cf' Hwf; cbn [run].
  - now intros [= <-].
  - destruct (step cf c) as [cf1|] eqn:E; [|discriminate].
    apply IH. exact (wf_step cf cf1 c Hwf E).
Qed.

Theorem parse_wf (text : jsstring) (v : value) :
  JSON_parse text = Some v -> wf v = true.
Proof.
  unfold JSON_parse.
  destruct (run (PValue, []) text) as [[st K]|] eqn:E; [|discriminate].
  apply wf_run in E; [|reflexivity].
  unfold wf_config in E. cbn [fst snd] in E. apply andb_true_iff in E as [Hst _].
  unfold finish. destruct st; try discriminate.
  - destruct K; [|discriminate]. now intros [= <-].
  - destruct K; [|discriminate].
    destruct (valid_number (rev acc)) eqn:Hv; [|discriminate].
    now intros [= <-].
Qed.

(* ================================================================= *)
(** ** The functions of the program, unfolded *)

Lemma path_eqb_refl (p : path) : path_eqb p p = true.
Proof. unfold path_eqb. now rewrite !str_eqb_refl. Qed.

Lemma path_eqb_eq (p q : path) : path_eqb p q = true <-> p = q.
Proof.
  unfold path_eqb. rewrite andb_true_iff, !str_eqb_eq.
  destruct p, q; simpl. split; [intros [-> ->]; reflexivity|intros [= -> ->]; auto].
Qed.

(** A path of [files] is read and written. *)
Lemma read_file (w : world) (p : path) (content : jsstring) :
  lookup p (files w) = Some content ->
  read_result w p = inr content /\ can_write w p = true.
Proof. unfold read_result, can_write. now intros ->. Qed.

Lemma modifyAppJson_spec (p : path) (c : ColorSpace) (w : world) :
  modifyAppJson p c w =
  match read_result w p with
  | inl e => (Throw (failed_json e), emit (Read p) w)
  | inr content =>
      match JSON_parse content with
      | None =>
          (Throw (failed_json (thrown w SyntaxError content)), emit (Read p) w)
      | Some config =>
          match patch config c with
          | inl e => (Throw (failed_json (thrown w e content)), emit (Read p) w)
          | inr None => (Ret false, emit (Log already_json) (emit (Read p) w))
          | inr (Some config') =>
              if can_write w p
              then (Ret true, written p (JSON_stringify config' 2 ++ nl)
                                      (emit (Read p) w))
              else (Throw (failed_json (system_error w (Writing p))),
                    emit (Read p) w)
          end
      end
  end.
Proof.
  unfold modifyAppJson, try_catch, bind, readFileSync, writeFileSync, patch,
    defaults, plugins_of.
  destruct (read_result w p) as [e|content]; [reflexivity|].
  destruct (JSON_parse content) as [config|]; [|reflexivity].
  repeat (cbn [lift bindE ret throw];
          match goal with
          | |- context [get ?v ?k] => destruct (get v k) as [?|?]
          | |- context [negb (truthy ?v)] => destruct (negb (truthy v))
          | |- context [set ?v ?k ?x] => destruct (set v k x) as [?|?]
          | |- context [set2 ?v ?k ?k' ?x] => destruct (set2 v k k' x) as [?|?]
          | |- context [isPluginInConfig ?v] => destruct (isPluginInConfig v)
          | |- context [push2 ?v ?k ?k' ?x] => destruct (push2 v k k' x) as [?|?]
          | |- context [can_write (emit ?e ?v) ?k] =>
              change (can_write (emit e v) k) with (can_write v k)
          | |- context [can_write ?v ?k] => destruct (can_write v k)
          end);
    reflexivity.
Qed.

(** [modifyAppJson] on a file of [files]. *)
Lemma modifyAppJson_file (p : path) (c : ColorSpace) (w : world)
    (content : jsstring) :
  lookup p (files w) = Some content ->
  modifyAppJson p c w =
  match JSON_parse content with
  | None =>
      (Throw (failed_json (thrown w SyntaxError content)), emit (Read p) w)
  | Some config =>
      match patch config c with
      | inl e => (Throw (failed_json (thrown w e content)), emit (Read p) w)
      | inr None => (Ret false, emit (Log already_json) (emit (Read p) w))
      | inr (Some config') =>
          (Ret true, written p (JSON_stringify config' 2 ++ nl)
                             (emit (Read p) w))
      end
  end.
Proof.
  intros Hl. destruct (read_file w p content Hl) as [Hr Hw].
  now rewrite modifyAppJson_spec, Hr, Hw.
Qed.

Lemma emits_emits (a b : list event) (w : world) :
  emits b (emits a w) = emits (a ++ b) w.
Proof. unfold emits. cbn. now rewrite <- app_assoc. Qed.

Lemma emits_nil (w : world) : emits [] w = w.
Proof. destruct w. unfold emits. cbn. now rewrite app_nil_r. Qed.

Lemma modifyAppConfigJs_spec (p : path) (c : ColorSpace) (w : world) :
  modifyAppConfigJs p c w =
  match read_result w p with
  | inl e => (Throw (failed_js p e), emit (Read p) w)
  | inr content =>
      if includes content plugin_name
      then (Ret false, emits [Read p; Log (already_js p)] w)
      else
        match patch_text content c with
        | Some content' =>
            if can_write w p
            then (Ret true, written p content' (emit (Read p) w))
            else (Throw (failed_js p (system_error w (Writing p))),
                  emit (Read p) w)
        | None => (Ret false, emits (Read p :: manual_logs p c) w)
        end
  end.
Proof.
  unfold modifyAppConfigJs, try_catch, bind, readFileSync, writeFileSync,
    patch_text.
  destruct (read_result w p) as [e|content]; [reflexivity|].
  destruct (includes content plugin_name).
  { cbn. unfold emit. now rewrite emits_emits. }
  unfold test, replace, expand, insertion_list, insertion_decl.
  destruct (search pluginsArrayRegex content) as [[[b m] a]|].
  { cbn [map concat]. rewrite app_nil_r, <- !app_assoc.
    change (can_write (emit (Read p) w) p) with (can_write w p).
    destruct (can_write w p); reflexivity. }
  destruct (search pluginsArrayJsonRegex content) as [[[b m] a]|].
  { cbn [map concat]. rewrite app_nil_r, <- !app_assoc.
    change (can_write (emit (Read p) w) p) with (can_write w p).
    destruct (can_write w p); reflexivity. }
  destruct (search expoObjectRegex content) as [[[b m] a]|].
  { cbn [map concat]. rewrite app_nil_r, <- !app_assoc.
    change (can_write (emit (Read p) w) p) with (can_write w p).
    destruct (can_write w p); reflexivity. }
  cbn. unfold emit, manual_logs. rewrite !emits_emits. reflexivity.
Qed.

(** [modifyAppConfigJs] on a file of [files]. *)
Lemma modifyAppConfigJs_file (p : path) (c : ColorSpace) (w : world)
    (content : jsstring) :
  lookup p (files w) = Some content ->
  modifyAppConfigJs p c w =
  if includes content plugin_name
  then (Ret false, emits [Read p; Log (already_js p)] w)
  else
    match search pluginsArrayRegex content with
    | Some (b, m, a) =>
        (Ret true, written p (b ++ m ++ insertion_list c ++ a) (emit (Read p) w))
    | None =>
        match search pluginsArrayJsonRegex content with
        | Some (b, m, a) =>
            (Ret true,
             written p (b ++ m ++ insertion_list c ++ a) (emit (Read p) w))
        | None =>
            match search expoObjectRegex content with
            | Some (b, m, a) =>
                (Ret true,
                 written p (b ++ m ++ insertion_decl c ++ a)
                         (emit (Read p) w))
            | None => (Ret false, emits (Read p :: manual_logs p c) w)
            end
        end
    end.
Proof.
  intros Hl. destruct (read_file w p content Hl) as [Hr Hw].
  rewrite modifyAppConfigJs_spec, Hr, Hw. unfold patch_text.
  destruct (includes content plugin_name); [reflexivity|].
  destruct (search pluginsArrayRegex content) as [[[b m] a]|]; [reflexivity|].
  destruct (search pluginsArrayJsonRegex content) as [[[b m] a]|];
    [reflexivity|].
  destruct (search expoObjectRegex content) as [[[b m] a]|]; reflexivity.
Qed.

Lemma first_existing_spec (d : jsstring) (l : list jsstring) (w : world) :
  first_existing d l w =
  (Ret (fst (probe d (on_disk w) l)), emits (snd (probe d (on_disk w) l)) w).
Proof.
  revert w. induction l as [|file r IH]; intros w.
  - cbn. now rewrite emits_nil.
  - cbn [first_existing probe]. unfold bind, existsSync.
    destruct (on_disk w (path_join d file)); [reflexivity|].
    rewrite IH.
    change (on_disk (emit (Exists (path_join d file)) w)) with (on_disk w).
    destruct (probe d (on_disk w) r) as [res evs]. cbn [fst snd].
    unfold emit. now rewrite emits_emits.
Qed.

Lemma detectConfigFile_spec (w : world) :
  detectConfigFile w = (Ret (config_file w), emits (probes w) w).
Proof.
  unfold detectConfigFile, bind, process_cwd. apply first_existing_spec.
Qed.

Lemma promptColorSpace_spec (w : world) :
  promptColorSpace w =
  match stdin w with
  | answer :: rest =>
      (Ret (choice answer),
       mkWorld (cwd w) (files w) (others w) (diagnostics w) rest
               (trace w ++ prompt_events))
  | [] => (Pending, emits prompt_events w)
  end.
Proof.
  unfold promptColorSpace, bind, console_log, question, emit, emits.
  cbn [stdin cwd files others diagnostics trace].
  unfold prompt_events, choice, prompt_text.
  destruct (stdin w); cbn [join]; rewrite <- !app_assoc; reflexivity.
Qed.

Lemma apply_spec (options : ApplyOptions) (w : world) :
  apply options w =
  match config_file w with
  | None => (Exit 1, emits (probes w ++ not_found_logs) w)
  | Some p =>
      match choose options (emits (probes w ++ [found_log p]) w) with
      | (Ret c, w2) =>
          match modify p c w2 with
          | (Ret true, w3) => (Ret tt, emits (success_logs c) w3)
          | (Ret false, w3) => (Ret tt, w3)
          | (Throw e, w3) => (Exit 1, emit (error_log e) w3)
          | (Exit k, w3) => (Exit k, w3)
          | (Pending, w3) => (Pending, w3)
          end
      | (Throw e, w2) => (Exit 1, emit (error_log e) w2)
      | (Exit k, w2) => (Exit k, w2)
      | (Pending, w2) => (Pending, w2)
      end
  end.
Proof.
  unfold apply, try_catch. unfold bind at 1. rewrite detectConfigFile_spec.
  destruct (config_file w) as [p|].
  - unfold bind at 1. unfold console_log at 1, emit. rewrite emits_emits.
    fold (found_log p). unfold bind at 1. fold (choose options).
    destruct (choose options (emits (probes w ++ [found_log p]) w))
      as [[c| e | k |] w2]; try reflexivity.
    unfold bind at 1. fold (modify p c).
    destruct (modify p c w2) as [[[|]| e | k |] w3]; try reflexivity.
    unfold bind, console_log, emit. rewrite !emits_emits. reflexivity.
  - unfold bind, console_error, process_exit, emit. rewrite !emits_emits.
    reflexivity.
Qed.

(* ================================================================= *)
(** ** Detection in the structured representation *)

Lemma is_plugin_name_spec (v : value) :
  is_plugin_name (Some v) = true <-> v = VStr plugin_name.
Proof.
  destruct v; cbn; try (split; [discriminate|intros [=]]).
  rewrite str_eqb_eq. split; [now intros ->|now intros [= ->]].
Qed.

Lemma plugin_match_spec (x : value) :
  match x with
  | VStr _ => is_plugin_name (Some x)
  | VArr items _ =>
      match items with
      | [] => false
      | first :: _ => is_plugin_name (Some first)
      end
  | _ => false
  end = true <-> bare_or_headed x.
Proof.
  unfold bare_or_headed. destruct x as [|b|n|s|items ps|props].
  - split; [discriminate|intros [[=]|(? & ? & [=])]].
  - split; [discriminate|intros [[=]|(? & ? & [=])]].
  - split; [discriminate|intros [[=]|(? & ? & [=])]].
  - rewrite is_plugin_name_spec. split; [now left|].
    intros [H|(? & ? & [=])]; exact H.
  - destruct items as [|first rest].
    + split; [discriminate|intros [[=]|(? & ? & [=])]].
    + rewrite is_plugin_name_spec. split.
      * intros ->. right. now exists rest, ps.
      * intros [[=]|(? & ? & [= -> _ _])]. reflexivity.
  - split; [discriminate|intros [[=]|(? & ? & [=])]].
Qed.

(** C8, as stated, fails: an array holding only the name is detected,
    and it is neither the bare name nor a structure of two elements. *)
Lemma detection_rule_counterexample :
  ~ detects_bare_or_pair [VArr [VStr plugin_name] []].
Proof.
  unfold detects_bare_or_pair. intros [H _].
  destruct (H eq_refl) as (x & [<-|[]] & [Hx|(o & ps & Hx)]); discriminate.
Qed.

(** C8 (amended): an entry is detected in a plugins list if and only
    if the list contains the bare name or an array that is not empty
    and whose first element is the name; the length of that array
    and what follows the name in it do not count. *)
Theorem detection_rule (l : list value) (ps : properties) :
  isPluginInConfig (Some (VArr l ps)) = true <->
  exists x, In x l /\ bare_or_headed x.
Proof.
  cbn [isPluginInConfig]. rewrite existsb_exists.
  split; intros (x & Hin & Hx); exists x; (split; [exact Hin|]);
    now apply plugin_match_spec.
Qed.

(** A value that is not an array holds no detected entry. *)
Lemma detection_needs_array (v : option value) :
  isArray v = false -> isPluginInConfig v = false.
Proof. destruct v as [[| | | | |]|]; try reflexivity. discriminate. Qed.

(** The options of a pair do not count. *)
Example detection_ignores_options :
  isPluginInConfig
    (Some (VArr [VStr (lit "other");
                 VArr [VStr plugin_name; VObj [(lit "colorSpace", VNum (lit "7"))]] []]
                []))
  = true.
Proof. reflexivity. Qed.

(* ================================================================= *)
(** ** The anchors of the text patcher *)

Lemma matches_anchor (key : jsstring) (opening : jschar) (m : jsstring) :
  matches (anchor key opening) m <-> token key opening m.
Proof.
  unfold anchor, token. revert m. induction key as [|c key IH]; intros m.
  - cbn [map app]. split.
    + intros H. inversion H as [| |ws p' m0 Hws Hm0]; subst.
      inversion Hm0 as [|c' p'' m1 Hm1|]; subst.
      inversion Hm1; subst. now exists ws.
    + intros (ws & Hws & ->). cbn [app].
      apply m_star; [assumption|]. repeat constructor.
  - cbn [map app]. split.
    + intros H. inversion H as [|c' p' m0 Hm0|]; subst.
      apply IH in Hm0 as (ws & Hws & ->). now exists ws.
    + intros (ws & Hws & ->). cbn [app]. constructor. apply IH. now exists ws.
Qed.

Lemma search_first (key : jsstring) (opening : jschar) (s b m a : jsstring) :
  search (anchor key opening) s = Some (b, m, a) ->
  first_occurrence (token key opening) s b m a.
Proof.
  intros H. destruct (search_sound _ _ _ _ _ H) as [Hs Hm].
  repeat split; [assumption|now apply matches_anchor|].
  intros b' m' a' Hm' Hs'. apply matches_anchor in Hm'.
  exact (search_leftmost _ _ _ _ _ H _ _ _ Hm' Hs').
Qed.

Lemma search_none (key : jsstring) (opening : jschar) (s : jsstring) :
  search (anchor key opening) s = None <-> ~ occurs (token key opening) s.
Proof.
  split.
  - intros H (b & m & a & Hm & Hs). apply matches_anchor in Hm.
    exact (search_complete _ _ H _ _ _ Hm Hs).
  - intros H. destruct (search (anchor key opening) s) as [[[b m] a]|] eqn:E;
      [|reflexivity].
    exfalso. apply H. destruct (search_first _ _ _ _ _ _ E) as (Hs & Hm & _).
    now exists b, m, a.
Qed.

Lemma regexes_are_anchors :
  pluginsArrayRegex = anchor plugins_key 91
  /\ pluginsArrayJsonRegex = anchor quoted_plugins_key 91
  /\ expoObjectRegex = anchor expo_key 123.
Proof. repeat split. Qed.

Lemma patch_text_outcome (content : jsstring) (c : ColorSpace) :
  text_outcome content c (patch_text content c).
Proof.
  unfold patch_text.
  destruct regexes_are_anchors as (-> & -> & ->).
  destruct (search (anchor plugins_key 91) content) as [[[b m] a]|] eqn:E1.
  { apply at_plugins. now apply search_first. }
  apply search_none in E1.
  destruct (search (anchor quoted_plugins_key 91) content) as [[[b m] a]|] eqn:E2.
  { apply at_quoted_plugins; [assumption|]. now apply search_first. }
  apply search_none in E2.
  destruct (search (anchor expo_key 123) content) as [[[b m] a]|] eqn:E3.
  { apply at_expo; try assumption. now apply search_first. }
  apply search_none in E3. now apply no_anchor.
Qed.

Lemma modifyAppConfigJs_text (p : path) (c : ColorSpace) (w : world)
    (content : jsstring) :
  lookup p (files w) = Some content ->
  includes content plugin_name = false ->
  modifyAppConfigJs p c w =
  match patch_text content c with
  | Some content' => (Ret true, written p content' (emit (Read p) w))
  | None => (Ret false, emits (Read p :: manual_logs p c) w)
  end.
Proof.
  intros Hl Hi. rewrite (modifyAppConfigJs_file p c w content Hl), Hi.
  unfold patch_text.
  destruct (search pluginsArrayRegex content) as [[[b m] a]|]; [reflexivity|].
  destruct (search pluginsArrayJsonRegex content) as [[[b m] a]|]; [reflexivity|].
  destruct (search expoObjectRegex content) as [[[b m] a]|]; reflexivity.
Qed.

(** C3: on a text that does not hold the name, the text patcher tries
    the token [plugins: [], then the token ["plugins": [], then the
    token [expo: {], white space being allowed before the bracket; it
    patches at the leftmost occurrence of the first token that occurs
    and only there. After a plugins token it inserts a line made of
    the entry text followed by a comma; after the expo token it
    inserts a plugins declaration holding the entry text and followed
    by a comma. The entry text is the fixed template. *)
Theorem anchor_policy (p : path) (c : ColorSpace) (w : world)
    (content : jsstring) :
  lookup p (files w) = Some content ->
  includes content plugin_name = false ->
  pluginEntry c
  = jsq "['expo-color-space-plugin', { 'colorSpace': '" ++ text c ++ jsq "' }]"
  /\ exists result,
      text_outcome content c result
      /\ modifyAppConfigJs p c w =
         match result with
         | Some content' => (Ret true, written p content' (emit (Read p) w))
         | None => (Ret false, emits (Read p :: manual_logs p c) w)
         end.
Proof.
  intros Hl Hi. split; [reflexivity|].
  exists (patch_text content c). split; [apply patch_text_outcome|].
  now apply modifyAppConfigJs_text.
Qed.

Lemma anchor_policy_witness :
  exists result,
    text_outcome scenario_js displayP3 result
    /\ modifyAppConfigJs app_config_js displayP3
         (project "app.config.js" scenario_js) =
       match result with
       | Some content' =>
           (Ret true, written app_config_js content'
                        (emit (Read app_config_js)
                              (project "app.config.js" scenario_js)))
       | None =>
           (Ret false,
            emits (Read app_config_js :: manual_logs app_config_js displayP3)
                  (project "app.config.js" scenario_js))
       end.
Proof.
  exact (proj2 (anchor_policy app_config_js displayP3
                  (project "app.config.js" scenario_js) scenario_js
                  eq_refl eq_refl)).
Defined.

(** The scenario of the specification: the entry and a comma right
    after the token, the rest of the text unchanged. *)
Example scenario_js_patched :
  exists w',
    modifyAppConfigJs app_config_js displayP3
      (project "app.config.js" scenario_js) = (Ret true, w')
    /\ lookup app_config_js (files w') =
       Some (lit "module.exports = { expo: { plugins: ["
             ++ nl ++ lit "      "
             ++ jsq "['expo-color-space-plugin', { 'colorSpace': 'displayP3' }],"
             ++ lit "] } }").
Proof. eexists. split; reflexivity. Qed.

(* ================================================================= *)
(** ** Files and traces *)

Lemma lookup_store_same (p : path) (c : jsstring) (fs : list (path * jsstring)) :
  lookup p (store p c fs) = Some c.
Proof.
  induction fs as [|[q d] r IH]; cbn.
  - now rewrite path_eqb_refl.
  - destruct (path_eqb p q) eqn:E; cbn.
    + now rewrite path_eqb_refl.
    + now rewrite E.
Qed.

Lemma lookup_store_other (p q : path) (c : jsstring)
    (fs : list (path * jsstring)) :
  q <> p -> lookup q (store p c fs) = lookup q fs.
Proof.
  intros Hne.
  assert (Hqp : path_eqb q p = false).
  { destruct (path_eqb q p) eqn:E; [|reflexivity].
    apply path_eqb_eq in E. contradiction. }
  induction fs as [|[q' d] r IH]; cbn.
  - now rewrite Hqp.
  - destruct (path_eqb p q') eqn:E; cbn.
    + apply path_eqb_eq in E. subst q'. now rewrite Hqp.
    + now rewrite IH.
Qed.

Lemma no_write_app (a b : list event) :
  no_write a -> no_write b -> no_write (a ++ b).
Proof. unfold no_write. intros Ha Hb. now rewrite forallb_app, Ha, Hb. Qed.

Lemma probe_no_write (d : jsstring) (present : path -> bool)
    (l : list jsstring) : no_write (snd (probe d present l)).
Proof.
  unfold no_write. induction l as [|file r IH]; cbn; [reflexivity|].
  destruct (present (path_join d file)); [reflexivity|].
  destruct (probe d present r) as [res evs]. exact IH.
Qed.

Lemma before_patch_no_write (options : ApplyOptions) (w : world) (p : path) :
  no_write (before_patch options w p).
Proof.
  unfold before_patch. apply no_write_app; [apply probe_no_write|].
  destruct (colorSpace options); reflexivity.
Qed.

Lemma choose_chosen (options : ApplyOptions) (w : world) (p : path)
    (c : ColorSpace) :
  chosen options w c ->
  choose options (emits (probes w ++ [found_log p]) w)
  = (Ret c, after_choice options w p).
Proof.
  unfold chosen, choose, after_choice, before_patch.
  intros [H|(H & answer & rest & Hs & ->)]; rewrite H.
  - unfold ret, emits. cbn [app]. reflexivity.
  - rewrite promptColorSpace_spec. cbn [stdin emits cwd files trace].
    rewrite Hs. cbn [tl]. now rewrite <- !app_assoc.
Qed.

Lemma choose_pending (options : ApplyOptions) (w : world) (p : path) :
  colorSpace options = None -> stdin w = [] ->
  choose options (emits (probes w ++ [found_log p]) w)
  = (Pending, after_choice options w p).
Proof.
  unfold choose, after_choice, before_patch. intros H Hs. rewrite H.
  rewrite promptColorSpace_spec. cbn [stdin emits cwd files trace].
  rewrite Hs. cbn [tl]. unfold emits. cbn [cwd files stdin trace].
  now rewrite Hs, <- !app_assoc.
Qed.

Lemma chosen_or_pending (options : ApplyOptions) (w : world) :
  (exists c, chosen options w c)
  \/ (colorSpace options = None /\ stdin w = []).
Proof.
  unfold chosen. destruct (colorSpace options) as [c|] eqn:E.
  - left. exists c. now left.
  - destruct (stdin w) as [|answer rest] eqn:Es.
    + now right.
    + left. exists (choice answer). right. split; [reflexivity|].
      now exists answer, rest.
Qed.

Lemma apply_chosen (options : ApplyOptions) (w : world) (p : path)
    (c : ColorSpace) :
  config_file w = Some p -> chosen options w c ->
  apply options w =
  match modify p c (after_choice options w p) with
  | (Ret true, w3) => (Ret tt, emits (success_logs c) w3)
  | (Ret false, w3) => (Ret tt, w3)
  | (Throw e, w3) => (Exit 1, emit (error_log e) w3)
  | (Exit k, w3) => (Exit k, w3)
  | (Pending, w3) => (Pending, w3)
  end.
Proof.
  intros Hp Hc. rewrite apply_spec, Hp. now rewrite (choose_chosen _ _ _ _ Hc).
Qed.

Lemma apply_pending (options : ApplyOptions) (w : world) (p : path) :
  config_file w = Some p -> colorSpace options = None -> stdin w = [] ->
  apply options w = (Pending, after_choice options w p).
Proof.
  intros Hp Ho Hs. rewrite apply_spec, Hp. now rewrite choose_pending.
Qed.

Lemma modify_json (p : path) (c : ColorSpace) :
  extname p = lit ".json" -> modify p c = modifyAppJson p c.
Proof. unfold modify. now intros ->. Qed.

Lemma modify_js (p : path) (c : ColorSpace) :
  extname p = lit ".js" \/ extname p = lit ".ts" ->
  modify p c = modifyAppConfigJs p c.
Proof. unfold modify. now intros [-> | ->]. Qed.

(* ================================================================= *)
(** ** The text patcher: frame and degradation *)

(* ================================================================= *)
(** ** Failures of the structured patcher *)



(* ================================================================= *)
(** ** The structured patcher on a document that is an object *)

Lemma wf_get (props : properties) (k : jsstring) (v : value) :
  wf (VObj props) = true -> obj_get k props = Some v -> wf v = true.
Proof.
  cbn [wf]. intros H. apply andb_true_iff in H as [_ H].
  induction props as [|[k' v'] t IH]; cbn; [discriminate|].
  cbn [forallb] in H. apply andb_true_iff in H as [H1 H2].
  destruct (str_eqb k k'); [now intros [= <-]|now apply IH].
Qed.

Lemma detected_spec (l : list value) (ps : properties) :
  isPluginInConfig (Some (VArr l ps)) = true <->
  exists x, In x l /\ bare_or_headed x.
Proof.
  cbn [isPluginInConfig]. rewrite existsb_exists.
  split; intros (x & Hin & Hx); exists x; (split; [exact Hin|]);
    now apply plugin_match_spec.
Qed.

Lemma entry_headed (c : ColorSpace) : bare_or_headed (entry c).
Proof. right. unfold entry. eauto. Qed.

Lemma detected_after_push (old : list value) (ps : properties) (c : ColorSpace) :
  isPluginInConfig (Some (VArr (old ++ [entry c]) ps)) = true.
Proof.
  apply detected_spec. exists (entry c). split; [|apply entry_headed].
  apply in_or_app. right. now left.
Qed.


(** After the defaults, [expo] is an object whose [plugins] is truthy. *)
Lemma defaults_object (props : properties) (config1 : value) :
  isArray (obj_get (lit "expo") props) = false ->
  defaults (VObj props) = inr config1 ->
  exists props1 ep1 pl1,
    config1 = VObj props1
    /\ obj_get (lit "expo") props1 = Some (VObj ep1)
    /\ obj_get (lit "plugins") ep1 = Some pl1
    /\ truthy (Some pl1) = true
    /\ (forall k, k <> lit "expo" -> obj_get k props1 = obj_get k props)
    /\ (wf (VObj props) = true -> wf (VObj props1) = true)
    /\ (forall ep0,
           obj_get (lit "expo") props = Some (VObj ep0) ->
           forall k, k <> lit "plugins" -> obj_get k ep1 = obj_get k ep0).
Proof.
  intros Harr. unfold defaults. cbn [get bindE].
  destruct (truthy (obj_get (lit "expo") props)) eqn:Ht; cbn [negb set bindE get].
  - destruct (obj_get (lit "expo") props) as [[|b|n|s|elems eps|ep]|] eqn:He;
      try discriminate; cbn [get bindE truthy negb set2 set];
      try (rewrite He; cbn [get bindE set]; discriminate).
    destruct (truthy (obj_get (lit "plugins") ep)) eqn:Htp; cbn [negb].
    + intros [= <-].
      destruct (obj_get (lit "plugins") ep) as [pl|] eqn:Hpl; [|discriminate].
      exists props, ep, pl. repeat split; auto.
      intros ep0 [= <-]. auto.
    + cbn [get bindE]. rewrite He. cbn [bindE set]. intros [= <-].
      exists (obj_define (lit "expo")
                (VObj (obj_define (lit "plugins") (VArr [] []) ep)) props),
        (obj_define (lit "plugins") (VArr [] []) ep), (VArr [] []).
      split; [reflexivity|]. split; [apply obj_get_define_same|].
      split; [apply obj_get_define_same|]. split; [reflexivity|].
      split; [intros k Hk; now apply obj_get_define_other|]. split.
      * intros Hwf. apply wf_define; [|exact Hwf].
        apply wf_define; [reflexivity|]. exact (wf_get _ _ _ Hwf He).
      * intros ep0 [= <-] k Hk. now apply obj_get_define_other.
  - rewrite obj_get_define_same. cbn [get bindE obj_get truthy negb set2 set].
    rewrite obj_get_define_same. cbn [bindE set obj_define].
    intros [= <-].
    exists (obj_define (lit "expo") (VObj [(lit "plugins", VArr [] [])])
              (obj_define (lit "expo") (VObj []) props)),
      [(lit "plugins", VArr [] [])], (VArr [] []).
    split; [reflexivity|]. split; [apply obj_get_define_same|].
    split; [reflexivity|]. split; [reflexivity|].
    split; [intros k Hk; now rewrite !obj_get_define_other|]. split.
    + intros Hwf. apply wf_define; [reflexivity|]. now apply wf_define.
    + intros ep0 He. rewrite He in Ht. discriminate.
Qed.

(** The document that a successful structured patch writes. *)
Lemma patch_object (props : properties) (c : ColorSpace) (config' : value) :
  isArray (obj_get (lit "expo") props) = false ->
  patch (VObj props) c = inr (Some config') ->
  exists props' eprops old ps,
    config' = VObj props'
    /\ obj_get (lit "expo") props' = Some (VObj eprops)
    /\ obj_get (lit "plugins") eprops = Some (VArr (old ++ [entry c]) ps)
    /\ isPluginInConfig (Some (VArr old ps)) = false
    /\ (forall k, k <> lit "expo" -> obj_get k props' = obj_get k props)
    /\ (wf (VObj props) = true -> wf (VObj props') = true /\ ps = [])
    /\ (forall ep0,
           obj_get (lit "expo") props = Some (VObj ep0) ->
           forall k, k <> lit "plugins" -> obj_get k eprops = obj_get k ep0).
Proof.
  intros Harr. unfold patch.
  destruct (defaults (VObj props)) as [e|config1] eqn:Hd; [discriminate|].
  destruct (defaults_object props config1 Harr Hd)
    as (props1 & ep1 & pl1 & -> & He1 & Hpl1 & Ht1 & Hk1 & Hwf1 & Hep1).
  cbn [bindE]. unfold plugins_of. cbn [get bindE]. rewrite He1. cbn [get].
  rewrite Hpl1. cbn [bindE].
  destruct (isPluginInConfig (Some pl1)) eqn:Hdet; [discriminate|].
  unfold push2. cbn [get bindE]. rewrite He1. cbn [get bindE]. rewrite Hpl1.
  destruct pl1 as [|b|n|s|old ps|o]; try discriminate.
  cbn [push bindE set]. intros [= <-].
  exists (obj_define (lit "expo")
            (VObj (obj_define (lit "plugins") (VArr (old ++ [entry c]) ps) ep1))
            props1),
    (obj_define (lit "plugins") (VArr (old ++ [entry c]) ps) ep1), old, ps.
  split; [reflexivity|]. split; [apply obj_get_define_same|].
  split; [apply obj_get_define_same|]. split; [exact Hdet|].
  split; [intros k Hk; rewrite obj_get_define_other by exact Hk; now apply Hk1|].
  split.
  - intros Hwf. specialize (Hwf1 Hwf).
    pose proof (wf_get _ _ _ Hwf1 He1) as Hwe.
    pose proof (wf_get _ _ _ Hwe Hpl1) as Hwp.
    cbn [wf] in Hwp. apply andb_true_iff in Hwp as [Hold Hps].
    destruct ps; [|discriminate]. split; [|reflexivity].
    apply wf_define; [|exact Hwf1]. apply wf_define; [|exact Hwe].
    cbn [wf]. rewrite forallb_app, Hold. destruct c; reflexivity.
  - intros ep0 He0 k Hk. rewrite obj_get_define_other by exact Hk.
    now apply (Hep1 ep0).
Qed.

(** A document that holds the entry is left alone. *)
Lemma patch_detects (props eprops : properties) (l : list value)
    (ps : properties) (c : ColorSpace) :
  obj_get (lit "expo") props = Some (VObj eprops) ->
  obj_get (lit "plugins") eprops = Some (VArr l ps) ->
  isPluginInConfig (Some (VArr l ps)) = true ->
  patch (VObj props) c = inr None.
Proof.
  intros He Hpl Hdet. unfold patch, defaults, plugins_of. cbn [get bindE].
  rewrite He. cbn [truthy negb get bindE]. rewrite He. cbn [get bindE].
  rewrite Hpl. cbn [truthy negb bindE get]. rewrite He. cbn [get].
  rewrite Hpl. cbn [bindE]. now rewrite Hdet.
Qed.

Lemma patch_none_any (config : value) (c c' : ColorSpace) :
  patch config c = inr None -> patch config c' = inr None.
Proof.
  unfold patch. destruct (defaults config) as [e|config1]; [discriminate|].
  cbn [bindE]. destruct (plugins_of config1) as [e|pl]; [discriminate|].
  cbn [bindE]. destruct (isPluginInConfig pl); [reflexivity|].
  destruct (push2 config1 (lit "expo") (lit "plugins") (entry c));
    discriminate.
Qed.

(** With or without the keys [expo] and [plugins], the defaults
    leave a patchable document with a plugins list that awaits the
    entry. *)
Lemma defaults_patchable (props : properties) :
  patchable props = true ->
  exists props1 ep1 l ps,
    defaults (VObj props) = inr (VObj props1)
    /\ obj_get (lit "expo") props1 = Some (VObj ep1)
    /\ obj_get (lit "plugins") ep1 = Some (VArr l ps)
    /\ isPluginInConfig (Some (VArr l ps)) = false.
Proof.
  unfold patchable, defaults. cbn [get bindE].
  assert (Hfalsy : negb (truthy (obj_get (lit "expo") props)) = true ->
            exists props1 ep1 l ps,
              bindE
                (if negb (truthy (obj_get (lit "expo") props))
                 then set (Some (VObj props)) (lit "expo") (VObj [])
                 else inr (VObj props))
                (fun config =>
                   bindE (get (Some config) (lit "expo"))
                     (fun expo =>
                        bindE (get expo (lit "plugins"))
                          (fun plugins =>
                             if negb (truthy plugins)
                             then set2 config (lit "expo") (lit "plugins")
                                       (VArr [] [])
                             else inr config)))
              = inr (VObj props1)
              /\ obj_get (lit "expo") props1 = Some (VObj ep1)
              /\ obj_get (lit "plugins") ep1 = Some (VArr l ps)
              /\ isPluginInConfig (Some (VArr l ps)) = false).
  { intros ->. cbn [set bindE get]. rewrite obj_get_define_same.
    cbn [get bindE obj_get truthy negb set2 set]. rewrite obj_get_define_same.
    cbn [bindE set obj_define].
    exists (obj_define (lit "expo") (VObj [(lit "plugins", VArr [] [])])
              (obj_define (lit "expo") (VObj []) props)),
      [(lit "plugins", VArr [] [])], [], [].
    split; [reflexivity|]. split; [apply obj_get_define_same|].
    split; reflexivity. }
  destruct (obj_get (lit "expo") props) as [[|b|n|s|elems eps|ep]|] eqn:He;
    try exact Hfalsy.
  cbn [truthy negb bindE get]. rewrite He. cbn [bindE get].
  assert (Hfresh : negb (truthy (obj_get (lit "plugins") ep)) = true ->
            exists props1 ep1 l ps,
              (if negb (truthy (obj_get (lit "plugins") ep))
               then set2 (VObj props) (lit "expo") (lit "plugins") (VArr [] [])
               else inr (VObj props))
              = inr (VObj props1)
              /\ obj_get (lit "expo") props1 = Some (VObj ep1)
              /\ obj_get (lit "plugins") ep1 = Some (VArr l ps)
              /\ isPluginInConfig (Some (VArr l ps)) = false).
  { intros ->. unfold set2. cbn [get bindE]. rewrite He. cbn [set bindE].
    exists (obj_define (lit "expo")
              (VObj (obj_define (lit "plugins") (VArr [] []) ep)) props),
      (obj_define (lit "plugins") (VArr [] []) ep), [], [].
    split; [reflexivity|]. split; [apply obj_get_define_same|].
    split; [apply obj_get_define_same|reflexivity]. }
  destruct (obj_get (lit "plugins") ep) as [[|b|n|s|l ps|o]|] eqn:Hpl;
    try exact Hfresh.
  intros Hdet. apply negb_true_iff in Hdet. cbn [truthy negb].
  exists props, ep, l, ps. auto.
Qed.

Lemma patch_succeeds (props : properties) (c : ColorSpace) :
  patchable props = true ->
  exists config', patch (VObj props) c = inr (Some config').
Proof.
  intros H.
  destruct (defaults_patchable props H)
    as (props1 & ep1 & l & ps & Hd & He & Hpl & Hdet).
  eexists. unfold patch, plugins_of, push2. rewrite Hd. cbn [bindE get].
  rewrite He. cbn [get]. rewrite Hpl. cbn [bindE]. rewrite Hdet.
  cbn [push bindE set]. reflexivity.
Qed.


(** The scenario of the specification, with its layout. *)
Example scenario_json_patched :
  lookup app_json
    (files (snd (modifyAppJson app_json SRGB (project "app.json" scenario_json))))
  = Some scenario_json_written.
Proof. reflexivity. Qed.

(* ================================================================= *)
(** ** Two runs in succession *)

Lemma config_file_cases (w : world) (p : path) :
  config_file w = Some p ->
  on_disk w p = true
  /\ (p = path_join (cwd w) (lit "app.json")
      \/ p = path_join (cwd w) (lit "app.config.js")
      \/ p = path_join (cwd w) (lit "app.config.ts")).
Proof.
  unfold config_file, configFiles. cbn [probe].
  destruct (on_disk w (path_join (cwd w) (lit "app.json"))) eqn:E1.
  { intros [= <-]. split; [exact E1|auto]. }
  destruct (on_disk w (path_join (cwd w) (lit "app.config.js"))) eqn:E2.
  { intros [= <-]. split; [exact E2|auto]. }
  destruct (on_disk w (path_join (cwd w) (lit "app.config.ts"))) eqn:E3.
  { intros [= <-]. split; [exact E3|auto]. }
  discriminate.
Qed.

Lemma file_exists_store_same (p : path) (text : jsstring)
    (fs : list (path * jsstring)) :
  file_exists (store p text fs) p = true.
Proof. unfold file_exists. now rewrite lookup_store_same. Qed.

Lemma file_exists_store_other (p q : path) (text : jsstring)
    (fs : list (path * jsstring)) :
  q <> p -> file_exists (store p text fs) q = file_exists fs q.
Proof. intros H. unfold file_exists. now rewrite lookup_store_other. Qed.

(** The writing of a path at which there is something leaves
    everything where it is. *)
Lemma on_disk_store (w w1 : world) (p q : path) (text : jsstring) :
  on_disk w p = true ->
  files w1 = store p text (files w) -> others w1 = others w ->
  on_disk w1 q = on_disk w q.
Proof.
  intros Hp Hf Ho. unfold on_disk. rewrite Hf, Ho.
  destruct (path_eqb q p) eqn:E.
  - apply path_eqb_eq in E. subst q. rewrite file_exists_store_same.
    unfold on_disk in Hp. now rewrite Hp.
  - rewrite file_exists_store_other; [reflexivity|].
    intros ->. now rewrite path_eqb_refl in E.
Qed.

Lemma probe_ext (d : jsstring) (f g : path -> bool) (l : list jsstring) :
  (forall q, f q = g q) -> probe d f l = probe d g l.
Proof.
  intros H. induction l as [|file r IH]; cbn [probe]; [reflexivity|].
  now rewrite H, IH.
Qed.

Lemma config_file_extension (w : world) (p : path) :
  config_file w = Some p -> known_extension p.
Proof.
  intros H. destruct (config_file_cases w p H) as [_ [-> | [-> | ->]]];
    unfold known_extension; cbn; auto.
Qed.

(** The three ways in which a patcher ends. *)
Lemma modify_cases (p : path) (c : ColorSpace) (w0 : world) :
  known_extension p ->
  (exists e, modify p c w0 = (Throw e, emit (Read p) w0))
  \/ (exists logs,
         modify p c w0 = (Ret false, emits (Read p :: logs) w0)
         /\ no_write logs)
  \/ (exists written_text,
         modify p c w0 = (Ret true, written p written_text (emit (Read p) w0))).
Proof.
  intros [[Hext _]|Hext].
  - rewrite (modify_json _ _ Hext), modifyAppJson_spec.
    destruct (read_result w0 p) as [e|content]; [left; eauto|].
    destruct (JSON_parse content) as [config|]; [|left; eauto].
    destruct (patch config c) as [e|[config'|]]; [left; eauto| |].
    + destruct (can_write w0 p); [right; right; eauto|left; eauto].
    + right. left. exists [Log already_json].
      split; [unfold emit; now rewrite emits_emits|reflexivity].
  - rewrite (modify_js _ _ Hext), modifyAppConfigJs_spec.
    destruct (read_result w0 p) as [e|content]; [left; eauto|].
    destruct (includes content plugin_name).
    { right. left. exists [Log (already_js p)]. split; reflexivity. }
    destruct (patch_text content c) as [content'|].
    + destruct (can_write w0 p); [right; right; eauto|left; eauto].
    + right. left. exists (manual_logs p c). split; reflexivity.
Qed.

Lemma no_write_not_in (evs : list event) (p : path) (text : jsstring) :
  no_write evs -> ~ In (Write p text) evs.
Proof.
  unfold no_write. rewrite forallb_forall. intros H Hin.
  specialize (H _ Hin). discriminate.
Qed.

(** A run that ends normally after a write is a run whose patcher
    returned true. *)
Lemma patched_run (options : ApplyOptions) (w w1 : world) (p : path)
    (c : ColorSpace) (evs : list event) (text : jsstring) :
  config_file w = Some p -> chosen options w c ->
  apply options w = (Ret tt, w1) ->
  trace w1 = trace w ++ evs -> In (Write p text) evs ->
  exists written_text,
    modify p c (after_choice options w p)
    = (Ret true, written p written_text
                   (emit (Read p) (after_choice options w p)))
    /\ w1 = emits (success_logs c)
                  (written p written_text
                     (emit (Read p) (after_choice options w p))).
Proof.
  intros Hp Hc Ha Ht Hin. rewrite (apply_chosen _ _ _ _ Hp Hc) in Ha.
  destruct (modify_cases p c (after_choice options w p)
              (config_file_extension w p Hp))
    as [[e Hm]|[(logs & Hm & Hn)|[written_text Hm]]]; rewrite Hm in Ha.
  - discriminate.
  - injection Ha as <-. exfalso.
    cbn [emits after_choice trace] in Ht. rewrite <- app_assoc in Ht.
    apply app_inv_head in Ht. subst evs.
    revert Hin. apply no_write_not_in. apply no_write_app.
    + apply before_patch_no_write.
    + exact Hn.
  - injection Ha as <-. eauto.
Qed.

Lemma entry_text_includes (c : ColorSpace) :
  exists a b, pluginEntry c = a ++ plugin_name ++ b.
Proof.
  exists (jsq "['"), (jsq "', { 'colorSpace': '" ++ text c ++ jsq "' }]").
  reflexivity.
Qed.

Lemma patched_text_includes (content content' : jsstring) (c : ColorSpace) :
  patch_text content c = Some content' ->
  includes content' plugin_name = true.
Proof.
  destruct (entry_text_includes c) as (x & y & Hentry).
  assert (Hins : forall b m a pre post,
             includes (b ++ m ++ (pre ++ pluginEntry c ++ post) ++ a) plugin_name
             = true).
  { intros b m a pre post. apply includes_app.
    exists (b ++ m ++ pre ++ x), (y ++ post ++ a).
    rewrite Hentry, <- !app_assoc. reflexivity. }
  unfold patch_text, insertion_list, insertion_decl.
  destruct (search pluginsArrayRegex content) as [[[b m] a]|].
  { intros [= <-]. apply (Hins b m a (nl ++ lit "      ") (lit ",")). }
  destruct (search pluginsArrayJsonRegex content) as [[[b m] a]|].
  { intros [= <-]. apply (Hins b m a (nl ++ lit "      ") (lit ",")). }
  destruct (search expoObjectRegex content) as [[[b m] a]|]; [|discriminate].
  intros [= <-].
  apply (Hins b m a (nl ++ lit "    plugins: [" ++ nl ++ lit "      ")
              (nl ++ lit "    ],")).
Qed.

Lemma written_inj (p : path) (t1 t2 : jsstring) (wA : world) :
  (@Ret bool true, written p t1 wA) = (Ret true, written p t2 wA) -> t1 = t2.
Proof.
  intros H. apply (f_equal (fun r => trace (snd r))) in H.
  cbn [snd written trace] in H. apply app_inv_head in H. now injection H.
Qed.

(** What a successful patcher wrote is detected by either patcher. *)
Lemma patched_then_detected (p : path) (c1 c2 : ColorSpace) (w0 wB : world)
    (written_text : jsstring) :
  known_extension p ->
  (extname p = lit ".json" -> object_shaped_file w0 p = true) ->
  modify p c1 w0 = (Ret true, written p written_text (emit (Read p) w0)) ->
  lookup p (files wB) = Some written_text ->
  modify p c2 wB = (Ret false, emits [Read p; already_log p] wB).
Proof.
  intros [[Hext Hbase]|Hext] Hshape Hm HB.
  - specialize (Hshape Hext). unfold object_shaped_file in Hshape.
    destruct (lookup p (files w0)) as [content|] eqn:Hl0; [|discriminate].
    rewrite (modify_json _ _ Hext), (modifyAppJson_file _ _ _ _ Hl0) in Hm.
    rewrite (modify_json _ _ Hext), (modifyAppJson_file _ _ _ _ HB).
    destruct (JSON_parse content) as [config|] eqn:Hparse; [|discriminate].
    destruct config as [| | | | |props]; try discriminate.
    cbn [object_shaped] in Hshape. apply negb_true_iff in Hshape.
    destruct (patch (VObj props) c1) as [e|[config'|]] eqn:Hpatch;
      try discriminate.
    assert (Htext : written_text = JSON_stringify config' 2 ++ nl)
      by (symmetry; exact (written_inj _ _ _ _ Hm)).
    destruct (patch_object props c1 config' Hshape Hpatch)
      as (props' & eprops & old & ps & -> & He & Hpl & _ & _ & Hwf & _).
    destruct (Hwf (parse_wf _ _ Hparse)) as [Hwf' ->].
    rewrite Htext, (parse_stringify _ Hwf').
    rewrite (patch_detects props' eprops (old ++ [entry c1]) [] c2 He Hpl
               (detected_after_push old [] c1)).
    unfold already_log, already_json. rewrite Hbase. unfold emit.
    now rewrite emits_emits.
  - clear Hshape.
    rewrite (modify_js _ _ Hext), modifyAppConfigJs_spec in Hm.
    rewrite (modify_js _ _ Hext), (modifyAppConfigJs_file _ _ _ _ HB).
    destruct (read_result w0 p) as [e|content]; [discriminate|].
    destruct (includes content plugin_name); [discriminate|].
    assert (Hinc : includes written_text plugin_name = true).
    { apply (patched_text_includes content written_text c1).
      destruct (patch_text content c1) as [content'|]; [|discriminate].
      destruct (can_write w0 p); [|discriminate].
      f_equal. exact (written_inj _ _ _ _ Hm). }
    rewrite Hinc. unfold already_log, already_js. cbn [join].
    now rewrite <- !app_assoc.
Qed.

(** C1, as stated, fails: on the document whose [expo] is an array
    the first run reports a success and writes a file without the
    entry; the second run detects nothing and writes the file
    again. *)
Lemma idempotence_counterexample :
  ~ second_run_is_silent (project "app.json" array_expo)
      (mkOptions (Some SRGB) None) (mkOptions (Some displayP3) None).
Proof.
  intros H.
  destruct (H app_json
              (snd (apply (mkOptions (Some SRGB) None)
                      (project "app.json" array_expo)))
              (trace (snd (apply (mkOptions (Some SRGB) None)
                             (project "app.json" array_expo))))
              (jsq "{" ++ nl ++ jsq "  'expo': []" ++ nl ++ jsq "}" ++ nl)
              eq_refl eq_refl eq_refl)
    as (w2 & evs2 & Ha & _ & Ht & Hn & _).
  - vm_compute. auto 10.
  - vm_compute in Ha. injection Ha as <-.
    vm_compute in Ht. repeat (injection Ht as Ht). subst evs2.
    vm_compute in Hn. discriminate.
Qed.

(** C1 (amended): for a code-format file, and for a data-format file
    whose document is an object whose [expo] is not an array, a run
    that ends normally after writing the file is followed, whatever
    the colour space of the second run, by a run that ends normally,
    leaves every file as the first run left it, writes nothing and
    reports that the plugin is already configured. *)
Theorem idempotence (w w1 : world) (p : path) (o1 o2 : ApplyOptions)
    (c1 c2 : ColorSpace) (evs1 : list event) (text1 : jsstring) :
  config_file w = Some p ->
  (extname p = lit ".json" -> object_shaped_file w p = true) ->
  chosen o1 w c1 ->
  apply o1 w = (Ret tt, w1) ->
  trace w1 = trace w ++ evs1 -> In (Write p text1) evs1 ->
  chosen o2 w1 c2 ->
  exists w2 evs2,
    apply o2 w1 = (Ret tt, w2)
    /\ files w2 = files w1
    /\ trace w2 = trace w1 ++ evs2
    /\ no_write evs2
    /\ In (already_log p) evs2.
Proof.
  intros Hp Hshape Hc1 Ha Ht Hin Hc2.
  destruct (patched_run o1 w w1 p c1 evs1 text1 Hp Hc1 Ha Ht Hin)
    as (written_text & Hm & Hw1).
  destruct (config_file_cases w p Hp) as [Hd _].
  assert (Hp1 : config_file w1 = Some p).
  { rewrite <- Hp, Hw1. unfold config_file.
    cbn [emits written emit after_choice cwd].
    f_equal. apply probe_ext. intros q.
    apply (on_disk_store w _ p q written_text Hd); reflexivity. }
  assert (Hl1 : lookup p (files (after_choice o2 w1 p)) = Some written_text).
  { rewrite Hw1. cbn [emits written emit after_choice files].
    apply lookup_store_same. }
  pose proof (patched_then_detected p c1 c2 (after_choice o1 w p)
                (after_choice o2 w1 p) written_text
                (config_file_extension w p Hp) Hshape Hm Hl1) as Hm2.
  rewrite (apply_chosen _ _ _ _ Hp1 Hc2), Hm2.
  eexists. exists (before_patch o2 w1 p ++ [Read p; already_log p]).
  split; [reflexivity|]. split; [reflexivity|].
  split; [cbn; now rewrite <- !app_assoc|]. split.
  - apply no_write_app; [apply before_patch_no_write|reflexivity].
  - apply in_or_app. right. cbn. auto.
Qed.

Lemma idempotence_witness :
  exists w2 evs2,
    apply (mkOptions (Some displayP3) None) first_run_json = (Ret tt, w2)
    /\ files w2 = files first_run_json
    /\ trace w2 = trace first_run_json ++ evs2
    /\ no_write evs2
    /\ In (already_log app_json) evs2.
Proof.
  refine (idempotence (project "app.json" scenario_json) first_run_json
            app_json (mkOptions (Some SRGB) None)
            (mkOptions (Some displayP3) None) SRGB displayP3
            (trace first_run_json) scenario_json_written
            eq_refl (fun _ => eq_refl) (or_introl eq_refl) eq_refl eq_refl _
            (or_introl eq_refl)).
  vm_compute. auto 10.
Defined.

(** The same on the code format: the second run leaves the patched
    text alone. *)
Example idempotence_js :
  exists w1 w2,
    apply (mkOptions (Some displayP3) None)
          (project "app.config.js" scenario_js) = (Ret tt, w1)
    /\ apply (mkOptions (Some SRGB) None) w1 = (Ret tt, w2)
    /\ files w2 = files w1
    /\ In (already_log app_config_js) (trace w2).
Proof.
  eexists. eexists. split; [reflexivity|]. split; [reflexivity|].
  split; [reflexivity|]. vm_compute. auto 20.
Qed.

(* ================================================================= *)
(** ** The prompt and the detection *)

Lemma detected_modify (p : path) (c : ColorSpace) (wB : world)
    (content : jsstring) :
  known_extension p ->
  lookup p (files wB) = Some content ->
  entry_present p content = true ->
  modify p c wB = (Ret false, emits [Read p; already_log p] wB).
Proof.
  unfold entry_present. intros [[Hext Hbase]|Hext] Hl.
  - rewrite (modify_json _ _ Hext), (modifyAppJson_file _ _ _ _ Hl), Hext.
    cbn [str_eqb]. rewrite str_eqb_refl.
    destruct (JSON_parse content) as [config|]; [|discriminate].
    destruct (patch config displayP3) as [e|[config'|]] eqn:Hpatch;
      try discriminate.
    intros _. rewrite (patch_none_any config displayP3 c Hpatch).
    unfold already_log, already_json. rewrite Hbase. unfold emit.
    now rewrite emits_emits.
  - rewrite (modify_js _ _ Hext), (modifyAppConfigJs_file _ _ _ _ Hl).
    replace (str_eqb (extname p) (lit ".json")) with false
      by (destruct Hext as [-> | ->]; reflexivity).
    intros ->. unfold already_log, already_js. cbn [join].
    now rewrite <- !app_assoc.
Qed.

(** C9, as stated, fails: the question is asked as soon as the file
    is found, before the file is read; the entry being there changes
    nothing to that. *)
Lemma detection_precedes_prompting_counterexample :
  ~ prompt_skipped (interactive "app.json" configured_json [lit "1"]).
Proof.
  intros H.
  destruct (H app_json configured_json eq_refl eq_refl eq_refl)
    as (w' & evs & Ha & Ht & _ & Hq).
  vm_compute in Ha. injection Ha as <-.
  vm_compute in Ht. subst evs.
  apply (Hq prompt_text). vm_compute. auto 10.
Qed.

(* ================================================================= *)
(** ** The colour-space flag *)

Lemma split_no_separator (sep : jschar) (s : jsstring) :
  ~ In sep s -> split sep s = [s].
Proof.
  induction s as [|c s IH]; intros H; [reflexivity|]. cbn [split].
  destruct (N.eqb_spec c sep) as [->|Hne].
  - exfalso. apply H. now left.
  - rewrite IH; [reflexivity|]. intros Hin. apply H. now right.
Qed.

(** A value without an equals sign that is neither of the two names
    is refused before any file is probed, read or written. *)
Lemma invalid_flag_rejected (value : jsstring) (w : world) :
  ~ In 61 value ->
  value <> lit "displayP3" -> value <> lit "SRGB" ->
  main [lit "apply"; lit "--colorSpace=" ++ value] w
  = (Exit 1, emit invalid_flag_log w).
Proof.
  intros Hsep H1 H2. unfold main. cbn [nth_error].
  rewrite str_eqb_refl. cbn [find].
  change (startsWith (lit "apply") (lit "--colorSpace=")) with false.
  cbv iota.
  replace (startsWith (lit "--colorSpace=" ++ value) (lit "--colorSpace="))
    with true by (symmetry; apply startsWith_app; now exists value).
  replace (split 61 (lit "--colorSpace=" ++ value))
    with [lit "--colorSpace"; value].
  - cbn [nth_error]. apply str_eqb_neq in H1, H2. rewrite H1, H2. reflexivity.
  - change (lit "--colorSpace=" ++ value)
      with (lit "--colorSpace" ++ 61 :: value).
    cbn. rewrite (split_no_separator 61 value Hsep).
    reflexivity.
Qed.

(** C7 fails on the code: the value is what stands between the first
    and the second equals sign of the argument, so that
    [--colorSpace=SRGB=x], whose value [SRGB=x] is not one of the two
    names, is taken as [SRGB]: the configuration file is read and
    written and the run ends with the exit code 0. *)
Theorem extra_equals_sign_accepted :
  exists w' written_text,
    main [lit "apply"; lit "--colorSpace=SRGB=x"]
         (project "app.json" scenario_json) = (Ret tt, w')
    /\ exit_code (fst (main [lit "apply"; lit "--colorSpace=SRGB=x"]
                            (project "app.json" scenario_json))) = Some 0%Z
    /\ In (Read app_json) (trace w')
    /\ In (Write app_json written_text) (trace w')
    /\ lookup app_json (files w') = Some written_text
    /\ holds_entry_once SRGB written_text.
Proof.
  eexists. eexists. split; [reflexivity|]. split; [reflexivity|].
  split; [vm_compute; auto 10|]. split; [vm_compute; auto 10|].
  split; [reflexivity|].
  eexists. exists [entry SRGB], [], [].
  split; [vm_compute; reflexivity|]. split; [reflexivity|].
  split; [reflexivity|]. split; intros [].
Qed.

(* ================================================================= *)
(** ** The selection of the configuration file *)

Lemma probe_first (d : jsstring) (present : path -> bool)
    (l : list jsstring) :
  match probe d present l with
  | (Some p, evs) =>
      exists earlier file later,
        l = earlier ++ file :: later
        /\ p = path_join d file
        /\ present p = true
        /\ (forall f, In f earlier -> present (path_join d f) = false)
        /\ evs = map (probe_of d) (earlier ++ [file])
  | (None, evs) =>
      (forall f, In f l -> present (path_join d f) = false)
      /\ evs = map (probe_of d) l
  end.
Proof.
  induction l as [|file r IH]; cbn [probe].
  - split; [intros f []|reflexivity].
  - destruct (present (path_join d file)) eqn:E.
    + exists [], file, r. repeat split; auto. intros f [].
    + destruct (probe d present r) as [[p|] evs].
      * destruct IH as (earlier & file' & later & -> & -> & He & Hn & ->).
        exists (file :: earlier), file', later.
        split; [reflexivity|]. split; [reflexivity|]. split; [exact He|].
        split; [|reflexivity].
        intros f [<-|Hin]; [exact E|now apply Hn].
      * destruct IH as [Hn ->]. split; [|reflexivity].
        intros f [<-|Hin]; [exact E|now apply Hn].
Qed.

(** X1 ([detectConfigFile], lines 17-28): the candidates are probed in
    the order [app.json], [app.config.js], [app.config.ts] in the
    working directory, and the probing stops at the first one at
    which there is something (a file or a directory), which is the
    result; when there is nothing at any of them the three are probed
    and the result is [null]. The call changes no file and reads no
    line of the standard input. *)
Theorem detection_priority (w : world) :
  detectConfigFile w =
  if on_disk w (mkPath (cwd w) (lit "app.json"))
  then (Ret (Some (mkPath (cwd w) (lit "app.json"))),
        emits [Exists (mkPath (cwd w) (lit "app.json"))] w)
  else if on_disk w (mkPath (cwd w) (lit "app.config.js"))
  then (Ret (Some (mkPath (cwd w) (lit "app.config.js"))),
        emits [Exists (mkPath (cwd w) (lit "app.json"));
               Exists (mkPath (cwd w) (lit "app.config.js"))] w)
  else if on_disk w (mkPath (cwd w) (lit "app.config.ts"))
  then (Ret (Some (mkPath (cwd w) (lit "app.config.ts"))),
        emits [Exists (mkPath (cwd w) (lit "app.json"));
               Exists (mkPath (cwd w) (lit "app.config.js"));
               Exists (mkPath (cwd w) (lit "app.config.ts"))] w)
  else (Ret None,
        emits [Exists (mkPath (cwd w) (lit "app.json"));
               Exists (mkPath (cwd w) (lit "app.config.js"));
               Exists (mkPath (cwd w) (lit "app.config.ts"))] w).
Proof.
  rewrite detectConfigFile_spec. unfold config_file, probes, configFiles.
  cbn [probe]. unfold path_join.
  destruct (on_disk w (mkPath (cwd w) (lit "app.json"))); [reflexivity|].
  destruct (on_disk w (mkPath (cwd w) (lit "app.config.js"))); [reflexivity|].
  destruct (on_disk w (mkPath (cwd w) (lit "app.config.ts"))); reflexivity.
Qed.

Example three_configs_detection :
  detectConfigFile three_configs
  = (Ret (Some app_json), emits [Exists app_json] three_configs).
Proof. reflexivity. Qed.

Lemma config_file_none (w : world) :
  (forall f, In f configFiles -> on_disk w (path_join (cwd w) f) = false) ->
  config_file w = None /\ probes w = map (probe_of (cwd w)) configFiles.
Proof.
  intros H. unfold config_file, probes.
  pose proof (probe_first (cwd w) (on_disk w) configFiles) as Hp.
  destruct (probe (cwd w) (on_disk w) configFiles) as [[p|] evs].
  - destruct Hp as (earlier & file & later & Hl & -> & He & _).
    rewrite H in He; [discriminate|].
    rewrite Hl. apply in_or_app. right. now left.
  - destruct Hp as [_ ->]. auto.
Qed.

(** X2 ([apply], lines 167-173): in a directory in which there is
    nothing at any of the three candidates the run, whatever its
    options, probes the three, prints the two lines on the error
    output and ends with the exit code 1; no question is asked, no
    line of the standard input is consumed, no file is read or
    written. *)
Theorem missing_config_exit (options : ApplyOptions) (w : world) :
  (forall f, In f configFiles -> on_disk w (path_join (cwd w) f) = false) ->
  apply options w
  = (Exit 1, emits (map (probe_of (cwd w)) configFiles ++ not_found_logs) w)
  /\ exit_code (fst (apply options w)) = Some 1%Z.
Proof.
  intros H. destruct (config_file_none w H) as [Hc Hp].
  rewrite apply_spec, Hc, Hp. split; reflexivity.
Qed.

Lemma missing_config_exit_witness :
  apply noOptions (empty_directory [lit "2"])
  = (Exit 1, emits (map (probe_of (cwd (empty_directory [lit "2"]))) configFiles
                    ++ not_found_logs) (empty_directory [lit "2"]))
  /\ exit_code (fst (apply noOptions (empty_directory [lit "2"]))) = Some 1%Z.
Proof.
  apply (missing_config_exit noOptions (empty_directory [lit "2"])).
  intros f _. reflexivity.
Defined.

(* ================================================================= *)
(** ** The answer to the prompt *)

Lemma trimStart_spaces (ws s : jsstring) :
  forallb is_space ws = true -> trimStart (ws ++ s) = trimStart s.
Proof.
  induction ws as [|c r IH]; cbn [forallb app trimStart]; [reflexivity|].
  intros H. apply andb_true_iff in H as [Hc Hr]. rewrite Hc. now apply IH.
Qed.

Lemma trimStart_split (s : jsstring) :
  exists ws, forallb is_space ws = true /\ s = ws ++ trimStart s.
Proof.
  induction s as [|c r IH]; cbn [trimStart].
  - now exists [].
  - destruct (is_space c) eqn:E.
    + destruct IH as (ws & Hw & Hr). exists (c :: ws).
      cbn [forallb app]. rewrite E, Hw. split; [reflexivity|]. now rewrite <- Hr.
    + now exists [].
Qed.

Lemma forallb_rev {A : Type} (f : A -> bool) (l : list A) :
  forallb f (rev l) = forallb f l.
Proof.
  induction l as [|x r IH]; cbn [rev forallb]; [reflexivity|].
  rewrite forallb_app, IH. cbn [forallb]. rewrite andb_true_r. apply andb_comm.
Qed.

(** [trim] removes white space at both ends and nothing else. *)
Lemma trim_split (s : jsstring) :
  exists ws1 ws2,
    forallb is_space ws1 = true /\ forallb is_space ws2 = true
    /\ s = ws1 ++ trim s ++ ws2.
Proof.
  unfold trim.
  destruct (trimStart_split s) as (ws1 & H1 & E1).
  destruct (trimStart_split (rev (trimStart s))) as (ws2 & H2 & E2).
  exists ws1, (rev ws2). split; [exact H1|]. split; [now rewrite forallb_rev|].
  rewrite <- rev_app_distr, <- E2, rev_involutive. exact E1.
Qed.

Lemma trim_one (ws1 ws2 : jsstring) (c : jschar) :
  forallb is_space ws1 = true -> forallb is_space ws2 = true ->
  is_space c = false ->
  trim (ws1 ++ [c] ++ ws2) = [c].
Proof.
  intros H1 H2 Hc. unfold trim. rewrite (trimStart_spaces _ _ H1).
  cbn [app trimStart]. rewrite Hc.
  change (c :: ws2) with ([c] ++ ws2). rewrite rev_app_distr.
  rewrite trimStart_spaces by now rewrite forallb_rev.
  cbn [rev app trimStart]. now rewrite Hc.
Qed.

(** X3 ([promptColorSpace], lines 33-49): the prompt prints its three
    lines, asks its question and consumes one line of the standard
    input. The answer is [SRGB] exactly when that line is the digit 2
    with nothing but white space around it; every other line, the
    empty one included, gives [displayP3]. *)
Theorem prompt_choice (w : world) (answer : jsstring) (rest : list jsstring) :
  stdin w = answer :: rest ->
  exists c,
    promptColorSpace w
    = (Ret c, mkWorld (cwd w) (files w) (others w) (diagnostics w) rest
                      (trace w ++ prompt_events))
    /\ (c = SRGB <->
        exists ws1 ws2,
          forallb is_space ws1 = true /\ forallb is_space ws2 = true
          /\ answer = ws1 ++ lit "2" ++ ws2)
    /\ (c <> SRGB -> c = displayP3).
Proof.
  intros Hs. exists (choice answer). rewrite promptColorSpace_spec, Hs.
  split; [reflexivity|]. split.
  - unfold choice. destruct (str_eqb (trim answer) (lit "2")) eqn:E.
    + split; [intros _|reflexivity].
      apply str_eqb_eq in E.
      destruct (trim_split answer) as (ws1 & ws2 & H1 & H2 & Ha).
      exists ws1, ws2. rewrite <- E. auto.
    + split; [discriminate|]. intros (ws1 & ws2 & H1 & H2 & ->).
      change (lit "2") with [50] in E.
      rewrite (trim_one ws1 ws2 50 H1 H2 eq_refl) in E. discriminate.
  - destruct (choice answer); [reflexivity|congruence].
Qed.

Lemma prompt_choice_witness :
  exists c,
    promptColorSpace (interactive "app.json" scenario_json [lit " 2 "; lit "1"])
    = (Ret c,
       mkWorld (cwd (interactive "app.json" scenario_json [lit " 2 "; lit "1"]))
               (files (interactive "app.json" scenario_json [lit " 2 "; lit "1"]))
               (others (interactive "app.json" scenario_json [lit " 2 "; lit "1"]))
               (diagnostics
                  (interactive "app.json" scenario_json [lit " 2 "; lit "1"]))
               [lit "1"]
               (trace (interactive "app.json" scenario_json [lit " 2 "; lit "1"])
                ++ prompt_events))
    /\ (c = SRGB <->
        exists ws1 ws2,
          forallb is_space ws1 = true /\ forallb is_space ws2 = true
          /\ lit " 2 " = ws1 ++ lit "2" ++ ws2)
    /\ (c <> SRGB -> c = displayP3).
Proof.
  apply (prompt_choice
           (interactive "app.json" scenario_json [lit " 2 "; lit "1"])
           (lit " 2 ") [lit "1"]).
  reflexivity.
Defined.

(* ================================================================= *)
(** ** The command line *)

Lemma find_first {A : Type} (f : A -> bool) (pre : list A) (x : A)
    (post : list A) :
  (forall a, In a pre -> f a = false) -> f x = true ->
  find f (pre ++ x :: post) = Some x.
Proof.
  intros Hpre Hx. induction pre as [|a r IH]; cbn [app find].
  - now rewrite Hx.
  - rewrite (Hpre a (or_introl eq_refl)). apply IH.
    intros b Hb. apply Hpre. now right.
Qed.

Lemma find_absent {A : Type} (f : A -> bool) (l : list A) :
  (forall a, In a l -> f a = false) -> find f l = None.
Proof.
  intros H. induction l as [|a r IH]; cbn [find]; [reflexivity|].
  rewrite (H a (or_introl eq_refl)). apply IH.
  intros b Hb. apply H. now right.
Qed.

Lemma split_at_separator (sep : jschar) (v tail : jsstring) :
  ~ In sep v -> split sep (v ++ sep :: tail) = v :: split sep tail.
Proof.
  induction v as [|c v IH]; intros H; cbn [app split].
  - now rewrite N.eqb_refl.
  - destruct (N.eqb_spec c sep) as [->|Hne].
    + exfalso. apply H. now left.
    + rewrite IH; [reflexivity|]. intros Hin. apply H. now right.
Qed.

(** The value of the flag is what stands between the first equals
    sign of the argument and the next one. *)
Lemma flag_value (v tail : jsstring) :
  ~ In 61 v -> cut_at_equals tail = true ->
  nth_error (split 61 (flag_prefix ++ v ++ tail)) 1 = Some v.
Proof.
  intros Hv Ht.
  change (flag_prefix ++ v ++ tail)
    with (lit "--colorSpace" ++ 61 :: (v ++ tail)).
  rewrite split_at_separator.
  - cbn [nth_error]. destruct tail as [|c t].
    + rewrite app_nil_r, (split_no_separator 61 v Hv). reflexivity.
    + cbn [cut_at_equals] in Ht. apply N.eqb_eq in Ht. subst c.
      now rewrite (split_at_separator 61 v t Hv).
  - cbn. intros H. repeat (destruct H as [H|H]; [discriminate H|]). exact H.
Qed.

(** [main] on the command [apply], with the options parsed. *)
Lemma main_apply (rest : list jsstring) (w : world) :
  main (lit "apply" :: rest) w =
  match find (fun arg => startsWith arg flag_prefix) rest with
  | Some colorSpaceArg =>
      match nth_error (split 61 colorSpaceArg) 1 with
      | Some value =>
          if str_eqb value (lit "displayP3")
          then apply (mkOptions (Some displayP3) None) w
          else if str_eqb value (lit "SRGB")
               then apply (mkOptions (Some SRGB) None) w
               else (Exit 1, emit invalid_flag_log w)
      | None => (Exit 1, emit invalid_flag_log w)
      end
  | None => apply noOptions w
  end.
Proof.
  unfold main.
  change (nth_error (lit "apply" :: rest) 0%nat) with (Some (lit "apply")).
  cbv beta iota zeta. rewrite str_eqb_refl. cbn [find].
  change (startsWith (lit "apply") (lit "--colorSpace=")) with false.
  cbv iota. unfold flag_prefix.
  destruct (find (fun arg => startsWith arg (lit "--colorSpace=")) rest)
    as [colorSpaceArg|]; [|reflexivity].
  destruct (nth_error (split 61 colorSpaceArg) 1) as [value|]; [|reflexivity].
  destruct (str_eqb value (lit "displayP3")); [reflexivity|].
  destruct (str_eqb value (lit "SRGB")); reflexivity.
Qed.

Lemma flag_found (pre post : list jsstring) (v : jsstring) :
  (forall a, In a pre -> startsWith a flag_prefix = false) ->
  find (fun arg => startsWith arg flag_prefix) (pre ++ (flag_prefix ++ v) :: post)
  = Some (flag_prefix ++ v).
Proof.
  intros Hpre. apply find_first; [exact Hpre|].
  apply startsWith_app. now exists v.
Qed.

Lemma text_no_equals (c : ColorSpace) : ~ In 61 (text c).
Proof.
  destruct c; cbn; intros H;
    repeat (destruct H as [H|H]; [discriminate H|]); exact H.
Qed.

(** X4 ([main], lines 207-210 and 226-235): when the first argument is
    not [apply], or there is none, [main] prints the eight lines of
    the usage and returns; the other arguments are not looked at, no
    file is probed, read or written and the exit code is 0. *)
Theorem usage_printed (args : list jsstring) (w : world) :
  hd_error args <> Some (lit "apply") ->
  main args w = (Ret tt, emits usage_logs w)
  /\ exit_code (fst (main args w)) = Some 0%Z.
Proof.
  intros H.
  assert (Hm : main args w = (Ret tt, emits usage_logs w)).
  { assert (Hcmd : match hd_error args with
                   | Some cmd => str_eqb cmd (lit "apply")
                   | None => false
                   end = false).
    { destruct args as [|cmd rest]; [reflexivity|]. cbn [hd_error] in *.
      apply str_eqb_neq. congruence. }
    unfold main. destruct args as [|cmd rest]; cbn [nth_error hd_error] in *;
      [|rewrite Hcmd];
      unfold bind, console_log, emit; cbv beta iota; cbn [join];
      rewrite !emits_emits; reflexivity. }
  rewrite Hm. split; reflexivity.
Qed.

Lemma usage_printed_witness :
  main [lit "help"; lit "--colorSpace=bogus"] (project "app.json" scenario_json)
  = (Ret tt, emits usage_logs (project "app.json" scenario_json))
  /\ exit_code (fst (main [lit "help"; lit "--colorSpace=bogus"]
                          (project "app.json" scenario_json))) = Some 0%Z.
Proof.
  apply (usage_printed [lit "help"; lit "--colorSpace=bogus"]
           (project "app.json" scenario_json)).
  cbn. discriminate.
Defined.

(** X5 ([main], lines 214-218 and 225): after the command [apply], the
    first argument that starts with [--colorSpace=] decides, wherever
    it stands: when its value is one of the two names, [main] is
    [apply] with that colour space. The arguments before and after
    it, a second flag included, and what follows a second equals sign
    in it, are ignored. *)
Theorem flag_selects_colour_space (pre post : list jsstring) (c : ColorSpace)
    (tail : jsstring) (w : world) :
  (forall a, In a pre -> startsWith a flag_prefix = false) ->
  cut_at_equals tail = true ->
  main (lit "apply" :: pre ++ (flag_prefix ++ text c ++ tail) :: post) w
  = apply (mkOptions (Some c) None) w.
Proof.
  intros Hpre Ht. rewrite main_apply, (flag_found pre post _ Hpre).
  rewrite (flag_value (text c) tail (text_no_equals c) Ht).
  destruct c; reflexivity.
Qed.

Lemma flag_selects_colour_space_witness :
  main (lit "apply" :: [lit "--verbose"]
          ++ (flag_prefix ++ text SRGB ++ []) :: [lit "--colorSpace=bogus"])
       (project "app.json" scenario_json)
  = apply (mkOptions (Some SRGB) None) (project "app.json" scenario_json).
Proof.
  apply (flag_selects_colour_space [lit "--verbose"]
           [lit "--colorSpace=bogus"] SRGB [] (project "app.json" scenario_json)).
  - intros a [<-|[]]. reflexivity.
  - reflexivity.
Defined.

(** X6 ([main], lines 214-223): when the value of the first
    [--colorSpace=] argument, up to a second equals sign, is none of
    the two names, spelt exactly, [main] prints the line on the error
    output and ends with the exit code 1 before anything else is
    done: no file is probed, read or written and no question is
    asked. The empty value and a name in another case are such
    values. *)
Theorem flag_rejected_first (pre post : list jsstring) (v tail : jsstring)
    (w : world) :
  (forall a, In a pre -> startsWith a flag_prefix = false) ->
  ~ In 61 v -> cut_at_equals tail = true ->
  v <> lit "displayP3" -> v <> lit "SRGB" ->
  main (lit "apply" :: pre ++ (flag_prefix ++ v ++ tail) :: post) w
  = (Exit 1, emit invalid_flag_log w)
  /\ exit_code (fst (main (lit "apply" :: pre ++ (flag_prefix ++ v ++ tail) :: post)
                          w)) = Some 1%Z.
Proof.
  intros Hpre Hv Ht H1 H2.
  assert (Hm : main (lit "apply" :: pre ++ (flag_prefix ++ v ++ tail) :: post) w
               = (Exit 1, emit invalid_flag_log w)).
  { rewrite main_apply, (flag_found pre post _ Hpre), (flag_value v tail Hv Ht).
    apply str_eqb_neq in H1, H2. now rewrite H1, H2. }
  rewrite Hm. split; reflexivity.
Qed.

Lemma flag_rejected_first_witness :
  main (lit "apply" :: [] ++ (flag_prefix ++ lit "srgb" ++ []) :: [])
       (project "app.json" scenario_json)
  = (Exit 1, emit invalid_flag_log (project "app.json" scenario_json))
  /\ exit_code (fst (main (lit "apply" :: [] ++ (flag_prefix ++ lit "srgb" ++ []) :: [])
                          (project "app.json" scenario_json))) = Some 1%Z.
Proof.
  apply (flag_rejected_first [] [] (lit "srgb") []
           (project "app.json" scenario_json)).
  - intros a [].
  - cbn. intros H. repeat (destruct H as [H|H]; [discriminate H|]). exact H.
  - reflexivity.
  - discriminate.
  - discriminate.
Defined.

(** X7 ([main], lines 212-215 and 225): when no argument after [apply]
    starts with [--colorSpace=], [main] is [apply] without options, so
    that the colour space is asked for; the flag spelt in another
    case, or with its value in the next argument, is not seen. *)
Theorem no_flag_no_option (rest : list jsstring) (w : world) :
  (forall a, In a rest -> startsWith a flag_prefix = false) ->
  main (lit "apply" :: rest) w = apply noOptions w.
Proof.
  intros H. rewrite main_apply. now rewrite (find_absent _ rest H).
Qed.

Lemma no_flag_no_option_witness :
  main (lit "apply" :: [lit "--colorSpace"; lit "SRGB"; lit "--colorspace=SRGB"])
       (interactive "app.json" scenario_json [lit "1"])
  = apply noOptions (interactive "app.json" scenario_json [lit "1"]).
Proof.
  apply (no_flag_no_option
           [lit "--colorSpace"; lit "SRGB"; lit "--colorspace=SRGB"]
           (interactive "app.json" scenario_json [lit "1"])).
  intros a [<-|[<-|[<-|[]]]]; reflexivity.
Defined.

(* ================================================================= *)
(** ** The runs of [apply] *)

Lemma logs_no_write (logs : list event) :
  forallb is_log logs = true -> no_write logs.
Proof.
  unfold no_write. rewrite !forallb_forall. intros H e He.
  specialize (H e He). now destruct e.
Qed.

Lemma logs_no_question (logs : list event) :
  forallb is_log logs = true -> no_question logs.
Proof.
  unfold no_question. rewrite !forallb_forall. intros H e He.
  specialize (H e He). now destruct e.
Qed.

Lemma no_question_app (a b : list event) :
  no_question a -> no_question b -> no_question (a ++ b).
Proof. unfold no_question. intros Ha Hb. now rewrite forallb_app, Ha, Hb. Qed.

Lemma probe_no_question (d : jsstring) (present : path -> bool)
    (l : list jsstring) : no_question (snd (probe d present l)).
Proof.
  unfold no_question. induction l as [|file r IH]; cbn; [reflexivity|].
  destruct (present (path_join d file)); [reflexivity|].
  destruct (probe d present r) as [res evs]. exact IH.
Qed.

Lemma no_write_filter (evs : list event) :
  no_write evs -> filter is_write evs = [].
Proof.
  unfold no_write. induction evs as [|e r IH]; cbn [forallb filter];
    [reflexivity|].
  intros H. apply andb_true_iff in H as [He Hr].
  destruct (is_write e); [discriminate|]. now apply IH.
Qed.

(** The three ways in which a patcher ends, with what it prints. *)
Lemma modify_ends (p : path) (c : ColorSpace) (w0 : world) :
  known_extension p ->
  (exists e, modify p c w0 = (Throw e, emit (Read p) w0))
  \/ (exists logs,
         modify p c w0 = (Ret false, emits (Read p :: logs) w0)
         /\ forallb is_log logs = true)
  \/ (exists written_text,
         modify p c w0 = (Ret true, written p written_text (emit (Read p) w0))).
Proof.
  intros [[Hext _]|Hext].
  - rewrite (modify_json _ _ Hext), modifyAppJson_spec.
    destruct (read_result w0 p) as [e|content]; [left; eauto|].
    destruct (JSON_parse content) as [config|]; [|left; eauto].
    destruct (patch config c) as [e|[config'|]]; [left; eauto| |].
    + destruct (can_write w0 p); [right; right; eauto|left; eauto].
    + right. left. exists [Log already_json].
      split; [unfold emit; now rewrite emits_emits|reflexivity].
  - rewrite (modify_js _ _ Hext), modifyAppConfigJs_spec.
    destruct (read_result w0 p) as [e|content]; [left; eauto|].
    destruct (includes content plugin_name).
    { right. left. exists [Log (already_js p)]. split; reflexivity. }
    destruct (patch_text content c) as [content'|].
    + destruct (can_write w0 p); [right; right; eauto|left; eauto].
    + right. left. exists (manual_logs p c). split; reflexivity.
Qed.

(** Every run of [apply]: no configuration file; a prompt that is not
    answered; or a patcher that fails, declines or writes. *)
Lemma apply_runs (options : ApplyOptions) (w : world) :
  (config_file w = None
   /\ apply options w = (Exit 1, emits (probes w ++ not_found_logs) w))
  \/ (exists p,
         config_file w = Some p /\ colorSpace options = None /\ stdin w = []
         /\ apply options w = (Pending, after_choice options w p))
  \/ (exists p c,
         config_file w = Some p /\ chosen options w c
         /\ ((exists e,
                 apply options w
                 = (Exit 1, emits [Read p; error_log e] (after_choice options w p)))
             \/ (exists logs,
                    forallb is_log logs = true
                    /\ apply options w
                       = (Ret tt, emits (Read p :: logs) (after_choice options w p)))
             \/ (exists written_text,
                    apply options w
                    = (Ret tt,
                       emits (success_logs c)
                         (written p written_text
                            (emit (Read p) (after_choice options w p))))))).
Proof.
  destruct (config_file w) as [p|] eqn:Hp.
  2:{ left. split; [reflexivity|]. now rewrite apply_spec, Hp. }
  right.
  destruct (chosen_or_pending options w) as [[c Hc]|[Ho Hs]].
  2:{ left. exists p. split; [reflexivity|]. split; [exact Ho|].
      split; [exact Hs|]. now apply apply_pending. }
  right. exists p, c. split; [reflexivity|]. split; [exact Hc|].
  rewrite (apply_chosen _ _ _ _ Hp Hc).
  destruct (modify_ends p c (after_choice options w p)
              (config_file_extension w p Hp))
    as [[e Hm]|[(logs & Hm & Hl)|[written_text Hm]]]; rewrite Hm.
  - left. exists e. unfold emit. now rewrite emits_emits.
  - right. left. exists logs. auto.
  - right. right. now exists written_text.
Qed.

Lemma before_patch_no_question (options : ApplyOptions) (w : world) (p : path) :
  colorSpace options <> None -> no_question (before_patch options w p).
Proof.
  intros H. unfold before_patch. apply no_question_app; [apply probe_no_question|].
  destruct (colorSpace options); [reflexivity|contradiction].
Qed.

(** X8 ([apply], lines 165-200): no run of [apply] ends with an
    exception. It ends normally, or with the exit code 1, or it stays
    at the prompt; the last happens only when no colour space was
    given, a configuration file exists and the standard input holds
    no line. *)
Theorem apply_never_throws (options : ApplyOptions) (w : world) :
  fst (apply options w) = Ret tt
  \/ fst (apply options w) = Exit 1
  \/ (fst (apply options w) = Pending
      /\ colorSpace options = None /\ stdin w = []
      /\ config_file w <> None).
Proof.
  destruct (apply_runs options w)
    as [[_ H]|[(p & Hp & Ho & Hs & H)
              |(p & c & Hp & Hc & [[e H]|[(logs & _ & H)|[t H]]])]];
    rewrite H; cbn [fst]; auto.
  right. right. rewrite Hp. repeat split; auto. discriminate.
Qed.

(** X9 ([apply], lines 164-201, with both patchers): a run of [apply]
    writes at most once. Either nothing is written and the files are
    as they were, or the run ends normally, its single write is that
    of the selected configuration file, the four lines of the success
    message with the colour space follow the write at once, and every
    other file is as it was. *)
Theorem single_write (options : ApplyOptions) (w : world) :
  exists evs,
    trace (snd (apply options w)) = trace w ++ evs
    /\ cwd (snd (apply options w)) = cwd w
    /\ ((no_write evs /\ files (snd (apply options w)) = files w)
        \/ (exists p c written_text before,
               config_file w = Some p
               /\ chosen options w c
               /\ fst (apply options w) = Ret tt
               /\ files (snd (apply options w)) = store p written_text (files w)
               /\ (forall q, q <> p ->
                     lookup q (files (snd (apply options w))) = lookup q (files w))
               /\ evs = before ++ Write p written_text :: success_logs c
               /\ no_write before)).
Proof.
  destruct (apply_runs options w)
    as [[_ H]|[(p & Hp & Ho & Hs & H)
              |(p & c & Hp & Hc & [[e H]|[(logs & Hl & H)|[t H]]])]];
    rewrite H; cbn [fst snd].
  - exists (probes w ++ not_found_logs). split; [reflexivity|].
    split; [reflexivity|]. left. split; [|reflexivity].
    apply no_write_app; [apply probe_no_write|reflexivity].
  - exists (before_patch options w p). split; [reflexivity|].
    split; [reflexivity|]. left. split; [|reflexivity].
    apply before_patch_no_write.
  - exists (before_patch options w p ++ [Read p; error_log e]).
    split; [cbn [emits after_choice trace]; now rewrite app_assoc|].
    split; [reflexivity|]. left. split; [|reflexivity].
    apply no_write_app; [apply before_patch_no_write|reflexivity].
  - exists (before_patch options w p ++ Read p :: logs).
    split; [cbn [emits after_choice trace]; now rewrite app_assoc|].
    split; [reflexivity|]. left. split; [|reflexivity].
    apply no_write_app; [apply before_patch_no_write|].
    apply (no_write_app [Read p] logs); [reflexivity|now apply logs_no_write].
  - exists (before_patch options w p ++ [Read p]
            ++ Write p t :: success_logs c).
    split.
    { cbn [emits emit written after_choice trace app].
      now rewrite <- !app_assoc. }
    split; [reflexivity|]. right.
    exists p, c, t, (before_patch options w p ++ [Read p]).
    split; [exact Hp|]. split; [exact Hc|]. split; [reflexivity|].
    split; [reflexivity|]. split.
    { intros q Hq. cbn [emits emit written after_choice files].
      now apply lookup_store_other. }
    split; [now rewrite <- app_assoc|].
    apply no_write_app; [apply before_patch_no_write|reflexivity].
Qed.

(** X10 ([apply], line 178): when a colour space is given in the
    options the run asks no question, leaves the standard input as it
    was and does not stay at a prompt. *)
Theorem option_suppresses_prompt (options : ApplyOptions) (w : world)
    (c : ColorSpace) :
  colorSpace options = Some c ->
  fst (apply options w) <> Pending
  /\ stdin (snd (apply options w)) = stdin w
  /\ exists evs,
       trace (snd (apply options w)) = trace w ++ evs /\ no_question evs.
Proof.
  intros Ho.
  assert (Hne : colorSpace options <> None) by congruence.
  assert (Hst : forall p, stdin (after_choice options w p) = stdin w).
  { intros p. unfold after_choice. cbn [stdin]. now rewrite Ho. }
  destruct (apply_runs options w)
    as [[_ H]|[(p & Hp & Ho' & Hs & H)
              |(p & c' & Hp & Hc & [[e H]|[(logs & Hl & H)|[t H]]])]];
    [|congruence| | |]; rewrite H; cbn [fst snd].
  - split; [discriminate|]. split; [reflexivity|].
    exists (probes w ++ not_found_logs). split; [reflexivity|].
    apply no_question_app; [apply probe_no_question|reflexivity].
  - split; [discriminate|]. split; [apply Hst|].
    exists (before_patch options w p ++ [Read p; error_log e]).
    split; [cbn [emits after_choice trace]; now rewrite app_assoc|].
    apply no_question_app; [now apply before_patch_no_question|reflexivity].
  - split; [discriminate|]. split; [apply Hst|].
    exists (before_patch options w p ++ Read p :: logs).
    split; [cbn [emits after_choice trace]; now rewrite app_assoc|].
    apply no_question_app; [now apply before_patch_no_question|].
    apply (no_question_app [Read p] logs);
      [reflexivity|now apply logs_no_question].
  - split; [discriminate|]. split; [apply Hst|].
    exists (before_patch options w p ++ [Read p; Write p t] ++ success_logs c').
    split.
    { cbn [emits emit written after_choice trace app].
      now rewrite <- !app_assoc. }
    apply no_question_app; [now apply before_patch_no_question|].
    destruct c'; reflexivity.
Qed.

Lemma option_suppresses_prompt_witness :
  fst (apply (mkOptions (Some SRGB) None)
         (interactive "app.json" scenario_json [lit "1"])) <> Pending
  /\ stdin (snd (apply (mkOptions (Some SRGB) None)
                   (interactive "app.json" scenario_json [lit "1"])))
     = stdin (interactive "app.json" scenario_json [lit "1"])
  /\ exists evs,
       trace (snd (apply (mkOptions (Some SRGB) None)
                     (interactive "app.json" scenario_json [lit "1"])))
       = trace (interactive "app.json" scenario_json [lit "1"]) ++ evs
       /\ no_question evs.
Proof.
  apply (option_suppresses_prompt (mkOptions (Some SRGB) None)
           (interactive "app.json" scenario_json [lit "1"]) SRGB).
  reflexivity.
Defined.

(* ================================================================= *)
(** ** What the structured patcher writes *)

Lemma serialize_view (gap : jsstring) (v : value) :
  forall indent, serialize gap indent (json_view v) = serialize gap indent v.
Proof.
  induction v as [| | | |elems props IHe _|props IHp] using value_ind;
    intros indent; cbn [json_view serialize]; try reflexivity.
  - f_equal. rewrite map_map. apply map_ext_Forall.
    revert IHe. apply Forall_impl. intros x Hx. apply Hx.
  - f_equal. rewrite map_map. apply map_ext_Forall.
    revert IHp. apply Forall_impl. intros [k x] Hx. cbn [snd] in Hx.
    now rewrite Hx.
Qed.

Lemma stringify_view (v : value) (space : nat) :
  JSON_stringify (json_view v) space = JSON_stringify v space.
Proof. apply serialize_view. Qed.

Lemma wf_tree_view (v : value) : wf_tree v = true -> wf (json_view v) = true.
Proof.
  induction v as [| | | |elems props IHe _|props IHp] using value_ind;
    cbn [json_view wf_tree wf]; try (intros H; exact H).
  - intros H. apply andb_true_iff in H as [He _]. rewrite andb_true_r.
    rewrite forallb_forall in He. apply forallb_forall.
    intros y Hy. apply in_map_iff in Hy as (x & <- & Hx).
    rewrite Forall_forall in IHe. apply IHe; auto.
  - intros H. apply andb_true_iff in H as [Hc Hv].
    apply andb_true_iff. split.
    + rewrite map_map.
      rewrite (map_ext (fun x => fst (let '(k, x0) := x in (k, json_view x0))) fst);
        [exact Hc|]. now intros [k x].
    + rewrite forallb_forall in Hv. apply forallb_forall.
      intros y Hy. apply in_map_iff in Hy as ([k x] & <- & Hx).
      rewrite Forall_forall in IHp. apply (IHp (k, x) Hx).
      apply (Hv (k, x) Hx).
Qed.

Lemma wf_wf_tree (v : value) : wf v = true -> wf_tree v = true.
Proof.
  induction v as [| | | |elems props IHe _|props IHp] using value_ind;
    cbn [wf_tree wf]; try (intros H; exact H).
  - intros H. apply andb_true_iff in H as [He Hp].
    destruct props; [|discriminate]. rewrite andb_true_r.
    rewrite forallb_forall in He. apply forallb_forall.
    rewrite Forall_forall in IHe. auto.
  - intros H. apply andb_true_iff in H as [Hc Hv]. rewrite Hc.
    rewrite forallb_forall in Hv. apply forallb_forall.
    rewrite Forall_forall in IHp. intros [k x] Hx.
    apply (IHp (k, x) Hx). apply (Hv (k, x) Hx).
Qed.

Lemma wf_tree_obj_get (props : properties) (k : jsstring) (x : value) :
  forallb (fun kv => let '(_, y) := kv in wf_tree y) props = true ->
  obj_get k props = Some x -> wf_tree x = true.
Proof.
  induction props as [|[k' y] t IH]; cbn [forallb obj_get]; [discriminate|].
  intros H. apply andb_true_iff in H as [Hy Ht].
  destruct (str_eqb k k'); [now intros [= <-]|now apply IH].
Qed.

Lemma wf_tree_get (v : value) (k : jsstring) (x : value) :
  wf_tree v = true -> get (Some v) k = inr (Some x) -> wf_tree x = true.
Proof.
  destruct v; cbn [get wf_tree]; try discriminate.
  - intros H [= Hg]. apply andb_true_iff in H as [_ H].
    eapply wf_tree_obj_get; eauto.
  - intros H [= Hg]. apply andb_true_iff in H as [_ H].
    eapply wf_tree_obj_get; eauto.
Qed.

Lemma wf_tree_set (v : value) (k : jsstring) (x y : value) :
  wf_tree v = true -> wf_tree x = true -> set (Some v) k x = inr y ->
  wf_tree y = true.
Proof.
  destruct v; cbn [set wf_tree]; try discriminate.
  - intros H Hx [= <-]. apply andb_true_iff in H as [He Hp].
    cbn [wf_tree]. rewrite He. now apply define_forallb.
  - intros H Hx [= <-]. apply andb_true_iff in H as [Hc Hp].
    cbn [wf_tree]. apply andb_true_iff. split.
    + now apply define_canonical.
    + now apply define_forallb.
Qed.

Lemma wf_tree_push (v x y : value) :
  wf_tree v = true -> wf_tree x = true -> push (Some v) x = inr y ->
  wf_tree y = true.
Proof.
  destruct v; cbn [push wf_tree]; try discriminate.
  intros H Hx [= <-]. apply andb_true_iff in H as [He Hp].
  cbn [wf_tree]. rewrite forallb_app, He, Hp. cbn [forallb]. now rewrite Hx.
Qed.

Lemma wf_tree_set2 (config : value) (k1 k2 : jsstring) (x y : value) :
  wf_tree config = true -> wf_tree x = true ->
  set2 config k1 k2 x = inr y -> wf_tree y = true.
Proof.
  intros Hc Hx. unfold set2, bindE.
  destruct (get (Some config) k1) as [e|[inner|]] eqn:Hg; try discriminate.
  destruct (set (Some inner) k2 x) as [e|inner'] eqn:Hs; [discriminate|].
  intros Hy. apply (wf_tree_set config k1 inner' y Hc); [|exact Hy].
  apply (wf_tree_set inner k2 x inner'); auto.
  apply (wf_tree_get config k1 inner Hc Hg).
Qed.

Lemma wf_tree_push2 (config : value) (k1 k2 : jsstring) (x y : value) :
  wf_tree config = true -> wf_tree x = true ->
  push2 config k1 k2 x = inr y -> wf_tree y = true.
Proof.
  intros Hc Hx. unfold push2, bindE.
  destruct (get (Some config) k1) as [e|[inner|]] eqn:Hg; try discriminate.
  destruct (get (Some inner) k2) as [e|[arr|]] eqn:Hg2; try discriminate.
  destruct (push (Some arr) x) as [e|arr'] eqn:Hp; [discriminate|].
  destruct (set (Some inner) k2 arr') as [e|inner'] eqn:Hs; [discriminate|].
  intros Hy.
  pose proof (wf_tree_get config k1 inner Hc Hg) as Hi.
  pose proof (wf_tree_get inner k2 arr Hi Hg2) as Ha.
  apply (wf_tree_set config k1 inner' y Hc); [|exact Hy].
  apply (wf_tree_set inner k2 arr' inner' Hi); [|exact Hs].
  apply (wf_tree_push arr x arr' Ha Hx Hp).
Qed.

Lemma wf_tree_defaults (config config1 : value) :
  wf_tree config = true -> defaults config = inr config1 ->
  wf_tree config1 = true.
Proof.
  intros Hc. unfold defaults, bindE.
  destruct (get (Some config) (lit "expo")) as [e|expo]; [discriminate|].
  destruct (if negb (truthy expo)
            then set (Some config) (lit "expo") (VObj [])
            else inr config) as [e|c1] eqn:H1; [discriminate|].
  assert (Hc1 : wf_tree c1 = true).
  { destruct (negb (truthy expo)).
    - apply (wf_tree_set config (lit "expo") (VObj []) c1 Hc eq_refl H1).
    - now injection H1 as <-. }
  destruct (get (Some c1) (lit "expo")) as [e|expo1]; [discriminate|].
  destruct (get expo1 (lit "plugins")) as [e|plugins]; [discriminate|].
  destruct (negb (truthy plugins)).
  - apply (wf_tree_set2 c1 (lit "expo") (lit "plugins") (VArr [] []) config1
             Hc1 eq_refl).
  - now intros [= <-].
Qed.

Lemma wf_tree_patch (config config' : value) (c : ColorSpace) :
  wf_tree config = true -> patch config c = inr (Some config') ->
  wf_tree config' = true.
Proof.
  intros Hc. unfold patch, bindE.
  destruct (defaults config) as [e|c1] eqn:Hd; [discriminate|].
  pose proof (wf_tree_defaults config c1 Hc Hd) as Hc1.
  destruct (plugins_of c1) as [e|plugins]; [discriminate|].
  destruct (isPluginInConfig plugins); [discriminate|].
  destruct (push2 c1 (lit "expo") (lit "plugins") (entry c)) as [e|c2] eqn:Hp;
    [discriminate|].
  intros [= <-].
  apply (wf_tree_push2 c1 (lit "expo") (lit "plugins") (entry c) c2 Hc1);
    [now destruct c|exact Hp].
Qed.

(** X12 ([modifyAppJson], lines 73-96): whenever the structured
    patcher writes, what it writes is a JSON text: [JSON.parse] reads
    it, and [JSON.stringify] of the document read, with two spaces
    and a line end, is the same text again. *)
Theorem written_file_is_json (p : path) (c : ColorSpace) (w w' : world) :
  modifyAppJson p c w = (Ret true, w') ->
  exists written_text document,
    lookup p (files w') = Some written_text
    /\ JSON_parse written_text = Some document
    /\ JSON_stringify document 2 ++ nl = written_text.
Proof.
  rewrite modifyAppJson_spec.
  destruct (read_result w p) as [e|content]; [discriminate|].
  destruct (JSON_parse content) as [config|] eqn:Hparse; [|discriminate].
  destruct (patch config c) as [e|[config'|]] eqn:Hpatch; try discriminate.
  destruct (can_write w p); [|discriminate].
  intros [= <-].
  exists (JSON_stringify config' 2 ++ nl), (json_view config').
  split; [apply lookup_store_same|].
  split; [|now rewrite stringify_view].
  rewrite <- (stringify_view config' 2).
  apply parse_stringify, wf_tree_view.
  apply (wf_tree_patch config config' c); [|exact Hpatch].
  apply wf_wf_tree. apply (parse_wf content config Hparse).
Qed.

Lemma written_file_is_json_witness :
  exists written_text document,
    lookup app_json
      (files (snd (modifyAppJson app_json SRGB (project "app.json" array_expo))))
    = Some written_text
    /\ JSON_parse written_text = Some document
    /\ JSON_stringify document 2 ++ nl = written_text.
Proof.
  apply (written_file_is_json app_json SRGB (project "app.json" array_expo)
           (snd (modifyAppJson app_json SRGB (project "app.json" array_expo)))).
  reflexivity.
Defined.

(* ================================================================= *)
(** ** The document that the structured patcher writes *)

Lemma define_define (k : jsstring) (v v' : value) (l : properties) :
  obj_define k v (obj_define k v' l) = obj_define k v l.
Proof.
  induction l as [|[k' x] t IH]; cbn [obj_define].
  - now rewrite str_eqb_refl.
  - destruct (str_eqb k k') eqn:E; cbn [obj_define].
    + now rewrite str_eqb_refl.
    + destruct (goes_before k k') eqn:G; cbn [obj_define].
      * now rewrite str_eqb_refl.
      * now rewrite E, G, IH.
Qed.

Lemma goes_before_name (k k' : jsstring) :
  array_index k = None -> goes_before k k' = false.
Proof. unfold goes_before. now intros ->. Qed.


(** A name that is not an array index keeps its place when it is
    there and goes last when it is new. *)
Lemma keys_define (k : jsstring) (v : value) (l : properties) :
  array_index k = None -> keys (obj_define k v l) = add_key k (keys l).
Proof.
  intros Hk. unfold add_key.
  induction l as [|[k' x] t IH]; cbn [obj_define keys map existsb fst app];
    [reflexivity|].
  destruct (str_eqb k k') eqn:E; cbn [orb keys map fst].
  - apply str_eqb_eq in E. now subst k'.
  - rewrite (goes_before_name k k' Hk). cbn [keys map fst].
    fold (keys (obj_define k v t)). rewrite IH. fold (keys t).
    now destruct (existsb (str_eqb k) (keys t)).
Qed.

Lemma obj_get_single (k : jsstring) (v : value) : obj_get k [(k, v)] = Some v.
Proof. cbn [obj_get]. now rewrite str_eqb_refl. Qed.

Lemma define_single (k : jsstring) (v v' : value) :
  obj_define k v [(k, v')] = [(k, v)].
Proof. cbn [obj_define]. now rewrite str_eqb_refl. Qed.

(** [patch] after the two defaults, on a document whose [expo] holds
    an array [plugins]. *)
Lemma patch_ready (config config1 expo : value) (old : list value)
    (ps : properties) (c : ColorSpace) :
  defaults config = inr config1 ->
  get (Some config1) (lit "expo") = inr (Some expo) ->
  get (Some expo) (lit "plugins") = inr (Some (VArr old ps)) ->
  patch config c =
  if isPluginInConfig (Some (VArr old ps)) then inr None
  else bindE (set (Some expo) (lit "plugins") (VArr (old ++ [entry c]) ps))
         (fun expo' =>
            bindE (set (Some config1) (lit "expo") expo')
              (fun config' => inr (Some config'))).
Proof.
  intros Hd He Hp. unfold patch, plugins_of, push2. rewrite Hd.
  repeat (rewrite ?He, ?Hp; cbn [bindE push]).
  destruct (isPluginInConfig (Some (VArr old ps))); [reflexivity|].
  repeat (rewrite ?He, ?Hp; cbn [bindE push]).
  destruct (set (Some expo) (lit "plugins") (VArr (old ++ [entry c]) ps));
    cbn [bindE]; [reflexivity|].
  destruct (set (Some config1) (lit "expo") v); reflexivity.
Qed.

(** The three ways of the defaults on an object. *)
Lemma defaults_absent (props : properties) :
  truthy (obj_get (lit "expo") props) = false ->
  defaults (VObj props)
  = inr (VObj (obj_define (lit "expo") (VObj [(lit "plugins", VArr [] [])]) props)).
Proof.
  intros Ht. unfold defaults, set2. cbn [get bindE]. rewrite Ht.
  cbn [negb set bindE get]. rewrite obj_get_define_same.
  cbn [bindE get obj_get truthy negb set obj_define].
  now rewrite define_define.
Qed.

Lemma defaults_fresh (props : properties) (expo expo' : value) :
  obj_get (lit "expo") props = Some expo ->
  get (Some expo) (lit "plugins") = inr None
  \/ (exists pl, get (Some expo) (lit "plugins") = inr (Some pl)
                 /\ truthy (Some pl) = false) ->
  truthy (Some expo) = true ->
  set (Some expo) (lit "plugins") (VArr [] []) = inr expo' ->
  defaults (VObj props) = inr (VObj (obj_define (lit "expo") expo' props)).
Proof.
  intros He Hp Ht Hs. unfold defaults, set2. cbn [get bindE]. rewrite He, Ht.
  cbn [negb bindE get]. rewrite He. cbn [bindE].
  destruct Hp as [Hp|(pl & Hp & Hf)]; rewrite Hp; cbn [bindE];
    [cbn [truthy]|rewrite Hf]; cbn [negb bindE]; rewrite Hs; reflexivity.
Qed.

Lemma defaults_there (props : properties) (expo pl : value) :
  obj_get (lit "expo") props = Some expo ->
  get (Some expo) (lit "plugins") = inr (Some pl) ->
  truthy (Some pl) = true ->
  defaults (VObj props) = inr (VObj props).
Proof.
  intros He Hp Ht. unfold defaults. cbn [get bindE]. rewrite He.
  assert (Hte : truthy (Some expo) = true).
  { destruct expo; try discriminate; reflexivity. }
  rewrite Hte. cbn [negb bindE get]. rewrite He. cbn [bindE]. rewrite Hp.
  cbn [bindE]. now rewrite Ht.
Qed.

Lemma patch_absent (props : properties) (c : ColorSpace) :
  truthy (obj_get (lit "expo") props) = false ->
  patch (VObj props) c
  = inr (Some (VObj (obj_define (lit "expo")
                       (VObj [(lit "plugins", VArr [entry c] [])]) props))).
Proof.
  intros Ht.
  rewrite (patch_ready (VObj props) _ (VObj [(lit "plugins", VArr [] [])]) [] [] c
             (defaults_absent props Ht)).
  - cbn [isPluginInConfig existsb set bindE app].
    now rewrite define_single, define_define.
  - cbn [get]. now rewrite obj_get_define_same.
  - cbn [get]. now rewrite obj_get_single.
Qed.

Lemma patch_primitive_expo (props : properties) (expo : value) (c : ColorSpace) :
  obj_get (lit "expo") props = Some expo ->
  primitive expo = true -> truthy (Some expo) = true ->
  patch (VObj props) c = inl TypeError.
Proof.
  intros He Hp Ht. unfold patch, defaults, set2. cbn [get bindE].
  rewrite He, Ht. cbn [negb bindE get]. rewrite He. cbn [bindE].
  destruct expo; try discriminate; reflexivity.
Qed.

(** [plugins] is absent or falsy in [expo], an object or an array. *)
Lemma patch_fresh (props : properties) (expo expo1 expo2 : value)
    (c : ColorSpace) :
  obj_get (lit "expo") props = Some expo ->
  truthy (match get (Some expo) (lit "plugins") with
          | inr pl => pl
          | inl _ => None
          end) = false ->
  set (Some expo) (lit "plugins") (VArr [] []) = inr expo1 ->
  set (Some expo) (lit "plugins") (VArr [entry c] []) = inr expo2 ->
  patch (VObj props) c
  = inr (Some (VObj (obj_define (lit "expo") expo2 props))).
Proof.
  intros He Hf Hs1 Hs2.
  assert (Hget : get (Some expo1) (lit "plugins") = inr (Some (VArr [] []))
                 /\ set (Some expo1) (lit "plugins") (VArr [entry c] [])
                    = inr expo2
                 /\ truthy (Some expo) = true
                 /\ (get (Some expo) (lit "plugins") = inr None
                     \/ exists pl, get (Some expo) (lit "plugins") = inr (Some pl)
                                   /\ truthy (Some pl) = false)).
  { destruct expo; try discriminate; cbn [set get] in *;
      injection Hs1 as <-; injection Hs2 as <-; cbn [get set];
      rewrite obj_get_define_same, define_define;
      (split; [reflexivity|]); (split; [reflexivity|]); (split; [reflexivity|]).
    - destruct (obj_get (lit "plugins") props0) as [pl|]; [right|left]; eauto.
    - destruct (obj_get (lit "plugins") props0) as [pl|]; [right|left]; eauto. }
  destruct Hget as (Hg & Hs & Ht & Hp).
  rewrite (patch_ready (VObj props) _ expo1 [] [] c
             (defaults_fresh props expo expo1 He Hp Ht Hs1)).
  - cbn [isPluginInConfig existsb app]. rewrite Hs. cbn [bindE set].
    now rewrite define_define.
  - cbn [get]. now rewrite obj_get_define_same.
  - exact Hg.
Qed.

(** [plugins] is a truthy value that is not an array. *)
Lemma patch_not_array (props : properties) (expo pl : value) (c : ColorSpace) :
  obj_get (lit "expo") props = Some expo ->
  get (Some expo) (lit "plugins") = inr (Some pl) ->
  truthy (Some pl) = true -> isArray (Some pl) = false ->
  patch (VObj props) c = inl TypeError.
Proof.
  intros He Hp Ht Ha. unfold patch.
  rewrite (defaults_there props expo pl He Hp Ht).
  unfold plugins_of, push2.
  repeat (cbn [get bindE]; rewrite ?He, ?Hp).
  destruct pl; try discriminate; reflexivity.
Qed.

(** [plugins] is an array. *)
Lemma patch_list (props : properties) (expo expo' : value) (old : list value)
    (ps : properties) (c : ColorSpace) :
  obj_get (lit "expo") props = Some expo ->
  get (Some expo) (lit "plugins") = inr (Some (VArr old ps)) ->
  set (Some expo) (lit "plugins") (VArr (old ++ [entry c]) ps) = inr expo' ->
  patch (VObj props) c =
  if isPluginInConfig (Some (VArr old ps)) then inr None
  else inr (Some (VObj (obj_define (lit "expo") expo' props))).
Proof.
  intros He Hp Hs.
  rewrite (patch_ready (VObj props) (VObj props) expo old ps c
             (defaults_there props expo _ He Hp eq_refl)
             (f_equal inr He) Hp).
  now rewrite Hs.
Qed.

(** [patch] on an object, by the values of [expo] and of [plugins]. *)
Lemma patch_cases (props : properties) (c : ColorSpace) :
  match obj_get (lit "expo") props with
  | Some (VObj ep) =>
      match obj_get (lit "plugins") ep with
      | Some (VArr old ps) =>
          patch (VObj props) c =
          if isPluginInConfig (Some (VArr old ps)) then inr None
          else inr (Some (VObj (obj_define (lit "expo")
                                  (VObj (obj_define (lit "plugins")
                                           (VArr (old ++ [entry c]) ps) ep))
                                  props)))
      | pl =>
          patch (VObj props) c =
          if truthy pl then inl TypeError
          else inr (Some (VObj (obj_define (lit "expo")
                                  (VObj (obj_define (lit "plugins")
                                           (VArr [entry c] []) ep))
                                  props)))
      end
  | Some (VArr el eps) =>
      match obj_get (lit "plugins") eps with
      | Some (VArr old ps) =>
          patch (VObj props) c =
          if isPluginInConfig (Some (VArr old ps)) then inr None
          else inr (Some (VObj (obj_define (lit "expo")
                                  (VArr el (obj_define (lit "plugins")
                                              (VArr (old ++ [entry c]) ps) eps))
                                  props)))
      | pl =>
          patch (VObj props) c =
          if truthy pl then inl TypeError
          else inr (Some (VObj (obj_define (lit "expo")
                                  (VArr el (obj_define (lit "plugins")
                                              (VArr [entry c] []) eps))
                                  props)))
      end
  | expo =>
      patch (VObj props) c =
      if truthy expo then inl TypeError
      else inr (Some (VObj (obj_define (lit "expo")
                              (VObj [(lit "plugins", VArr [entry c] [])])
                              props)))
  end.
Proof.
  destruct (obj_get (lit "expo") props) as [expo|] eqn:He;
    [|cbn [truthy]; apply patch_absent; now rewrite He].
  assert (Hprim : primitive expo = true ->
            patch (VObj props) c =
            if truthy (Some expo) then inl TypeError
            else inr (Some (VObj (obj_define (lit "expo")
                                    (VObj [(lit "plugins", VArr [entry c] [])])
                                    props)))).
  { intros Hp. destruct (truthy (Some expo)) eqn:Ht.
    - now apply (patch_primitive_expo props expo).
    - apply patch_absent. now rewrite He. }
  destruct expo as [|b|n|s|el eps|ep]; try (apply Hprim; reflexivity); clear Hprim.
  - destruct (obj_get (lit "plugins") eps) as [pl|] eqn:Hpl.
    + destruct (truthy (Some pl)) eqn:Ht.
      * destruct pl as [|b|n|s|old ps|o];
          try discriminate;
          try (rewrite Ht;
               eapply (patch_not_array props (VArr el eps));
               [exact He|cbn [get]; now rewrite Hpl|exact Ht|reflexivity]).
        apply (patch_list props (VArr el eps) _ old ps c He);
          [cbn [get]; now rewrite Hpl|reflexivity].
      * assert (H : patch (VObj props) c =
                    inr (Some (VObj (obj_define (lit "expo")
                                       (VArr el (obj_define (lit "plugins")
                                                   (VArr [entry c] []) eps))
                                       props)))).
        { apply (patch_fresh props (VArr el eps)
                   (VArr el (obj_define (lit "plugins") (VArr [] []) eps)) _ c He);
            [cbn [get]; now rewrite Hpl|reflexivity|reflexivity]. }
        destruct pl; try discriminate; try exact H;
          cbn [truthy] in Ht |- *; now rewrite Ht.
    + apply (patch_fresh props (VArr el eps)
               (VArr el (obj_define (lit "plugins") (VArr [] []) eps)) _ c He);
        [cbn [get]; now rewrite Hpl|reflexivity|reflexivity].
  - destruct (obj_get (lit "plugins") ep) as [pl|] eqn:Hpl.
    + destruct (truthy (Some pl)) eqn:Ht.
      * destruct pl as [|b|n|s|old ps|o];
          try discriminate;
          try (rewrite Ht;
               eapply (patch_not_array props (VObj ep));
               [exact He|cbn [get]; now rewrite Hpl|exact Ht|reflexivity]).
        apply (patch_list props (VObj ep) _ old ps c He);
          [cbn [get]; now rewrite Hpl|reflexivity].
      * assert (H : patch (VObj props) c =
                    inr (Some (VObj (obj_define (lit "expo")
                                       (VObj (obj_define (lit "plugins")
                                                (VArr [entry c] []) ep))
                                       props)))).
        { apply (patch_fresh props (VObj ep)
                   (VObj (obj_define (lit "plugins") (VArr [] []) ep)) _ c He);
            [cbn [get]; now rewrite Hpl|reflexivity|reflexivity]. }
        destruct pl; try discriminate; try exact H;
          cbn [truthy] in Ht |- *; now rewrite Ht.
    + apply (patch_fresh props (VObj ep)
               (VObj (obj_define (lit "plugins") (VArr [] []) ep)) _ c He);
        [cbn [get]; now rewrite Hpl|reflexivity|reflexivity].
Qed.

(** X13 ([modifyAppJson] with [isPluginInConfig], lines 84-88): when
    the list [expo.plugins] of the document holds the bare name of
    the plugin, or an array headed by it, the structured patcher
    reads the file, prints that the plugin is configured and returns
    false, whatever the colour space: nothing is written. *)
Theorem configured_document_untouched (p : path) (c : ColorSpace) (w : world)
    (content : jsstring) (props eprops : properties) (l : list value)
    (ps : properties) (x : value) :
  lookup p (files w) = Some content ->
  JSON_parse content = Some (VObj props) ->
  obj_get (lit "expo") props = Some (VObj eprops) ->
  obj_get (lit "plugins") eprops = Some (VArr l ps) ->
  In x l -> bare_or_headed x ->
  modifyAppJson p c w = (Ret false, emits [Read p; Log already_json] w).
Proof.
  intros Hl Hparse He Hpl Hin Hx. rewrite (modifyAppJson_file _ _ _ _ Hl), Hparse.
  rewrite (patch_detects props eprops l ps c He Hpl).
  - unfold emit. now rewrite emits_emits.
  - apply detected_spec. now exists x.
Qed.

Lemma configured_document_untouched_witness :
  modifyAppJson app_json SRGB (project "app.json" configured_json)
  = (Ret false,
     emits [Read app_json; Log already_json] (project "app.json" configured_json)).
Proof.
  apply (configured_document_untouched app_json SRGB
           (project "app.json" configured_json) configured_json
           [(lit "expo", VObj [(lit "plugins", VArr [VStr plugin_name] [])])]
           [(lit "plugins", VArr [VStr plugin_name] [])]
           [VStr plugin_name] [] (VStr plugin_name)).
  - reflexivity.
  - vm_compute. reflexivity.
  - reflexivity.
  - reflexivity.
  - left. reflexivity.
  - left. reflexivity.
Defined.

Lemma patch_shape (props : properties) (c : ColorSpace) (config' : value) :
  patch (VObj props) c = inr (Some config') ->
  exists inner,
    config' = VObj (obj_define (lit "expo") inner props)
    /\ forall ep,
         obj_get (lit "expo") props = Some (VObj ep) ->
         exists pl, inner = VObj (obj_define (lit "plugins") pl ep).
Proof.
  pose proof (patch_cases props c) as H.
  destruct (obj_get (lit "expo") props) as [[|b|n|s|el eps|ep]|];
    try (destruct (truthy _); rewrite H; intros [= <-];
         eexists; split; [reflexivity|discriminate]).
  - destruct (obj_get (lit "plugins") eps) as [[|b|n|s|old ps|o]|];
      try (destruct (truthy _); rewrite H; intros [= <-];
           eexists; split; [reflexivity|discriminate]).
    destruct (isPluginInConfig (Some (VArr old ps))); rewrite H; intros [= <-].
    eexists; split; [reflexivity|discriminate].
  - destruct (obj_get (lit "plugins") ep) as [[|b|n|s|old ps|o]|];
      try (destruct (truthy _); rewrite H; intros [= <-];
           eexists; split; [reflexivity|]; intros ep0 [= <-]; eauto).
    destruct (isPluginInConfig (Some (VArr old ps))); rewrite H; intros [= <-].
    eexists; split; [reflexivity|]. intros ep0 [= <-]. eauto.
Qed.

(** X16 ([modifyAppJson], lines 74-96): the members of the document
    and those of its [expo] keep their order. The names of the
    document written are those of the document read, with [expo]
    added last when it was not there; when [expo] was an object, its
    names are those it had, with [plugins] added last when it was not
    there. *)
Theorem key_order_kept (p : path) (c : ColorSpace) (w w' : world)
    (content : jsstring) (props : properties) :
  lookup p (files w) = Some content ->
  JSON_parse content = Some (VObj props) ->
  modifyAppJson p c w = (Ret true, w') ->
  exists props',
    lookup p (files w') = Some (JSON_stringify (VObj props') 2 ++ nl)
    /\ keys props' = add_key (lit "expo") (keys props)
    /\ forall ep,
         obj_get (lit "expo") props = Some (VObj ep) ->
         exists ep',
           obj_get (lit "expo") props' = Some (VObj ep')
           /\ keys ep' = add_key (lit "plugins") (keys ep).
Proof.
  intros Hl Hparse. rewrite (modifyAppJson_file _ _ _ _ Hl), Hparse.
  destruct (patch (VObj props) c) as [e|[config'|]] eqn:Hpatch;
    try discriminate.
  intros [= <-].
  destruct (patch_shape props c config' Hpatch) as (inner & -> & Hinner).
  exists (obj_define (lit "expo") inner props).
  split; [apply lookup_store_same|].
  split; [now apply keys_define|].
  intros ep He. destruct (Hinner ep He) as [pl ->].
  exists (obj_define (lit "plugins") pl ep).
  split; [apply obj_get_define_same|now apply keys_define].
Qed.

Lemma key_order_kept_witness :
  exists props',
    lookup app_json
      (files (snd (modifyAppJson app_json SRGB (project "app.json" scenario_json))))
    = Some (JSON_stringify (VObj props') 2 ++ nl)
    /\ keys props'
       = add_key (lit "expo")
           (keys [(lit "expo", VObj [(lit "name", VStr (lit "X"))])])
    /\ forall ep,
         obj_get (lit "expo") [(lit "expo", VObj [(lit "name", VStr (lit "X"))])]
         = Some (VObj ep) ->
         exists ep',
           obj_get (lit "expo") props' = Some (VObj ep')
           /\ keys ep' = add_key (lit "plugins") (keys ep).
Proof.
  apply (key_order_kept app_json SRGB (project "app.json" scenario_json)
           (snd (modifyAppJson app_json SRGB (project "app.json" scenario_json)))
           scenario_json [(lit "expo", VObj [(lit "name", VStr (lit "X"))])]).
  - reflexivity.
  - vm_compute. reflexivity.
  - reflexivity.
Defined.



(* ================================================================= *)
(** ** The text patcher and the name of the plugin *)

(** X18 ([modifyAppConfigJs], lines 107-113): the text patcher prints
    that the plugin is configured and returns false exactly when the
    name of the plugin occurs somewhere in the text, be it in a
    comment or in another word; the file is then left as it is, also
    when an anchor occurs in it. *)
Theorem mention_blocks_patch (p : path) (c : ColorSpace) (w : world)
    (content : jsstring) :
  lookup p (files w) = Some content ->
  (exists a b, content = a ++ plugin_name ++ b)
  <-> modifyAppConfigJs p c w = (Ret false, emits [Read p; Log (already_js p)] w).
Proof.
  intros Hl. rewrite <- includes_app, (modifyAppConfigJs_file _ _ _ _ Hl).
  destruct (includes content plugin_name); split; try reflexivity;
    try discriminate.
  destruct (search pluginsArrayRegex content) as [[[b m] a]|];
    [discriminate|].
  destruct (search pluginsArrayJsonRegex content) as [[[b m] a]|];
    [discriminate|].
  destruct (search expoObjectRegex content) as [[[b m] a]|];
    [discriminate|].
  intros [= H]. apply app_inv_head in H. discriminate.
Qed.

Lemma mention_blocks_patch_witness :
  (exists a b, commented_js = a ++ plugin_name ++ b)
  <-> modifyAppConfigJs app_config_js SRGB (project "app.config.js" commented_js)
      = (Ret false,
         emits [Read app_config_js; Log (already_js app_config_js)]
               (project "app.config.js" commented_js)).
Proof.
  apply (mention_blocks_patch app_config_js SRGB
           (project "app.config.js" commented_js) commented_js).
  reflexivity.
Defined.

(* ================================================================= *)
(** ** From the command line to the file *)

Lemma patchable_not_array (props : properties) :
  patchable props = true -> isArray (obj_get (lit "expo") props) = false.
Proof.
  unfold patchable.
  destruct (obj_get (lit "expo") props) as [[| | | |el eps|]|]; try reflexivity.
  discriminate.
Qed.



(* ================================================================= *)
(** ** The bytes of the files *)







(** C4, as stated, fails: a byte that is not UTF-8 is read as the
    replacement character and written back as the three bytes of
    that character, away from the inserted fragment. *)
Lemma frame_property_counterexample :
  modifyAppConfigJs app_config_js displayP3 latin1_project
  = (Ret true, snd (modifyAppConfigJs app_config_js displayP3 latin1_project))
  /\ bytes_of latin1_project app_config_js
     = Some ([47; 47; 32; 233; 10] ++ scenario_js)
  /\ (exists rest,
         bytes_of (snd (modifyAppConfigJs app_config_js displayP3
                          latin1_project)) app_config_js
         = Some ([47; 47; 32; 239; 191; 189; 10] ++ rest))
  /\ ~ byte_frame latin1_project app_config_js displayP3.
Proof.
  split; [reflexivity|]. split; [reflexivity|].
  split; [eexists; vm_compute; reflexivity|].
  intros H.
  destruct (H _ latin1_js eq_refl eq_refl)
    as (after & Hafter & pre & inserted & post & Hb & Ha).
  assert (Hin : In 233 after).
  { rewrite Ha. assert (Hin : In 233 (pre ++ post)).
    { rewrite <- Hb. vm_compute. auto 10. }
    apply in_app_or in Hin as [Hin|Hin]; apply in_or_app; [now left|right].
    apply in_or_app. now right. }
  vm_compute in Hafter. injection Hafter as <-.
  revert Hin. vm_compute. intros Hin.
  repeat (destruct Hin as [Hin|Hin]; [discriminate Hin|]). exact Hin.
Qed.

(* ================================================================= *)
(** ** What the run prints when a patcher declines or fails *)


(** A run whose prompt is not answered: the question is the last
    thing that happens. *)
Lemma pending_run (options : ApplyOptions) (w : world) (p : path) :
  config_file w = Some p -> colorSpace options = None -> stdin w = [] ->
  exists w',
    apply options w = (Pending, w')
    /\ files w' = files w
    /\ trace w' = trace w ++ probes w ++ [found_log p] ++ prompt_events.
Proof.
  intros Hp Ho Hs. rewrite (apply_pending options w p Hp Ho Hs).
  eexists. split; [reflexivity|]. split; [reflexivity|].
  cbn [after_choice trace]. unfold before_patch. now rewrite Ho.
Qed.

(** C5, as stated, fails: in a run without a colour space whose
    prompt is not answered the patcher is not reached; nothing is
    printed for a manual insertion and the run does not end. *)
Lemma graceful_degradation_counterexample :
  read_result (project "app.config.js" no_anchor_js) app_config_js
  = inr no_anchor_js
  /\ patch_text no_anchor_js displayP3 = None
  /\ includes no_anchor_js plugin_name = false
  /\ ~ degrades_gracefully noOptions (project "app.config.js" no_anchor_js).
Proof.
  split; [reflexivity|]. split; [reflexivity|]. split; [reflexivity|].
  intros (w' & evs & c & H & _). vm_compute in H. discriminate.
Qed.





(** C6, as stated, fails: in a run without a colour space whose
    prompt is not answered the file is not read; no error is printed
    and the run does not end. *)
Lemma parse_error_atomicity_counterexample :
  read_result (project "app.json" broken_json) app_json = inr broken_json
  /\ JSON_parse broken_json = None
  /\ ~ parse_failure_reported noOptions (project "app.json" broken_json).
Proof.
  split; [reflexivity|]. split; [reflexivity|].
  intros (w' & evs & m & H & _). vm_compute in H. discriminate.
Qed.



(* ================================================================= *)
(** ** The prompt comes before the reading of the file *)

Lemma probe_no_read (d : jsstring) (present : path -> bool)
    (l : list jsstring) : no_read (snd (probe d present l)).
Proof.
  intros q. induction l as [|file r IH]; cbn; [tauto|].
  destruct (present (path_join d file)); cbn.
  - intros [H|[]]. discriminate.
  - destruct (probe d present r) as [res evs]. cbn in *.
    intros [H|H]; [discriminate|tauto].
Qed.

Lemma prompt_no_read (w : world) (p : path) :
  no_read (probes w ++ [found_log p] ++ prompt_events).
Proof.
  intros q H. apply in_app_or in H as [H|H].
  - exact (probe_no_read _ _ _ q H).
  - cbn in H. repeat destruct H as [H|H]; try discriminate; exact H.
Qed.

Lemma detected_modify_read (p : path) (c : ColorSpace) (wB : world)
    (content : jsstring) :
  known_extension p ->
  read_result wB p = inr content ->
  entry_present p content = true ->
  modify p c wB = (Ret false, emits [Read p; already_log p] wB).
Proof.
  unfold entry_present. intros [[Hext Hbase]|Hext] Hr.
  - rewrite (modify_json _ _ Hext), modifyAppJson_spec, Hr, Hext.
    cbn [str_eqb]. rewrite str_eqb_refl.
    destruct (JSON_parse content) as [config|]; [|discriminate].
    destruct (patch config displayP3) as [e|[config'|]] eqn:Hpatch;
      try discriminate.
    intros _. rewrite (patch_none_any config displayP3 c Hpatch).
    unfold already_log, already_json. rewrite Hbase. unfold emit.
    now rewrite emits_emits.
  - rewrite (modify_js _ _ Hext), modifyAppConfigJs_spec, Hr.
    replace (str_eqb (extname p) (lit ".json")) with false
      by (destruct Hext as [-> | ->]; reflexivity).
    intros ->. unfold already_log, already_js. cbn [join].
    now rewrite <- !app_assoc.
Qed.

(** C9 (amended): in every run without a colour space the question is
    asked right after the configuration file is found and before
    any file is read. When the question is never answered the run
    stays at the prompt, nothing read, reported or written. When the
    entry is there and the question is answered, the file is then
    read, the run reports that the plugin is already configured,
    writes nothing and ends with the exit code 0. *)
Theorem prompt_precedes_detection (options : ApplyOptions) (w : world)
    (p : path) :
  config_file w = Some p ->
  colorSpace options = None ->
  no_read (probes w ++ [found_log p] ++ prompt_events)
  /\ (exists evs,
         trace (snd (apply options w))
         = trace w ++ (probes w ++ [found_log p] ++ prompt_events) ++ evs)
  /\ (stdin w = [] ->
      exists w',
        apply options w = (Pending, w')
        /\ files w' = files w
        /\ trace w' = trace w ++ probes w ++ [found_log p] ++ prompt_events)
  /\ (forall content answer rest,
         read_result w p = inr content ->
         entry_present p content = true ->
         stdin w = answer :: rest ->
         exists w',
           apply options w = (Ret tt, w')
           /\ exit_code (fst (apply options w)) = Some 0%Z
           /\ files w' = files w
           /\ trace w' = trace w ++ probes w ++ [found_log p] ++ prompt_events
                                 ++ [Read p; already_log p]).
Proof.
  intros Hp Ho.
  assert (Hb : before_patch options w p
               = probes w ++ [found_log p] ++ prompt_events)
    by (unfold before_patch; now rewrite Ho).
  split; [apply prompt_no_read|]. split; [|split].
  - destruct (apply_runs options w)
      as [[Hn _]|[(p' & Hp' & _ & _ & Ha)
                 |(p' & c & Hp' & _ & [(e & Ha)|[(logs & _ & Ha)|(t & Ha)]])]];
      [congruence| | | |];
      rewrite Hp in Hp'; injection Hp' as <-; rewrite Ha;
      cbn [snd emits emit written after_choice trace]; rewrite Hb.
    + exists []. now rewrite app_nil_r.
    + eexists. rewrite <- !app_assoc. reflexivity.
    + eexists. rewrite <- !app_assoc. reflexivity.
    + eexists. rewrite <- !app_assoc. reflexivity.
  - intros Hs. now apply pending_run.
  - intros content answer rest Hr Hpresent Hs.
    assert (Hc : chosen options w (choice answer)).
    { right. split; [exact Ho|]. now exists answer, rest. }
    rewrite (apply_chosen _ _ _ _ Hp Hc).
    rewrite (detected_modify_read p (choice answer) (after_choice options w p)
               content (config_file_extension w p Hp) Hr Hpresent).
    eexists. split; [reflexivity|]. split; [reflexivity|].
    split; [reflexivity|].
    cbn [emits after_choice trace]. rewrite Hb. now rewrite <- !app_assoc.
Qed.

Lemma prompt_precedes_detection_witness :
  no_read (probes (interactive "app.json" configured_json [lit "2"])
           ++ [found_log app_json] ++ prompt_events)
  /\ (exists evs,
         trace (snd (apply noOptions
                       (interactive "app.json" configured_json [lit "2"])))
         = trace (interactive "app.json" configured_json [lit "2"])
           ++ (probes (interactive "app.json" configured_json [lit "2"])
               ++ [found_log app_json] ++ prompt_events) ++ evs)
  /\ (stdin (interactive "app.json" configured_json [lit "2"]) = [] ->
      exists w',
        apply noOptions (interactive "app.json" configured_json [lit "2"])
        = (Pending, w')
        /\ files w' = files (interactive "app.json" configured_json [lit "2"])
        /\ trace w'
           = trace (interactive "app.json" configured_json [lit "2"])
             ++ probes (interactive "app.json" configured_json [lit "2"])
             ++ [found_log app_json] ++ prompt_events)
  /\ (forall content answer rest,
         read_result (interactive "app.json" configured_json [lit "2"]) app_json
         = inr content ->
         entry_present app_json content = true ->
         stdin (interactive "app.json" configured_json [lit "2"])
         = answer :: rest ->
         exists w',
           apply noOptions (interactive "app.json" configured_json [lit "2"])
           = (Ret tt, w')
           /\ exit_code (fst (apply noOptions
                                (interactive "app.json" configured_json
                                   [lit "2"])))
              = Some 0%Z
           /\ files w'
              = files (interactive "app.json" configured_json [lit "2"])
           /\ trace w'
              = trace (interactive "app.json" configured_json [lit "2"])
                ++ probes (interactive "app.json" configured_json [lit "2"])
                ++ [found_log app_json] ++ prompt_events
                ++ [Read app_json; already_log app_json]).
Proof.
  exact (prompt_precedes_detection noOptions
           (interactive "app.json" configured_json [lit "2"]) app_json
           eq_refl eq_refl).
Defined.

(* ================================================================= *)
(** ** A plugins field that is not a list *)





(* ================================================================= *)
(** ** What the structured patcher writes *)

Lemma failed_json_thrown (w : world) (e : error) (content : jsstring) :
  failed_json (thrown w e content)
  = Error_ (lit "Failed to modify app.json: " ++ error_name e
            ++ detail (diagnostics w (match e with
                                      | SyntaxError => Parsing content
                                      | TypeError => Typing content
                                      end))).
Proof.
  unfold failed_json, thrown, error_to_string, detail. cbn [name message].
  destruct e; (destruct (diagnostics w _); reflexivity).
Qed.





(* ================================================================= *)
(** ** A run on a code-format file *)

(** X11 ([apply] with [modifyAppConfigJs], lines 105-159, 184-188 and
    197-200): the outcome of a run on [app.config.js] or
    [app.config.ts] whose colour space is known. When the file can be
    read, and can be written if an anchor is found in a text that
    does not mention the plugin, the run ends normally, with the
    exit code 0. When the file cannot be read (a directory of that
    name, a file without the permission), or has to be written and
    cannot be, the run prints the error of the system behind the
    prefix of the text patcher and ends with the exit code 1, no
    file changed. *)
Theorem code_format_outcome (options : ApplyOptions) (w : world)
    (p : path) (c : ColorSpace) :
  config_file w = Some p ->
  extname p = lit ".js" \/ extname p = lit ".ts" ->
  chosen options w c ->
  match read_result w p with
  | inr content =>
      if includes content plugin_name
         || match patch_text content c with None => true | _ => false end
         || can_write w p
      then fst (apply options w) = Ret tt
           /\ exit_code (fst (apply options w)) = Some 0%Z
      else apply options w
           = (Exit 1,
              emits [Read p;
                     error_log (failed_js p (system_error w (Writing p)))]
                    (after_choice options w p))
  | inl e =>
      apply options w
      = (Exit 1,
         emits [Read p; error_log (failed_js p e)] (after_choice options w p))
  end.
Proof.
  intros Hp Hext Hc.
  rewrite (apply_chosen _ _ _ _ Hp Hc), (modify_js _ _ Hext).
  rewrite modifyAppConfigJs_spec.
  change (read_result (after_choice options w p) p) with (read_result w p).
  change (can_write (after_choice options w p) p) with (can_write w p).
  destruct (read_result w p) as [e|content].
  - unfold emit. now rewrite emits_emits.
  - destruct (includes content plugin_name); [split; reflexivity|].
    destruct (patch_text content c) as [content'|]; [|split; reflexivity].
    destruct (can_write w p); [split; reflexivity|].
    cbn [orb]. unfold emit. now rewrite emits_emits.
Qed.

Lemma code_format_outcome_witness :
  match read_result directory_project app_config_js with
  | inr content =>
      if includes content plugin_name
         || match patch_text content displayP3 with None => true | _ => false end
         || can_write directory_project app_config_js
      then fst (apply (mkOptions (Some displayP3) None) directory_project)
           = Ret tt
           /\ exit_code (fst (apply (mkOptions (Some displayP3) None)
                                directory_project)) = Some 0%Z
      else apply (mkOptions (Some displayP3) None) directory_project
           = (Exit 1,
              emits [Read app_config_js;
                     error_log (failed_js app_config_js
                                  (system_error directory_project
                                     (Writing app_config_js)))]
                    (after_choice (mkOptions (Some displayP3) None)
                       directory_project app_config_js))
  | inl e =>
      apply (mkOptions (Some displayP3) None) directory_project
      = (Exit 1,
         emits [Read app_config_js; error_log (failed_js app_config_js e)]
               (after_choice (mkOptions (Some displayP3) None)
                  directory_project app_config_js))
  end.
Proof.
  exact (code_format_outcome (mkOptions (Some displayP3) None)
           directory_project app_config_js displayP3
           eq_refl (or_introl eq_refl) (or_introl eq_refl)).
Defined.

(* ================================================================= *)
(** ** The outcomes of the structured patcher *)



(** X15 ([modifyAppJson], lines 74-82 and 97-99): a document that is
    [null], a boolean, a number or a string, and a document that is
    an object whose [expo] is a truthy boolean, number or string,
    make the structured patcher fail with the name [TypeError] and
    the message of the engine behind the prefix of [modifyAppJson];
    the file is read and nothing is written. *)
Theorem primitive_document_rejected (p : path) (c : ColorSpace) (w : world)
    (content : jsstring) (config : value) :
  read_result w p = inr content ->
  JSON_parse content = Some config ->
  primitive config = true
  \/ (exists props expo,
         config = VObj props /\ obj_get (lit "expo") props = Some expo
         /\ primitive expo = true /\ truthy (Some expo) = true) ->
  modifyAppJson p c w
  = (Throw (Error_ (lit "Failed to modify app.json: TypeError"
                    ++ detail (diagnostics w (Typing content)))),
     emit (Read p) w).
Proof.
  intros Hr Hparse H. rewrite modifyAppJson_spec, Hr, Hparse.
  assert (Hp : patch config c = inl TypeError).
  { destruct H as [H|(props & expo & -> & He & Hprim & Ht)].
    - destruct config; try discriminate; reflexivity.
    - now apply (patch_primitive_expo props expo). }
  rewrite Hp, failed_json_thrown. reflexivity.
Qed.

Lemma primitive_document_rejected_witness :
  modifyAppJson app_json SRGB (project "app.json" primitive_expo)
  = (Throw (Error_ (lit "Failed to modify app.json: TypeError"
                    ++ detail (diagnostics (project "app.json" primitive_expo)
                                 (Typing primitive_expo)))),
     emit (Read app_json) (project "app.json" primitive_expo)).
Proof.
  apply (primitive_document_rejected app_json SRGB
           (project "app.json" primitive_expo) primitive_expo
           (VObj [(lit "expo", VStr (lit "x"))])).
  - reflexivity.
  - vm_compute. reflexivity.
  - right. exists [(lit "expo", VStr (lit "x"))], (VStr (lit "x")).
    repeat split; reflexivity.
Defined.




